(** * sim-logger: the append / rotate / prune engine of the file sinks

    A shallow embedding of [logger_core/src/file_sink.cpp] and
    [logger_core/src/rotating_file_sink.cpp], and of the severity levels
    of [logger_core/include/logger/level.hpp] and
    [logger_core/src/level.cpp].

    - [std::string] is [string] (a sequence of bytes);
    - [std::uint64_t] and [std::uint32_t] are [Z] with the wrap-around
      written out ([wrap64], [wrap32]);
    - the file system is a finite map from (directory, file name) to nodes;
    - the stream [fopen] returns is buffered: [fwrite] hands bytes to the
      stream, and they reach the file system when [fflush] (or [fclose])
      writes them out; a flush that fails has written out a part of them and
      the stream has dropped the others, as the C library of the platform
      does;
    - the C++ object and the operating system are threaded through a small
      state-and-exception monad; an exception leaves the state as it was
      when the [throw] was reached;
    - every fallible library call takes its outcome from a list the world
      carries, so a statement about all worlds is one about all patterns
      of I/O failure;
    - the mutex is not modelled: the statements are about one call at a
      time, which is what the lock guarantees.

    The definitions come first, module by module as in the sources; the
    lemmas and the statements about the sinks follow. *)

From Stdlib Require Import ZArith Lia Ascii String List DecimalString DecimalNat.
From Stdlib Require Import Sorting.Sorted Sorting.Permutation OrderedTypeEx.
From stdpp Require Import gmap strings list fin_maps sorting.

Set Warnings "-abstract-large-number".

Open Scope string_scope.

(** ** Fixed-width unsigned arithmetic *)

Definition wrap32 (z : Z) : Z := z mod 2 ^ 32.
Definition wrap64 (z : Z) : Z := z mod 2 ^ 64.

(** ** [std::string] operations used by the sinks *)

Module Str.

(** [s.size()] as an unsigned 64-bit value *)
Definition size (s : string) : Z := Z.of_nat (String.length s).

(** [s.substr(pos)] for [pos <= s.size()] *)
Fixpoint substr_from (pos : nat) (s : string) : string :=
  match pos, s with
  | O, _ => s
  | S p, String _ r => substr_from p r
  | S _, EmptyString => EmptyString
  end.

(** [s.substr(0, n)] *)
Fixpoint substr_to (n : nat) (s : string) : string :=
  match n, s with
  | S p, String c r => String c (substr_to p r)
  | _, _ => EmptyString
  end.

(** [s.rfind(prefix, 0) == 0]: the only position tried is 0 *)
Definition starts_with (prefix s : string) : bool := String.prefix prefix s.

(** [s[i]]; the callers check the length first *)
Definition at_ (s : string) (i : nat) : ascii :=
  match String.get i s with
  | Some c => c
  | None => zero
  end.

(** [s.back()] *)
Fixpoint back (s : string) : option ascii :=
  match s with
  | EmptyString => None
  | String c EmptyString => Some c
  | String _ r => back r
  end.

(** [std::to_string] of an unsigned value *)
Definition to_string (n : nat) : string :=
  NilEmpty.string_of_uint (Nat.to_uint n).

End Str.

(** ** The file system and the C library

    A file is named by the directory it lives in and its file name; the
    directory is the textual [parent_path()] of the path that was used, with
    the empty parent standing for the working directory ["."]. *)

Inductive Node : Type :=
| RegularFile (content : string)
| Directory.

Definition newline : ascii := "010"%char.

(** [line.empty() || line.back() != '\n'] *)
Definition lacks_newline (line : string) : bool :=
  match Str.back line with
  | Some c => negb (Ascii.eqb c newline)
  | None => true
  end.

Module Fs.

(** [(Some parent, name)] when the path has a ['/'], split at the last
    one; [(None, path)] otherwise. *)
Fixpoint split_path (p : string) : option string * string :=
  match p with
  | EmptyString => (None, EmptyString)
  | String c r =>
      match split_path r with
      | (Some d, f) => (Some (String c d), f)
      | (None, f) =>
          if Ascii.eqb c "/" then (Some EmptyString, f)
          else (None, String c f)
      end
  end.

(** [fs::path::parent_path()] *)
Definition parent_path (p : string) : string :=
  match fst (split_path p) with
  | None => EmptyString
  | Some EmptyString => "/"
  | Some d => d
  end.

(** [fs::path::filename()] *)
Definition filename (p : string) : string := snd (split_path p).

(** [parent_path().empty() ? "." : parent_path()] *)
Definition dir_of (p : string) : string :=
  match parent_path p with
  | EmptyString => "."
  | d => d
  end.

(** the file a path names *)
Definition resolve (p : string) : string * string := (dir_of p, filename p).

End Fs.

(** What the next fallible library call does: it succeeds, or it fails;
    a failing [fwrite] may still have handed [partial] bytes to the stream,
    a failing [fflush] may still have written out [partial] of the buffered
    bytes. *)
Inductive Outcome : Type :=
| Done
| Failed (partial : nat).

Record World : Type := mkWorld {
  (** what every file holds once the sink's stream is written out: for the
      file the stream is open on, the bytes the file system has followed by
      the bytes the stream still buffers *)
  files : gmap (string * string) Node;
  (** how many bytes at the end of that file are in the stream's buffer and
      not yet in the file system *)
  buffered : nat;
  (** outcomes of the coming fallible calls, in call order; past its end
      every call succeeds *)
  faults : list Outcome;
  (** what [strftime("%Y%m%d_%H%M%S")] of the host's UTC time yields now;
      [None] when it returns 0 *)
  utc_now : option string
}.

(** ** The sink object *)

Record Sink : Type := mkSink {
  (* FileSink *)
  path_ : string;
  durable_flush_ : bool;
  file_ : option (string * string);   (* std::FILE*, [None] is nullptr *)
  bytes_written_ : Z;                  (* std::atomic<std::uint64_t> *)
  (* RotatingFileSink *)
  base_path_ : string;
  max_bytes_ : Z;                      (* std::uint64_t *)
  rotations_performed_ : Z;            (* std::uint64_t *)
  max_rotated_files_ : Z               (* std::size_t *)
}.

Record Machine : Type := mkMachine {
  this : Sink;
  os : World
}.

Inductive Exn : Type :=
| invalid_argument (what : string)
| runtime_error (what : string).

Inductive Result (A : Type) : Type :=
| Ok (a : A)
| Throw (e : Exn).
Arguments Ok {A} a.
Arguments Throw {A} e.

(** ** State and exception monad *)

Definition M (A : Type) : Type := Machine -> Result A * Machine.

Definition ret {A} (a : A) : M A := fun m => (Ok a, m).

Definition throw {A} (e : Exn) : M A := fun m => (Throw e, m).

Definition bind {A B} (c : M A) (k : A -> M B) : M B :=
  fun m =>
    match c m with
    | (Ok a, m') => k a m'
    | (Throw e, m') => (Throw e, m')
    end.

(** [try { c } catch (...) { }] *)
Definition try_catch_all (c : M unit) : M unit :=
  fun m => (Ok tt, snd (c m)).

Notation "x <- c1 ;; c2" := (bind c1 (fun x => c2))
  (at level 100, c1 at next level, right associativity).
Notation "c1 ;; c2" := (bind c1 (fun _ => c2))
  (at level 100, right associativity).

Definition get_this : M Sink := fun m => (Ok (this m), m).
Definition get_os : M World := fun m => (Ok (os m), m).
Definition put_this (s : Sink) : M unit := fun m => (Ok tt, mkMachine s (os m)).
Definition put_os (w : World) : M unit := fun m => (Ok tt, mkMachine (this m) w).

Definition set_files (fs : gmap (string * string) Node) : M unit :=
  w <- get_os ;; put_os (mkWorld fs (buffered w) (faults w) (utc_now w)).

Definition set_buffered (n : nat) : M unit :=
  w <- get_os ;; put_os (mkWorld (files w) n (faults w) (utc_now w)).

Definition set_file_ (f : option (string * string)) : M unit :=
  s <- get_this ;;
  put_this (mkSink (path_ s) (durable_flush_ s) f (bytes_written_ s)
              (base_path_ s) (max_bytes_ s) (rotations_performed_ s)
              (max_rotated_files_ s)).

Definition set_path_ (p : string) : M unit :=
  s <- get_this ;;
  put_this (mkSink p (durable_flush_ s) (file_ s) (bytes_written_ s)
              (base_path_ s) (max_bytes_ s) (rotations_performed_ s)
              (max_rotated_files_ s)).

(** [bytes_written_.store(v)] *)
Definition store_bytes_written (v : Z) : M unit :=
  s <- get_this ;;
  put_this (mkSink (path_ s) (durable_flush_ s) (file_ s) v
              (base_path_ s) (max_bytes_ s) (rotations_performed_ s)
              (max_rotated_files_ s)).

(** [bytes_written_.fetch_add(n)] *)
Definition fetch_add_bytes_written (n : Z) : M unit :=
  s <- get_this ;; store_bytes_written (wrap64 (bytes_written_ s + n)).

(** [++rotations_performed_] *)
Definition incr_rotations_performed : M unit :=
  s <- get_this ;;
  put_this (mkSink (path_ s) (durable_flush_ s) (file_ s) (bytes_written_ s)
              (base_path_ s) (max_bytes_ s)
              (wrap64 (rotations_performed_ s + 1))
              (max_rotated_files_ s)).

(** ** The C library and [std::filesystem] calls *)

Module Libc.

(** takes the outcome of the next fallible call *)
Definition next_outcome : M Outcome :=
  w <- get_os ;;
  match faults w with
  | [] => ret Done
  | o :: rest => put_os (mkWorld (files w) (buffered w) rest (utc_now w)) ;; ret o
  end.

(** [std::fopen(path, "a")]: creates the file when it is missing; the
    buffer of the new stream is empty *)
Definition fopen_a (path : string) : M (option (string * string)) :=
  o <- next_outcome ;;
  match o with
  | Failed _ => ret None
  | Done =>
      w <- get_os ;;
      let key := Fs.resolve path in
      match files w !! key with
      | Some (RegularFile _) => set_buffered 0 ;; ret (Some key)
      | Some Directory => ret None
      | None =>
          set_files (<[key := RegularFile EmptyString]> (files w)) ;;
          set_buffered 0 ;;
          ret (Some key)
      end
  end.

Definition append_node (data : string) (n : Node) : Node :=
  match n with
  | RegularFile c => RegularFile (c +:+ data)
  | Directory => Directory
  end.

(** the node without its last [n] bytes *)
Definition drop_last (n : nat) (node : Node) : Node :=
  match node with
  | RegularFile c => RegularFile (Str.substr_to (String.length c - n) c)
  | Directory => Directory
  end.

(** [std::fwrite(data, 1, size, f)]: the number of bytes the stream has
    taken; they are buffered *)
Definition fwrite (data : string) (f : string * string) : M nat :=
  o <- next_outcome ;;
  let written :=
    match o with
    | Done => String.length data
    | Failed partial => Nat.min partial (Nat.pred (String.length data))
    end in
  w <- get_os ;;
  set_files (alter (append_node (Str.substr_to written data)) f (files w)) ;;
  set_buffered (buffered w + written) ;;
  ret written.

(** [std::fflush(f) == 0]: the buffered bytes are written out; when that
    fails, [kept] of them have reached the file system and the others are
    gone *)
Definition fflush (f : string * string) : M bool :=
  o <- next_outcome ;;
  w <- get_os ;;
  match o with
  | Done => set_buffered 0 ;; ret true
  | Failed partial =>
      let kept := Nat.min partial (Nat.pred (buffered w)) in
      set_files (alter (drop_last (buffered w - kept)) f (files w)) ;;
      set_buffered 0 ;;
      ret false
  end.

(** [std::fclose(f)]: what is buffered is written out as by [fflush]; the
    result is not looked at, and with nothing buffered nothing can be
    observed of it *)
Definition fclose (f : string * string) : M unit :=
  w <- get_os ;;
  match buffered w with
  | O => ret tt
  | S _ => fflush f ;; ret tt
  end.

(** [::fileno(f) >= 0] *)
Definition fileno (f : string * string) : M bool :=
  o <- next_outcome ;;
  ret (match o with Done => true | Failed _ => false end).

(** [::fsync(fd) == 0] *)
Definition fsync (f : string * string) : M bool :=
  o <- next_outcome ;;
  ret (match o with Done => true | Failed _ => false end).

(** [std::fseek(f, 0, SEEK_END) == 0]; its caller has just opened the
    stream, so nothing is buffered *)
Definition fseek_end (f : string * string) : M bool :=
  o <- next_outcome ;;
  ret (match o with Done => true | Failed _ => false end).

(** [std::ftell(f)] after the seek: the length of the file, or -1 *)
Definition ftell (f : string * string) : M Z :=
  o <- next_outcome ;;
  w <- get_os ;;
  match o, files w !! f with
  | Done, Some (RegularFile c) =>
      if (Str.size c <? 2 ^ 63)%Z then ret (Str.size c) else ret (-1)%Z
  | _, _ => ret (-1)%Z
  end.

(** [std::rename(from, to) == 0], with the POSIX rule that an existing
    regular file at [to] is replaced *)
Definition rename (from to : string) : M bool :=
  o <- next_outcome ;;
  match o with
  | Failed _ => ret false
  | Done =>
      w <- get_os ;;
      let kf := Fs.resolve from in
      let kt := Fs.resolve to in
      match files w !! kf with
      | None => ret false
      | Some n =>
          if decide (kf = kt) then ret true
          else
            match n, files w !! kt with
            | RegularFile _, Some Directory => ret false
            | Directory, Some (RegularFile _) => ret false
            | _, _ =>
                set_files (<[kt := n]> (delete kf (files w))) ;;
                ret true
            end
      end
  end.

(** [fs::exists(path, ec)] *)
Definition exists_ (path : string) : M bool :=
  w <- get_os ;;
  ret (match files w !! Fs.resolve path with Some _ => true | None => false end).

(** [fs::remove(p, ec)]; the result is not looked at *)
Definition remove (p : string * string) : M unit :=
  o <- next_outcome ;;
  match o with
  | Failed _ => ret tt
  | Done => w <- get_os ;; set_files (delete p (files w))
  end.

(** the entries [fs::directory_iterator(dir)] visits, [None] when the
    iteration fails; the order is the file system's own *)
Definition directory_iterator (dir : string)
  : M (option (list (string * string * Node))) :=
  o <- next_outcome ;;
  match o with
  | Failed _ => ret None
  | Done =>
      w <- get_os ;;
      ret (Some (List.filter (fun e => String.eqb (fst (fst e)) dir)
                   (map_to_list (files w))))
  end.

End Libc.

(** ** Helpers of the anonymous namespaces *)

(** [file_size_or_zero] *)
Definition file_size_or_zero (f : option (string * string)) : M Z :=
  match f with
  | None => ret 0%Z
  | Some h =>
      sought <- Libc.fseek_end h ;;
      if negb sought then ret 0%Z
      else
        pos <- Libc.ftell h ;;
        if (pos <? 0)%Z then ret 0%Z else ret (wrap64 pos)
  end.

(** [write_all_or_throw] *)
Definition write_all_or_throw (f : option (string * string)) (data : string)
  : M unit :=
  match f with
  | None => throw (runtime_error "FileSink file handle is null")
  | Some h =>
      written <- Libc.fwrite data h ;;
      if negb (written =? String.length data)%nat
      then throw (runtime_error "FileSink write failed")
      else ret tt
  end.

(** [fflush_or_throw] *)
Definition fflush_or_throw (f : option (string * string)) : M unit :=
  match f with
  | None => throw (runtime_error "FileSink file handle is null")
  | Some h =>
      flushed <- Libc.fflush h ;;
      if negb flushed then throw (runtime_error "FileSink fflush failed")
      else ret tt
  end.

(** [fsync_or_throw]; its caller has just flushed [f], so [f] is open *)
Definition fsync_or_throw (f : option (string * string)) : M unit :=
  match f with
  | None => throw (runtime_error "FileSink fileno failed")
  | Some h =>
      fd_ok <- Libc.fileno h ;;
      if negb fd_ok then throw (runtime_error "FileSink fileno failed")
      else
        synced <- Libc.fsync h ;;
        if negb synced then throw (runtime_error "FileSink fsync failed")
        else ret tt
  end.

(** [file_exists] *)
Definition file_exists (path : string) : M bool := Libc.exists_ path.

(** [rename_or_throw] *)
Definition rename_or_throw (from to : string) : M unit :=
  renamed <- Libc.rename from to ;;
  if negb renamed then throw (runtime_error "RotatingFileSink rename failed")
  else ret tt.

(** runs [cleanup] when [c] throws, as stack unwinding runs a destructor *)
Definition on_unwind {A} (c : M A) (cleanup : M unit) : M A :=
  fun m =>
    match c m with
    | (Throw e, m') => (Throw e, snd (cleanup m'))
    | r => r
    end.

(** ** [FileSink] *)

Module FileSink.

Definition close_locked_noexcept : M unit :=
  s <- get_this ;;
  match file_ s with
  | Some h => Libc.fclose h ;; set_file_ None
  | None => ret tt
  end ;;
  store_bytes_written 0.

Definition open_locked_or_throw : M unit :=
  s <- get_this ;;
  f <- Libc.fopen_a (path_ s) ;;
  set_file_ f ;;
  match f with
  | None => throw (runtime_error "FileSink fopen failed")
  | Some _ =>
      sz <- file_size_or_zero f ;;
      store_bytes_written sz
  end.

Definition open_or_throw : M unit := open_locked_or_throw.

Definition close_noexcept : M unit := close_locked_noexcept.

Definition write_line_locked (line : string) : M unit :=
  s <- get_this ;;
  write_all_or_throw (file_ s) line ;;
  fetch_add_bytes_written (Str.size line) ;;
  if lacks_newline line then
    write_all_or_throw (file_ s) (String newline EmptyString) ;;
    fetch_add_bytes_written 1
  else ret tt.

Definition flush_locked : M unit :=
  s <- get_this ;;
  fflush_or_throw (file_ s) ;;
  if durable_flush_ s then fsync_or_throw (file_ s) else ret tt.

Definition reopen_locked (new_path : string) : M unit :=
  close_locked_noexcept ;;
  set_path_ new_path ;;
  open_locked_or_throw.

Definition bytes_written : M Z :=
  s <- get_this ;; ret (bytes_written_ s).

Definition flush : M unit := flush_locked.

(** the constructor; the members of the derived class are not yet
    initialised while it runs *)
Definition ctor (path : string) (durable_flush : bool) : M unit :=
  s <- get_this ;;
  put_this (mkSink path durable_flush None 0
              (base_path_ s) (max_bytes_ s) (rotations_performed_ s)
              (max_rotated_files_ s)) ;;
  match path with
  | EmptyString => throw (invalid_argument "FileSink path must not be empty")
  | _ => open_or_throw
  end.

(** the destructor *)
Definition dtor : M unit := close_noexcept.

Section Write.
Context {LogRecord : Type}.
(** [PatternFormatter::format] of the sink's [formatter_] *)
Variable formatter_ : LogRecord -> string.

Definition format_record (record : LogRecord) : string := formatter_ record.

Definition write (record : LogRecord) : M unit :=
  let line := format_record record in
  write_line_locked line.
End Write.

End FileSink.

(** ** [RotatingFileSink] *)

Module RotatingFileSink.

(** [c < '0' || c > '9']. A byte above 127 is rejected whether [char] is
    signed (it is below ['0']) or unsigned (it is above ['9']). *)
Definition not_digit (c : ascii) : bool :=
  (Ascii.ltb c "0" || Ascii.ltb "9" c)%bool.

(** the two validation loops over [ts[lo .. lo+n)] *)
Fixpoint has_non_digit (s : string) (lo n : nat) : bool :=
  match n with
  | O => false
  | S k => if not_digit (Str.at_ s lo) then true else has_non_digit s (S lo) k
  end.

(** the accumulation loop over [seq_str]; [None] is the early [return false] *)
Fixpoint parse_seq (seq_str : string) (acc : Z) : option Z :=
  match seq_str with
  | EmptyString => Some acc
  | String c r =>
      if not_digit c then None
      else parse_seq r
             (wrap32 (wrap32 (acc * 10) + wrap32 (Z.of_N (N_of_ascii c) - 48)))
  end.

(** [RotatingFileSink::parse_rotation_suffix]: [Some (ts, seq)] stands for
    [true] with the two out-parameters, [None] for [false]. *)
Definition parse_rotation_suffix (filename base_filename : string)
  : option (string * Z) :=
  let prefix := base_filename +:+ "." in
  if negb (Str.starts_with prefix filename) then None else
  let rest := Str.substr_from (String.length prefix) filename in
  if (String.length rest <? 15)%nat then None else
  let ts := Str.substr_to 15 rest in
  if has_non_digit ts 0 8 then None else
  if negb (Ascii.eqb (Str.at_ ts 8) "_") then None else
  if has_non_digit ts 9 6 then None else
  if (15 <? String.length rest)%nat then
    if negb (Ascii.eqb (Str.at_ rest 15) ".") then None else
    let seq_str := Str.substr_from 16 rest in
    match seq_str with
    | EmptyString => None
    | _ =>
        match parse_seq seq_str 0 with
        | None => None
        | Some acc => Some (ts, acc)
        end
    end
  else Some (ts, 0%Z).

Definition make_timestamp_utc : M string :=
  w <- get_os ;;
  match utc_now w with
  | Some buf => ret buf
  | None => ret "00000000_000000"
  end.

(** the local [struct Candidate] *)
Record Candidate : Type := mkCandidate {
  path : string * string;
  ts : string;
  seq : Z
}.

(** the comparator handed to [std::sort] *)
Definition candidate_less (a b : Candidate) : bool :=
  if negb (String.eqb (ts a) (ts b)) then String.ltb (ts a) (ts b)
  else (seq a <? seq b)%Z.

(** [std::sort], as an insertion sort *)
Fixpoint sort_insert (x : Candidate) (l : list Candidate) : list Candidate :=
  match l with
  | [] => [x]
  | y :: r => if candidate_less y x then y :: sort_insert x r else x :: y :: r
  end.

Definition std_sort (l : list Candidate) : list Candidate :=
  foldr sort_insert [] l.

(** the loop over the directory entries *)
Fixpoint collect_candidates (base_filename : string)
    (entries : list (string * string * Node)) : list Candidate :=
  match entries with
  | [] => []
  | (p, node) :: r =>
      match node with
      | Directory => collect_candidates base_filename r
      | RegularFile _ =>
          match parse_rotation_suffix (snd p) base_filename with
          | None => collect_candidates base_filename r
          | Some (t, q) => mkCandidate p t q :: collect_candidates base_filename r
          end
      end
  end.

(** the deletion loop over [candidates[0 .. to_delete)] *)
Fixpoint remove_each (doomed : list Candidate) : M unit :=
  match doomed with
  | [] => ret tt
  | c :: r => Libc.remove (path c) ;; remove_each r
  end.

Definition prune_old_rotations_locked : M unit :=
  s <- get_this ;;
  if (max_rotated_files_ s =? 0)%Z then ret tt
  else
    try_catch_all (
      let dir := Fs.dir_of (base_path_ s) in
      let base_filename := Fs.filename (base_path_ s) in
      entries <- Libc.directory_iterator dir ;;
      match entries with
      | None => ret tt
      | Some es =>
          let candidates := collect_candidates base_filename es in
          if (Z.of_nat (length candidates) <=? max_rotated_files_ s)%Z
          then ret tt
          else
            let sorted := std_sort candidates in
            let to_delete :=
              Z.to_nat (Z.of_nat (length candidates) - max_rotated_files_ s) in
            remove_each (take to_delete sorted)
      end).

(** the probing loop, entered with [seq = 1] and [n = 9999] rounds left;
    it yields the last name it built *)
Fixpoint probe (n : nat) (seq : nat) (rotated_base rotated_name : string)
  : M string :=
  match n with
  | O => ret rotated_name
  | S k =>
      let name := rotated_base +:+ "." +:+ Str.to_string seq in
      taken <- file_exists name ;;
      if negb taken then ret name
      else probe k (S seq) rotated_base name
  end.

(** the block of [rotate_locked] that settles [rotated_name] *)
Definition unique_rotated_name (rotated_base : string) : M string :=
  taken <- file_exists rotated_base ;;
  if taken then
    name <- probe 9999 1 rotated_base rotated_base ;;
    still_taken <- file_exists name ;;
    if still_taken
    then throw (runtime_error
           "RotatingFileSink: unable to find unique rotated filename")
    else ret name
  else ret rotated_base.

Definition rotate_locked : M unit :=
  FileSink.flush_locked ;;
  FileSink.close_locked_noexcept ;;
  s <- get_this ;;
  stamp <- make_timestamp_utc ;;
  let rotated_base := base_path_ s +:+ "." +:+ stamp in
  rotated_name <- unique_rotated_name rotated_base ;;
  rename_or_throw (base_path_ s) rotated_name ;;
  FileSink.reopen_locked (base_path_ s) ;;
  incr_rotations_performed ;;
  prune_old_rotations_locked.

(** the value of [projected] in [write] *)
Definition projected (bytes_written : Z) (line : string) : Z :=
  wrap64 (wrap64 (bytes_written + Str.size line)
          + (if lacks_newline line then 1 else 0))%Z.

Section Write.
Context {LogRecord : Type}.
Variable formatter_ : LogRecord -> string.

Definition write (record : LogRecord) : M unit :=
  let line := FileSink.format_record formatter_ record in
  bw <- FileSink.bytes_written ;;
  s <- get_this ;;
  (if (max_bytes_ s <=? projected bw line)%Z then rotate_locked else ret tt) ;;
  FileSink.write_line_locked line.
End Write.

(** the constructor: the base class first, then the members, then the
    body; a [throw] from the body destroys the base class again *)
Definition ctor (path : string) (max_bytes : Z) (durable_flush : bool)
    (max_rotated_files : Z) : M unit :=
  FileSink.ctor path durable_flush ;;
  s <- get_this ;;
  put_this (mkSink (path_ s) (durable_flush_ s) (file_ s) (bytes_written_ s)
              path max_bytes 0 max_rotated_files) ;;
  on_unwind
    (match path with
     | EmptyString =>
         throw (invalid_argument "RotatingFileSink path must not be empty")
     | _ =>
         if (max_bytes =? 0)%Z
         then throw (invalid_argument "RotatingFileSink max_bytes must be > 0")
         else ret tt
     end)
    FileSink.dtor.

End RotatingFileSink.

(** ** Callers

    A caller invokes [write] and [flush] one after the other and contains
    their exceptions; between two calls the clock moves on and the outcomes
    of the coming library calls are whatever the host decides. *)

Section Callers.
Context {LogRecord : Type}.
Variable formatter_ : LogRecord -> string.

Inductive Call : Type :=
| call_write (record : LogRecord)
| call_flush
| host (coming : list Outcome) (clock : option string).

Definition exec (m : Machine) (c : Call) : Machine :=
  match c with
  | call_write record => snd (RotatingFileSink.write formatter_ record m)
  | call_flush => snd (FileSink.flush m)
  | host coming clock =>
      mkMachine (this m) (mkWorld (files (os m)) (buffered (os m)) coming clock)
  end.

Definition run (calls : list Call) (m : Machine) : Machine :=
  fold_left exec calls m.
End Callers.

(** [new RotatingFileSink(path, formatter, max_bytes, durable_flush,
    max_rotated_files)] on the world [w]: the object, or the exception, and
    the world the construction leaves behind *)
Definition construct (path : string) (max_bytes : Z) (durable_flush : bool)
    (max_rotated_files : Z) (w : World) : Result Sink * World :=
  let blank := mkSink EmptyString false None 0 EmptyString 0 0 0 in
  match RotatingFileSink.ctor path max_bytes durable_flush max_rotated_files
          (mkMachine blank w) with
  | (Ok _, m) => (Ok (this m), os m)
  | (Throw e, m) => (Throw e, os m)
  end.

(** ** [level.hpp] and [level.cpp] *)

Module Levels.

(** [enum class Level : uint8_t] *)
Inductive Level : Type :=
| Debug
| Info
| Warn
| Error
| Fatal.

(** [static_cast<uint8_t>(lvl)] *)
Definition underlying (lvl : Level) : Z :=
  match lvl with
  | Debug => 0
  | Info => 1
  | Warn => 2
  | Error => 3
  | Fatal => 4
  end.

(** [to_string(Level)]; the ["UNKNOWN"] after the [switch] is reached by no
    enumerator *)
Definition to_string (lvl : Level) : string :=
  match lvl with
  | Debug => "DEBUG"
  | Info => "INFO"
  | Warn => "WARN"
  | Error => "ERROR"
  | Fatal => "FATAL"
  end.

(** [to_upper_ascii]: the test [c >= 'a' && c <= 'z'] holds for the bytes
    97 to 122 only, whether [char] is signed or not *)
Definition to_upper_ascii (c : ascii) : ascii :=
  if ((97 <=? N_of_ascii c) && (N_of_ascii c <=? 122))%N
  then ascii_of_N (N_of_ascii c - 97 + 65)
  else c.

(** the loop of [iequals_ascii] from index [i], [n] rounds *)
Fixpoint iequals_from (a b : string) (i n : nat) : bool :=
  match n with
  | O => true
  | S k =>
      if negb (Ascii.eqb (to_upper_ascii (Str.at_ a i)) (to_upper_ascii (Str.at_ b i)))
      then false
      else iequals_from a b (S i) k
  end.

Definition iequals_ascii (a b : string) : bool :=
  if negb (String.length a =? String.length b)%nat then false
  else iequals_from a b 0 (String.length a).

Definition level_from_string (s : string) : option Level :=
  if iequals_ascii s "DEBUG" then Some Debug
  else if iequals_ascii s "INFO" then Some Info
  else if (iequals_ascii s "WARN" || iequals_ascii s "WARNING")%bool then Some Warn
  else if iequals_ascii s "ERROR" then Some Error
  else if iequals_ascii s "FATAL" then Some Fatal
  else None.

Definition level_from_int (value : Z) : option Level :=
  match value with
  | 0%Z | 1%Z => Some Info
  | 2%Z => Some Warn
  | 3%Z => Some Error
  | 10%Z => Some Debug
  | _ => None
  end.

Definition is_at_least (lvl threshold : Level) : bool :=
  (underlying threshold <=? underlying lvl)%Z.

End Levels.

(** ** Vocabulary of the statements *)

(** a decimal digit, ['0'] to ['9'] *)
Definition is_digit (c : ascii) : bool :=
  ((48 <=? N_of_ascii c) && (N_of_ascii c <=? 57))%N.

Fixpoint all_digits (s : string) : bool :=
  match s with
  | EmptyString => true
  | String c r => is_digit c && all_digits r
  end.

(** the shape [YYYYMMDD_HHMMSS]: 8 digits, an underscore, 6 digits *)
Definition is_timestamp (t : string) : bool :=
  (String.length t =? 15)%nat
  && all_digits (Str.substr_to 8 t)
  && Ascii.eqb (Str.at_ t 8) "_"
  && all_digits (Str.substr_from 9 t).

(** the number a string of decimal digits denotes, continuing from [acc] *)
Fixpoint decimal_value_from (acc : Z) (s : string) : Z :=
  match s with
  | EmptyString => acc
  | String c r => decimal_value_from (acc * 10 + (Z.of_N (N_of_ascii c) - 48)) r
  end.

Definition decimal_value (s : string) : Z := decimal_value_from 0 s.

(** the line ends with a newline *)
Definition ends_with_newline (line : string) : Prop :=
  exists body, line = body +:+ String newline EmptyString.

(** what one call of [write_line_locked] hands to the file *)
Definition terminated (line : string) : string :=
  if lacks_newline line then line +:+ String newline EmptyString else line.

(** a file name of the rotation convention for [base]: the base name, a
    dot, a timestamp, and possibly a dot and a non-empty run of digits *)
Definition rotation_name (base fn : string) : Prop :=
  exists t, is_timestamp t = true /\
    (fn = base +:+ "." +:+ t \/
     exists q, fn = base +:+ "." +:+ t +:+ "." +:+ q /\ q <> EmptyString
               /\ all_digits q = true).

(** the names rotation may give the old file, in probing order:
    [<rotated_base>], [<rotated_base>.1], ..., [<rotated_base>.9999] *)
Definition rotation_candidates (rotated_base : string) : list string :=
  rotated_base
  :: List.map (fun i => rotated_base +:+ "." +:+ Str.to_string i) (List.seq 1 9999).

(** the path names a file system entry *)
Definition present (w : World) (p : string) : Prop :=
  files w !! Fs.resolve p <> None.

(** the first [k] coming library calls succeed *)
Definition quiet (k : nat) (w : World) : Prop :=
  Forall (fun o => o = Done) (take k (faults w)).

(** every coming library call succeeds *)
Definition calm (w : World) : Prop :=
  Forall (fun o => o = Done) (faults w).

(** the file the sink keeps active *)
Definition base_key (s : Sink) : string * string := Fs.resolve (base_path_ s).

(** the object is as the constructor and the methods leave it: its path is
    the base path and an open handle is one on the base file *)
Definition sane (s : Sink) : Prop :=
  path_ s = base_path_ s
  /\ match file_ s with Some h => h = base_key s | None => True end.

(** the order of the pair (timestamp string, sequence number) *)
Definition key_le (a b : RotatingFileSink.Candidate) : Prop :=
  String.compare (RotatingFileSink.ts a) (RotatingFileSink.ts b) = Lt
  \/ (RotatingFileSink.ts a = RotatingFileSink.ts b
      /\ (RotatingFileSink.seq a <= RotatingFileSink.seq b)%Z).

(** the candidate set of a pruning pass: the regular files of the base
    file's directory whose names [parse_rotation_suffix] accepts *)
Definition candidates_of (s : Sink) (w : World) : list RotatingFileSink.Candidate :=
  RotatingFileSink.collect_candidates (Fs.filename (base_path_ s))
    (List.filter (fun e => String.eqb (fst (fst e)) (Fs.dir_of (base_path_ s)))
       (map_to_list (files w))).

(** the two objects differ at most in the byte counter *)
Definition same_but_bytes (s s' : Sink) : Prop :=
  path_ s' = path_ s /\ durable_flush_ s' = durable_flush_ s
  /\ file_ s' = file_ s /\ base_path_ s' = base_path_ s
  /\ max_bytes_ s' = max_bytes_ s
  /\ rotations_performed_ s' = rotations_performed_ s
  /\ max_rotated_files_ s' = max_rotated_files_ s.

(** [n] calls of [flush] in a row; the first exception ends them *)
Fixpoint flush_times (n : nat) : M unit :=
  match n with
  | O => ret tt
  | S k => FileSink.flush ;; flush_times k
  end.

(** the timestamp a rotation would use now *)
Definition stamp_of (w : World) : string :=
  match utc_now w with
  | Some buf => buf
  | None => "00000000_000000"
  end.

(** the object after [close_locked_noexcept] *)
Definition closed (s : Sink) : Sink :=
  mkSink (path_ s) (durable_flush_ s) None 0 (base_path_ s) (max_bytes_ s)
    (rotations_performed_ s) (max_rotated_files_ s).

(** what the file system is sure to hold: the files without the bytes the
    stream still buffers (a stream whose buffer is full writes out before
    it is flushed; the lines written here are far smaller than a buffer) *)
Definition on_disk (m : Machine) : gmap (string * string) Node :=
  match file_ (this m) with
  | Some h => alter (Libc.drop_last (buffered (os m))) h (files (os m))
  | None => files (os m)
  end.

(** [fs::exists] as a test on the world *)
Definition presentb (w : World) (p : string) : bool :=
  match files w !! Fs.resolve p with Some _ => true | None => false end.

(** the names the probing loop builds from [seq] on, [n] of them *)
Definition probe_names (rotated_base : string) (seq n : nat) : list string :=
  List.map (fun i => rotated_base +:+ "." +:+ Str.to_string i) (List.seq seq n).

(** the part of the object no file operation changes *)
Definition same_settings (s s' : Sink) : Prop :=
  durable_flush_ s' = durable_flush_ s /\ base_path_ s' = base_path_ s
  /\ max_bytes_ s' = max_bytes_ s
  /\ rotations_performed_ s' = rotations_performed_ s
  /\ max_rotated_files_ s' = max_rotated_files_ s.

(** the strict order of the pair (timestamp string, sequence number) *)
Definition key_lt (a b : RotatingFileSink.Candidate) : Prop :=
  String.compare (RotatingFileSink.ts a) (RotatingFileSink.ts b) = Lt
  \/ (RotatingFileSink.ts a = RotatingFileSink.ts b
      /\ (RotatingFileSink.seq a < RotatingFileSink.seq b)%Z).

(** the candidates a pruning pass of [m] deletes when the directory can be
    read: the first [count - limit] in sorted order *)
Definition doomed_of (m : Machine) : list RotatingFileSink.Candidate :=
  let candidates := candidates_of (this m) (os m) in
  take (Z.to_nat (Z.of_nat (length candidates) - max_rotated_files_ (this m)))
    (RotatingFileSink.std_sort candidates).

(** the base name with the timestamp a rotation would append now *)
Definition rotated_base_of (m : Machine) : string :=
  base_path_ (this m) +:+ "." +:+ stamp_of (os m).

(** the object after a rotation that succeeded *)
Definition rotated (s : Sink) : Sink :=
  mkSink (base_path_ s) (durable_flush_ s) (Some (base_key s)) 0 (base_path_ s)
    (max_bytes_ s) (wrap64 (rotations_performed_ s + 1)) (max_rotated_files_ s).

(** ** States the statements are tried on *)

Definition demo_sink : Sink :=
  mkSink "app.log" false (Some (".", "app.log")) 3 "app.log" 40 0 0.

Definition demo_world : World :=
  mkWorld {[ (".", "app.log") := RegularFile "ab
" ]} 0 [] (Some "20240101_120000").

Definition demo : Machine := mkMachine demo_sink demo_world.

Definition demo_pruning : Machine :=
  mkMachine
    (mkSink "app.log" false (Some (".", "app.log")) 0 "app.log" 40 0 1)
    (mkWorld
       (list_to_map
          [ ((".", "app.log"), RegularFile "");
            ((".", "app.log.20240101_120000"), RegularFile "a");
            ((".", "app.log.20240101_120001"), RegularFile "b");
            ((".", "app.log.20240101_120001.2"), RegularFile "c");
            ((".", "app.log.backup"), RegularFile "keep");
            ((".", "app.log.20240101_12000x"), RegularFile "keep") ])
       0 [] (Some "20240101_120002")).

Definition demo_fresh : Machine :=
  mkMachine
    (mkSink "app.log" false (Some (".", "app.log")) 0 "app.log" 8 0 0)
    (mkWorld {[ (".", "app.log") := RegularFile "" ]} 0 []
       (Some "20240101_120000")).

(** a sink as [RotatingFileSink("app.log", fmt, 8, false, 1)] leaves it in
    an empty directory *)
Definition demo_limit_one : Machine :=
  mkMachine
    (mkSink "app.log" false (Some (".", "app.log")) 0 "app.log" 8 0 1)
    (mkWorld {[ (".", "app.log") := RegularFile "" ]} 0 []
       (Some "20240101_120000")).

(** the state of [tests/test_rotating_file_sink.cpp], first test case: a
    fresh sink with [max_bytes = 40] and no retention limit *)
Definition test_rotation : Machine :=
  mkMachine
    (mkSink "rotation.log" false (Some (".", "rotation.log")) 0 "rotation.log"
       40 0 0)
    (mkWorld {[ (".", "rotation.log") := RegularFile "" ]} 0 []
       (Some "20240101_120000")).

(** third test case: three rotated files are on disk before a sink with
    limit 1 and a threshold of 1 MiB is made *)
Definition test_prune_after : Machine :=
  mkMachine
    (mkSink "prune_after.log" false (Some (".", "prune_after.log")) 0
       "prune_after.log" 1048576 0 1)
    (mkWorld
       (list_to_map
          [ ((".", "prune_after.log"), RegularFile "");
            ((".", "prune_after.log.20000101_000000"), RegularFile "old");
            ((".", "prune_after.log.20000101_000001"), RegularFile "old");
            ((".", "prune_after.log.20000101_000002"), RegularFile "old") ])
       0 [] (Some "20240101_120000")).

(** the world in which every name a rotation could take is in use *)
Definition demo_exhausted : Machine :=
  mkMachine
    (mkSink "app.log" false (Some (".", "app.log")) 0 "app.log" 8 0 0)
    (mkWorld
       (list_to_map
          (((".", "app.log"), RegularFile "")
           :: List.map (fun p => (Fs.resolve p, RegularFile "old"))
                (rotation_candidates "app.log.20240101_120000")))
       0 [] (Some "20240101_120000")).

(** ** Further vocabulary and states *)

(** the string with its ASCII letters in upper case *)
Fixpoint upper_ascii (s : string) : string :=
  match s with
  | EmptyString => EmptyString
  | String c r => String (Levels.to_upper_ascii c) (upper_ascii r)
  end.

(** what a run of [write] calls hands to the file: the terminated lines of
    the records, in call order *)
Definition appended {LogRecord} (formatter_ : LogRecord -> string)
    (records : list LogRecord) : string :=
  foldr (fun record acc => terminated (formatter_ record) +:+ acc) EmptyString
    records.

(** [demo] after the line [cd] has been written: its bytes are buffered *)
Definition demo_pending : Machine :=
  mkMachine
    (mkSink "app.log" false (Some (".", "app.log")) 6 "app.log" 40 0 0)
    (mkWorld {[ (".", "app.log") := RegularFile "ab
cd
" ]} 3 [] (Some "20240101_120000")).

(** a sink whose handle is null *)
Definition demo_closed : Machine := mkMachine (closed demo_sink) demo_world.

(** the sink is open on its base file and the byte counter is the number
    of bytes of that file, those the stream still buffers included, in
    64-bit unsigned arithmetic *)
Definition tracked (m : Machine) : Prop :=
  path_ (this m) = base_path_ (this m)
  /\ file_ (this m) = Some (base_key (this m))
  /\ exists content,
       files (os m) !! base_key (this m) = Some (RegularFile content)
       /\ bytes_written_ (this m) = wrap64 (Str.size content).


(** [demo] after the write of [hello], six bytes that are still in the
    buffer of the stream, when the next library call fails after two bytes *)
Definition demo_pending_failing : Machine :=
  mkMachine (mkSink "app.log" false (Some (".", "app.log")) 9 "app.log" 40 0 0)
    (mkWorld {[ (".", "app.log") := RegularFile "ab
hello
" ]} 6 [Failed 2] (Some "20240101_120000")).

(** the file lies in the directory of the base file and its name follows
    the rotation convention for the base file name *)
Definition rotation_file (s : Sink) (k : string * string) : Prop :=
  fst k = Fs.dir_of (base_path_ s)
  /\ rotation_name (Fs.filename (base_path_ s)) (snd k).

(** ** Strings *)

Lemma string_cons_app c s t : String c s +:+ t = String c (s +:+ t).
Proof. reflexivity. Qed.

Lemma string_length_app s t :
  String.length (s +:+ t) = String.length s + String.length t.
Proof. induction s as [|c s IH]; [reflexivity|]. rewrite string_cons_app. simpl. by rewrite IH. Qed.

Lemma string_app_assoc s t u : (s +:+ t) +:+ u = s +:+ (t +:+ u).
Proof. induction s as [|c s IH]; [reflexivity|]. rewrite !string_cons_app. by rewrite IH. Qed.

Lemma substr_from_app p r : Str.substr_from (String.length p) (p +:+ r) = r.
Proof. induction p as [|c p IH]; [reflexivity|]. rewrite string_cons_app. simpl. exact IH. Qed.

Lemma substr_to_app p r : Str.substr_to (String.length p) (p +:+ r) = p.
Proof.
  induction p as [|c p IH]; [by destruct r|].
  rewrite string_cons_app. simpl. by rewrite IH.
Qed.

Lemma substr_to_all n s : String.length s <= n -> Str.substr_to n s = s.
Proof.
  revert n. induction s as [|c s IH]; intros [|n] H; simpl in *; try reflexivity; try lia.
  rewrite IH; [reflexivity | lia].
Qed.

Lemma substr_split n s :
  n <= String.length s ->
  s = Str.substr_to n s +:+ Str.substr_from n s
  /\ String.length (Str.substr_to n s) = n.
Proof.
  revert s. induction n as [|n IH]; intros s H.
  - by destruct s.
  - destruct s as [|c s]; simpl in H; [lia|].
    destruct (IH s) as [E L]; [lia|]. simpl. rewrite string_cons_app.
    split; [by rewrite <- E | by rewrite L].
Qed.

Lemma substr_from_length n s :
  String.length (Str.substr_from n s) = String.length s - n.
Proof.
  revert s. induction n as [|n IH]; intros s; simpl; [lia|].
  destruct s as [|c s]; simpl; [reflexivity | apply IH].
Qed.

Lemma substr_from_uncons lo s :
  lo < String.length s ->
  Str.substr_from lo s = String (Str.at_ s lo) (Str.substr_from (S lo) s).
Proof.
  revert s. induction lo as [|lo IH]; intros [|c s] H; simpl in H; try lia.
  - reflexivity.
  - change (Str.substr_from (S lo) (String c s)) with (Str.substr_from lo s).
    rewrite (IH s) by lia. reflexivity.
Qed.

Lemma at_app_r p r i : Str.at_ (p +:+ r) (String.length p + i) = Str.at_ r i.
Proof.
  unfold Str.at_. rewrite (Nat.add_comm _ i). by rewrite <- append_correct2.
Qed.

Lemma at_app_l p r i : i < String.length p -> Str.at_ (p +:+ r) i = Str.at_ p i.
Proof. intros H. unfold Str.at_. by rewrite <- append_correct1. Qed.

Lemma prefix_app p r : String.prefix p (p +:+ r) = true.
Proof.
  induction p as [|c p IH]; [by destruct r|].
  rewrite string_cons_app. simpl. destruct (ascii_dec c c); [exact IH | congruence].
Qed.

Lemma prefix_split p s :
  String.prefix p s = true -> s = p +:+ Str.substr_from (String.length p) s.
Proof.
  revert s. induction p as [|c p IH]; intros s H; [reflexivity|].
  destruct s as [|d s]; simpl in H; [discriminate|].
  destruct (ascii_dec c d) as [->|]; [|discriminate].
  rewrite string_cons_app. simpl. f_equal. by apply IH.
Qed.

Lemma not_digit_is_digit c : RotatingFileSink.not_digit c = negb (is_digit c).
Proof.
  unfold RotatingFileSink.not_digit, is_digit, Ascii.ltb, Ascii.compare.
  change (N_of_ascii "0") with 48%N. change (N_of_ascii "9") with 57%N.
  destruct (N.compare_spec (N_of_ascii c) 48), (N.compare_spec 57 (N_of_ascii c));
    simpl; symmetry; rewrite ?negb_true_iff, ?negb_false_iff,
      ?andb_true_iff, ?andb_false_iff, ?N.leb_le, ?N.leb_gt; lia.
Qed.

Lemma has_non_digit_spec s lo n :
  lo + n <= String.length s ->
  RotatingFileSink.has_non_digit s lo n = negb (all_digits (Str.substr_to n (Str.substr_from lo s))).
Proof.
  revert lo. induction n as [|n IH]; intros lo H.
  - reflexivity.
  - rewrite substr_from_uncons by lia. simpl.
    rewrite not_digit_is_digit. destruct (is_digit (Str.at_ s lo)); simpl; [|reflexivity].
    rewrite IH by lia. reflexivity.
Qed.

Lemma wrap32_step a d :
  wrap32 (wrap32 (wrap32 a * 10) + wrap32 d) = wrap32 (a * 10 + d).
Proof.
  unfold wrap32.
  rewrite Z.add_mod_idemp_r by lia. rewrite Z.add_mod_idemp_l by lia.
  rewrite <- (Z.add_mod_idemp_l (a * 10)) by lia.
  rewrite <- (Z.add_mod_idemp_l (a `mod` 2 ^ 32 * 10)) by lia.
  rewrite Z.mul_mod_idemp_l by lia. reflexivity.
Qed.

Lemma parse_seq_digits q a :
  all_digits q = true ->
  RotatingFileSink.parse_seq q (wrap32 a) = Some (wrap32 (decimal_value_from a q)).
Proof.
  revert a. induction q as [|c q IH]; intros a H; simpl in *; [reflexivity|].
  apply andb_true_iff in H as [Hc Hq].
  rewrite not_digit_is_digit, Hc. simpl. rewrite wrap32_step. by apply IH.
Qed.

Lemma parse_seq_some q a v : RotatingFileSink.parse_seq q a = Some v -> all_digits q = true.
Proof.
  revert a. induction q as [|c q IH]; intros a H; simpl in *; [reflexivity|].
  rewrite not_digit_is_digit in H. destruct (is_digit c); simpl in *; [|discriminate].
  eauto.
Qed.

(** ** [parse_rotation_suffix] *)

Lemma parse_rotation_suffix_prefix base rest :
  Str.starts_with (base +:+ ".") (base +:+ "." +:+ rest) = true
  /\ Str.substr_from (String.length (base +:+ ".")) (base +:+ "." +:+ rest) = rest.
Proof.
  unfold Str.starts_with. rewrite <- (string_app_assoc base "." rest).
  split; [apply prefix_app | apply substr_from_app].
Qed.

Lemma parse_rotation_suffix_rejects_prefix fn base :
  String.prefix (base +:+ ".") fn = false ->
  RotatingFileSink.parse_rotation_suffix fn base = None.
Proof.
  intros P. unfold RotatingFileSink.parse_rotation_suffix, Str.starts_with.
  by rewrite P.
Qed.

Lemma is_timestamp_length t : is_timestamp t = true -> String.length t = 15.
Proof.
  unfold is_timestamp. rewrite !andb_true_iff.
  intros [[[T _] _] _]. by apply Nat.eqb_eq in T.
Qed.

Lemma timestamp_checks t :
  String.length t = 15 ->
  is_timestamp t =
  negb (RotatingFileSink.has_non_digit t 0 8)
  && Ascii.eqb (Str.at_ t 8) "_"
  && negb (RotatingFileSink.has_non_digit t 9 6).
Proof.
  intros L. unfold is_timestamp. rewrite L.
  rewrite !has_non_digit_spec by lia. rewrite !negb_involutive.
  change (Str.substr_from 0 t) with t.
  rewrite (substr_to_all 6 (Str.substr_from 9 t)); [reflexivity|].
  rewrite substr_from_length. lia.
Qed.

Lemma timestamp_passes t :
  is_timestamp t = true ->
  RotatingFileSink.has_non_digit t 0 8 = false
  /\ Ascii.eqb (Str.at_ t 8) "_" = true
  /\ RotatingFileSink.has_non_digit t 9 6 = false.
Proof.
  intros T. pose proof (is_timestamp_length t T) as L.
  rewrite (timestamp_checks t L) in T.
  rewrite !andb_true_iff, !negb_true_iff in T. tauto.
Qed.

Lemma parse_plain_name base t :
  is_timestamp t = true ->
  RotatingFileSink.parse_rotation_suffix (base +:+ "." +:+ t) base = Some (t, 0%Z).
Proof.
  intros T. pose proof (is_timestamp_length t T) as L.
  destruct (timestamp_passes t T) as (T1 & T2 & T3).
  destruct (parse_rotation_suffix_prefix base t) as [P R].
  unfold RotatingFileSink.parse_rotation_suffix. rewrite P, R, L.
  cbv zeta. rewrite (substr_to_all 15 t) by lia. rewrite T1, T2, T3. reflexivity.
Qed.

Lemma parse_numbered_name base t q :
  is_timestamp t = true -> q <> "" -> all_digits q = true ->
  RotatingFileSink.parse_rotation_suffix (base +:+ "." +:+ t +:+ "." +:+ q) base
  = Some (t, wrap32 (decimal_value q)).
Proof.
  intros T Q D. pose proof (is_timestamp_length t T) as L.
  destruct (timestamp_passes t T) as (T1 & T2 & T3).
  destruct (parse_rotation_suffix_prefix base (t +:+ "." +:+ q)) as [P R].
  assert (E1 : Str.substr_to 15 (t +:+ "." +:+ q) = t)
    by (rewrite <- L; apply substr_to_app).
  assert (E2 : Str.at_ (t +:+ "." +:+ q) 15 = "."%char).
  { replace 15 with (String.length t + 0) by lia. by rewrite at_app_r. }
  assert (E3 : Str.substr_from 16 (t +:+ "." +:+ q) = q).
  { change 16 with (S 15). rewrite <- L. change ("." +:+ q) with (String "." q).
    clear. induction t as [|c t IH]; [reflexivity|].
    rewrite string_cons_app. exact IH. }
  assert (E4 : String.length (t +:+ "." +:+ q) = 16 + String.length q).
  { rewrite string_length_app, L. reflexivity. }
  unfold RotatingFileSink.parse_rotation_suffix.
  rewrite P, R, E1, E2, E3, E4, T1, T2, T3.
  replace (16 + String.length q <? 15)%nat with false
    by (symmetry; apply Nat.ltb_ge; lia).
  replace (15 <? 16 + String.length q)%nat with true
    by (symmetry; apply Nat.ltb_lt; lia).
  simpl negb. cbv iota zeta.
  change 0%Z with (wrap32 0). rewrite (parse_seq_digits q 0 D).
  destruct q; [congruence|]. reflexivity.
Qed.

Lemma parse_rotation_suffix_inv fn base t v :
  RotatingFileSink.parse_rotation_suffix fn base = Some (t, v) ->
  is_timestamp t = true /\
  ((fn = base +:+ "." +:+ t /\ v = 0%Z) \/
   exists q, fn = base +:+ "." +:+ t +:+ "." +:+ q /\ q <> "" /\ all_digits q = true
             /\ v = wrap32 (decimal_value q)).
Proof.
  intros H.
  destruct (String.prefix (base +:+ ".") fn) eqn:P;
    [|by rewrite parse_rotation_suffix_rejects_prefix in H].
  apply prefix_split in P. rewrite string_app_assoc in P.
  remember (Str.substr_from (String.length (base +:+ ".")) fn) as rest eqn:Er.
  rewrite P. rewrite P in H. clear P Er fn.
  destruct (parse_rotation_suffix_prefix base rest) as [P R].
  unfold RotatingFileSink.parse_rotation_suffix in H. rewrite P, R in H.
  match type of H with
  | (if negb true then _ else ?b) = ?r => change (b = r) in H
  end.
  destruct (String.length rest <? 15)%nat eqn:L15; [discriminate|].
  apply Nat.ltb_ge in L15.
  destruct (substr_split 15 rest L15) as [Split Lt].
  remember (Str.substr_to 15 rest) as t0 eqn:Et0.
  destruct (RotatingFileSink.has_non_digit _ 0 8) eqn:T1; [discriminate|].
  destruct (Ascii.eqb _ "_") eqn:T2; [|discriminate].
  match type of H with
  | (if negb true then _ else ?b) = ?r => change (b = r) in H
  end.
  destruct (RotatingFileSink.has_non_digit _ 9 6) eqn:T3; [discriminate|].
  assert (T : is_timestamp t0 = true).
  { rewrite (timestamp_checks _ Lt), T1, T2, T3. reflexivity. }
  destruct (15 <? String.length rest)%nat eqn:G.
  - apply Nat.ltb_lt in G.
    destruct (Ascii.eqb (Str.at_ rest 15) ".") eqn:Dot; [|discriminate].
    match type of H with
    | (if negb true then _ else ?b) = ?r => change (b = r) in H
    end.
    apply Ascii.eqb_eq in Dot.
    pose proof (substr_from_uncons 15 rest G) as U. rewrite Dot in U.
    destruct (Str.substr_from 16 rest) as [|c q] eqn:Q; [discriminate|].
    destruct (RotatingFileSink.parse_seq (String c q) 0) as [acc|] eqn:A; [|discriminate].
    injection H as <- <-. split; [exact T|]. right.
    exists (String c q). pose proof (parse_seq_some _ _ _ A) as D.
    change 0%Z with (wrap32 0) in A. rewrite (parse_seq_digits _ 0 D) in A.
    injection A as <-.
    repeat split; try done. rewrite Split at 1. by rewrite U.
  - apply Nat.ltb_ge in G. injection H as <- <-. split; [exact T|]. left.
    split; [|reflexivity]. f_equal. f_equal. rewrite Et0. symmetry.
    apply substr_to_all. lia.
Qed.

(** ** The monad *)

Lemma bind_ok {A B} (c : M A) (k : A -> M B) m a m1 :
  c m = (Ok a, m1) -> bind c k m = k a m1.
Proof. intros E. unfold bind. by rewrite E. Qed.

Lemma bind_throw {A B} (c : M A) (k : A -> M B) m e m1 :
  c m = (Throw e, m1) -> bind c k m = (Throw e, m1).
Proof. intros E. unfold bind. by rewrite E. Qed.

Lemma bind_inv {A B} (c : M A) (k : A -> M B) m r m' :
  bind c k m = (r, m') ->
  (exists a m1, c m = (Ok a, m1) /\ k a m1 = (r, m'))
  \/ (exists e, c m = (Throw e, m') /\ r = Throw e).
Proof.
  unfold bind. destruct (c m) as [[a|e] m1] eqn:E; intros H.
  - left. eauto.
  - right. injection H as <- <-. eauto.
Qed.

(** ** The library calls *)

Lemma next_outcome_spec m :
  exists o m1, Libc.next_outcome m = (Ok o, m1)
    /\ this m1 = this m /\ files (os m1) = files (os m)
    /\ utc_now (os m1) = utc_now (os m)
    /\ ((faults (os m) = [] /\ o = Done /\ faults (os m1) = [])
        \/ faults (os m) = o :: faults (os m1)).
Proof.
  unfold Libc.next_outcome, bind, get_os, put_os, ret.
  destruct m as [s [f bf fl u]]. simpl. destruct fl as [|o rest]; simpl.
  - exists Done. eexists. split; [reflexivity|]. simpl. auto 10.
  - exists o. eexists. split; [reflexivity|]. simpl. auto 10.
Qed.

Ltac unfold_m :=
  cbv [bind ret throw get_this get_os put_this put_os set_files set_buffered
       set_file_ set_path_ store_bytes_written fetch_add_bytes_written
       incr_rotations_performed Libc.next_outcome] in *.

Lemma substr_to_length s : Str.substr_to (String.length s) s = s.
Proof. apply substr_to_all. lia. Qed.

Lemma write_all_or_throw_spec f data m r m1 :
  write_all_or_throw f data m = (r, m1) ->
  this m1 = this m /\ utc_now (os m1) = utc_now (os m)
  /\ match f with
     | None => r = Throw (runtime_error "FileSink file handle is null") /\ m1 = m
     | Some h =>
         (forall k, k <> h -> files (os m1) !! k = files (os m) !! k)
         /\ (r = Ok tt -> files (os m1) = alter (Libc.append_node data) h (files (os m)))
     end.
Proof.
  destruct m as [s [fs bf fl u]]. destruct f as [h|]; unfold write_all_or_throw.
  - unfold Libc.fwrite. unfold_m. simpl.
    destruct fl as [|[|p] rest]; simpl.
    + rewrite Nat.eqb_refl. simpl. intros [= <- <-]. simpl.
      rewrite substr_to_length. repeat split; try done.
      intros k Hk. by rewrite lookup_alter_ne.
    + rewrite Nat.eqb_refl. simpl. intros [= <- <-]. simpl.
      rewrite substr_to_length. repeat split; try done.
      intros k Hk. by rewrite lookup_alter_ne.
    + destruct (_ =? _)%nat eqn:E; simpl; intros [= <- <-]; simpl.
      * apply Nat.eqb_eq in E. rewrite E, substr_to_length. repeat split; try done.
        intros k Hk. by rewrite lookup_alter_ne.
      * repeat split; try done. intros k Hk. by rewrite lookup_alter_ne.
  - unfold_m. intros [= <- <-]. auto.
Qed.

Lemma same_but_bytes_refl s : same_but_bytes s s.
Proof. by repeat split. Qed.

Lemma append_node_app d1 d2 n :
  Libc.append_node d2 (Libc.append_node d1 n) = Libc.append_node (d1 +:+ d2) n.
Proof. destruct n; simpl; [|reflexivity]. by rewrite string_app_assoc. Qed.

Lemma fetch_add_spec n m :
  fetch_add_bytes_written n m
  = (Ok tt, mkMachine
      (mkSink (path_ (this m)) (durable_flush_ (this m)) (file_ (this m))
         (wrap64 (bytes_written_ (this m) + n))
         (base_path_ (this m)) (max_bytes_ (this m))
         (rotations_performed_ (this m)) (max_rotated_files_ (this m)))
      (os m)).
Proof. reflexivity. Qed.

Lemma wrap64_idem z : wrap64 (wrap64 z) = wrap64 z.
Proof. unfold wrap64. by rewrite Z.mod_mod. Qed.

Lemma write_line_locked_spec line m r m' :
  FileSink.write_line_locked line m = (r, m') ->
  same_but_bytes (this m) (this m')
  /\ utc_now (os m') = utc_now (os m)
  /\ (forall k, file_ (this m) <> Some k -> files (os m') !! k = files (os m) !! k)
  /\ (file_ (this m) = None -> m' = m /\ r <> Ok tt)
  /\ (r = Ok tt ->
      exists h, file_ (this m) = Some h
        /\ files (os m') = alter (Libc.append_node (terminated line)) h (files (os m))
        /\ bytes_written_ (this m')
           = wrap64 (wrap64 (bytes_written_ (this m) + Str.size line)
                     + (if lacks_newline line then 1 else 0))).
Proof.
  unfold FileSink.write_line_locked. intros H.
  apply bind_inv in H as [(s & m0 & E0 & H)|(e & E0 & _)]; [|discriminate].
  injection E0 as <- <-.
  apply bind_inv in H as [([] & m1 & E1 & H)|(e & E1 & ->)].
  - apply write_all_or_throw_spec in E1 as (T1 & U1 & F1).
    destruct (file_ (this m)) as [h|] eqn:Fh; [|by destruct F1].
    destruct F1 as [O1 A1]. specialize (A1 eq_refl).
    apply bind_inv in H as [([] & m2 & E2 & H)|(e & E2 & ->)];
      [|rewrite fetch_add_spec in E2; discriminate].
    rewrite fetch_add_spec in E2. injection E2 as <-.
    unfold terminated. destruct (lacks_newline line).
    + apply bind_inv in H as [([] & m3 & E3 & H)|(e & E3 & ->)].
      * apply write_all_or_throw_spec in E3 as (T3 & U3 & O3 & A3).
        specialize (A3 eq_refl). simpl in *.
        rewrite fetch_add_spec in H. injection H as <- <-. simpl.
        rewrite T3. simpl. rewrite T1, Fh.
        split; [by repeat split|]. split; [congruence|].
        split; [intros k Hk; rewrite A3, A1, !lookup_alter_ne; congruence|].
        split; [done|]. intros _. exists h. split; [done|].
        split; [|reflexivity].
        rewrite A3, A1, alter_alter_eq. apply alter_ext. intros x _. simpl.
        apply append_node_app.
      * apply write_all_or_throw_spec in E3 as (T3 & U3 & O3 & A3). simpl in *.
        rewrite T3. simpl. rewrite T1, Fh.
        split; [by repeat split|]. split; [congruence|].
        split; [intros k Hk; rewrite O3 by congruence; simpl;
                rewrite A1, lookup_alter_ne; congruence|].
        split; done.
    + injection H as <- <-. simpl. rewrite T1, Fh.
      split; [by repeat split|]. split; [congruence|].
      split; [intros k Hk; rewrite A1, ?lookup_alter_ne; congruence|].
      split; [done|]. intros _. exists h. split; [done|].
      split; [done|]. by rewrite Z.add_0_r, wrap64_idem.
  - apply write_all_or_throw_spec in E1 as (T1 & U1 & F1).
    rewrite T1. split; [apply same_but_bytes_refl|]. split; [done|].
    destruct (file_ (this m)) as [h|] eqn:Fh.
    + destruct F1 as [O1 _]. split; [intros k Hk; apply O1; congruence|]. done.
    + destruct F1 as [_ ->]. done.
Qed.

Lemma next_outcome_calm m o m1 :
  Libc.next_outcome m = (Ok o, m1) -> calm (os m) -> o = Done /\ calm (os m1).
Proof.
  destruct m as [s [f bf fl u]]. unfold_m. simpl.
  destruct fl as [|o' rest]; simpl; intros [= <- <-]; unfold calm; simpl; intros C.
  - done.
  - by inversion C.
Qed.

Lemma next_outcome_quiet k m o m1 :
  Libc.next_outcome m = (Ok o, m1) -> quiet (S k) (os m) -> o = Done /\ quiet k (os m1).
Proof.
  destruct m as [s [f bf fl u]]. unfold_m. simpl.
  destruct fl as [|o' rest]; simpl; intros [= <- <-]; unfold quiet; simpl; intros C.
  - split; [done|]. by destruct k.
  - by inversion C.
Qed.

Lemma next_outcome_frame m r m1 :
  Libc.next_outcome m = (r, m1) ->
  (exists o, r = Ok o) /\ this m1 = this m /\ files (os m1) = files (os m)
  /\ utc_now (os m1) = utc_now (os m).
Proof.
  destruct (next_outcome_spec m) as (o & m2 & E & T & F & U & _).
  rewrite E. intros [= <- <-]. eauto.
Qed.

Lemma next_outcome_buffered m r m1 :
  Libc.next_outcome m = (r, m1) -> buffered (os m1) = buffered (os m).
Proof.
  destruct m as [s [f bf fl u]]. unfold_m. simpl.
  destruct fl as [|o' rest]; simpl; by intros [= <- <-].
Qed.

(** a library call that only reports success or failure *)
Lemma flag_call_spec (c : M bool) m r m1 :
  c = (o <- Libc.next_outcome ;;
       ret (match o with Done => true | Failed _ => false end)) ->
  c m = (r, m1) ->
  (exists b, r = Ok b /\ (calm (os m) -> b = true))
  /\ this m1 = this m /\ files (os m1) = files (os m)
  /\ utc_now (os m1) = utc_now (os m)
  /\ (calm (os m) -> calm (os m1)).
Proof.
  intros -> H. apply bind_inv in H as [(o & m2 & E & H)|(e & E & _)].
  - injection H as <- <-. pose proof (next_outcome_frame _ _ _ E) as (_ & T & F & U).
    split; [|by repeat split; try done; intros C; apply (next_outcome_calm _ _ _ E C)].
    eexists. split; [reflexivity|]. intros C.
    by destruct (next_outcome_calm _ _ _ E C) as [-> _].
  - apply next_outcome_frame in E as ((o & [=]) & _).
Qed.

Lemma flag_call_buffered (c : M bool) m r m1 :
  c = (o <- Libc.next_outcome ;;
       ret (match o with Done => true | Failed _ => false end)) ->
  c m = (r, m1) -> buffered (os m1) = buffered (os m).
Proof.
  intros -> H. apply bind_inv in H as [(o & m2 & E & H)|(e & E & _)].
  - injection H as <- <-. by apply next_outcome_buffered in E.
  - apply next_outcome_frame in E as ((o & [=]) & _).
Qed.

Lemma drop_last_0 node : Libc.drop_last 0 node = node.
Proof.
  destruct node as [c|]; [|done]. simpl. rewrite Nat.sub_0_r.
  by rewrite substr_to_length.
Qed.

Lemma alter_drop_last_0 (h : string * string) (fs : gmap (string * string) Node) :
  alter (Libc.drop_last 0) h fs = fs.
Proof. apply alter_id. intros x _. apply drop_last_0. Qed.

(** [fflush]: nothing stays buffered; the file the stream is open on loses
    the bytes that could not be written out, none when the call succeeds *)
Lemma fflush_spec h m r m1 :
  Libc.fflush h m = (r, m1) ->
  this m1 = this m /\ utc_now (os m1) = utc_now (os m)
  /\ buffered (os m1) = 0
  /\ (exists b lost,
        r = Ok b /\ lost <= buffered (os m)
        /\ files (os m1) = alter (Libc.drop_last lost) h (files (os m))
        /\ (b = true -> lost = 0)
        /\ (calm (os m) -> b = true))
  /\ (calm (os m) -> calm (os m1)).
Proof.
  unfold Libc.fflush. intros H.
  apply bind_inv in H as [(o & m2 & E & H)|(e & E & _)].
  2:{ apply next_outcome_frame in E as ((? & [=]) & _). }
  pose proof (next_outcome_buffered _ _ _ E) as B.
  pose proof (next_outcome_frame _ _ _ E) as (_ & T & F & U).
  assert (calm (os m) -> o = Done /\ calm (os m2)) as C
    by (intros C; by apply (next_outcome_calm _ _ _ E C)).
  rewrite (bind_ok get_os _ m2 (os m2) m2 eq_refl) in H.
  destruct o as [|partial].
  - unfold_m. injection H as <- <-. simpl.
    split; [done|]. split; [done|]. split; [done|].
    split; [|intros Ca; by destruct (C Ca)].
    exists true, 0. rewrite alter_drop_last_0. split; [done|].
    split; [lia|]. done.
  - unfold_m. injection H as <- <-. simpl.
    split; [done|]. split; [done|]. split; [done|].
    split; [|intros Ca; by destruct (C Ca)].
    exists false,
      (buffered (os m2) - Nat.min partial (Nat.pred (buffered (os m2)))).
    split; [done|]. split; [lia|]. split; [by rewrite F|]. split; [done|].
    intros Ca. by destruct (C Ca).
Qed.

Lemma fflush_or_throw_spec f m r m1 :
  fflush_or_throw f m = (r, m1) ->
  this m1 = this m
  /\ (forall k, f <> Some k -> files (os m1) !! k = files (os m) !! k)
  /\ utc_now (os m1) = utc_now (os m)
  /\ (r = Ok tt -> f <> None)
  /\ (calm (os m) -> calm (os m1) /\ (f <> None -> r = Ok tt)).
Proof.
  destruct f as [h|]; unfold fflush_or_throw.
  - intros H. apply bind_inv in H as [(b & m2 & E & H)|(e & E & _)].
    + apply fflush_spec in E
        as (T & U & B & (b' & lost & [= <-] & Ll & F & Lb & Cb) & C).
      assert (forall k, Some h <> Some k ->
                files (os m2) !! k = files (os m) !! k) as Fk.
      { intros k Nk. rewrite F. apply lookup_alter_ne. congruence. }
      destruct b; simpl in H; injection H as <- <-;
        refine (conj T (conj Fk (conj U (conj _ _)))); try done.
      * intros C'. split; [auto|done].
      * intros C'. specialize (Cb C'). discriminate.
    + apply fflush_spec in E as (_ & _ & _ & (b' & lost & [=] & _) & _).
  - intros [= <- <-]. refine (conj _ (conj _ (conj _ (conj _ _)))); try done.
Qed.

(** what a flush does to the buffered bytes *)
Lemma fflush_or_throw_flushed f m r m1 :
  fflush_or_throw f m = (r, m1) ->
  (f = None -> m1 = m)
  /\ (f <> None -> buffered (os m1) = 0)
  /\ (r = Ok tt -> files (os m1) = files (os m))
  /\ (forall h, f = Some h ->
        exists lost, lost <= buffered (os m)
          /\ files (os m1) = alter (Libc.drop_last lost) h (files (os m))).
Proof.
  destruct f as [h|]; unfold fflush_or_throw.
  - intros H. apply bind_inv in H as [(b & m2 & E & H)|(e & E & _)].
    + apply fflush_spec in E
        as (T & U & B & (b' & lost & [= <-] & Ll & F & Lb & Cb) & C).
      destruct b; simpl in H; injection H as <- <-.
      * rewrite (Lb eq_refl) in F. rewrite alter_drop_last_0 in F.
        split; [done|]. split; [done|]. split; [done|].
        intros h' [= <-]. exists 0. rewrite alter_drop_last_0. split; [lia|done].
      * split; [done|]. split; [done|]. split; [done|].
        intros h' [= <-]. eauto.
    + apply fflush_spec in E as (_ & _ & _ & (b' & lost & [=] & _) & _).
  - intros [= <- <-]. split; [done|]. split; [done|]. split; [done|]. done.
Qed.

Lemma fsync_or_throw_spec f m r m1 :
  fsync_or_throw f m = (r, m1) ->
  this m1 = this m /\ files (os m1) = files (os m)
  /\ utc_now (os m1) = utc_now (os m)
  /\ (calm (os m) -> calm (os m1) /\ (f <> None -> r = Ok tt)).
Proof.
  destruct f as [h|]; unfold fsync_or_throw.
  - intros H. apply bind_inv in H as [(b & m2 & E & H)|(e & E & _)].
    + apply (flag_call_spec _ _ _ _ eq_refl) in E as ((b' & [= <-] & Cb) & T & F & U & C).
      destruct b; simpl in H.
      * apply bind_inv in H as [(b2 & m3 & E2 & H)|(e & E2 & _)].
        -- apply (flag_call_spec _ _ _ _ eq_refl) in E2
             as ((b' & [= <-] & Cb2) & T2 & F2 & U2 & C2).
           destruct b2; simpl in H; injection H as <- <-;
             refine (conj _ (conj _ (conj _ _))); try congruence.
           ++ intros C'. split; [auto|done].
           ++ intros C'. specialize (Cb2 (C C')). discriminate.
        -- apply (flag_call_spec _ _ _ _ eq_refl) in E2 as ((b' & [=] & _) & _).
      * injection H as <- <-. refine (conj T (conj F (conj U _))).
        intros C'. specialize (Cb C'). discriminate.
    + apply (flag_call_spec _ _ _ _ eq_refl) in E as ((b' & [=] & _) & _).
  - intros [= <- <-]. refine (conj _ (conj _ (conj _ _))); try done.
Qed.

Lemma fsync_or_throw_buffered f m r m1 :
  fsync_or_throw f m = (r, m1) -> buffered (os m1) = buffered (os m).
Proof.
  destruct f as [h|]; unfold fsync_or_throw.
  - intros H. apply bind_inv in H as [(b & m2 & E & H)|(e & E & _)].
    + pose proof (flag_call_buffered _ _ _ _ eq_refl E) as B.
      destruct b; simpl in H.
      * apply bind_inv in H as [(b2 & m3 & E2 & H)|(e & E2 & _)].
        -- pose proof (flag_call_buffered _ _ _ _ eq_refl E2) as B2.
           destruct b2; simpl in H; injection H as <- <-; congruence.
        -- apply (flag_call_spec _ _ _ _ eq_refl) in E2 as ((b' & [=] & _) & _).
      * by injection H as <- <-.
    + apply (flag_call_spec _ _ _ _ eq_refl) in E as ((b' & [=] & _) & _).
  - by intros [= <- <-].
Qed.

Lemma flush_locked_spec m r m' :
  FileSink.flush_locked m = (r, m') ->
  this m' = this m
  /\ (forall k, file_ (this m) <> Some k -> files (os m') !! k = files (os m) !! k)
  /\ utc_now (os m') = utc_now (os m)
  /\ (r = Ok tt -> file_ (this m) <> None)
  /\ (calm (os m) -> calm (os m') /\ (file_ (this m) <> None -> r = Ok tt)).
Proof.
  unfold FileSink.flush_locked. intros H.
  apply bind_inv in H as [(s & m0 & E0 & H)|(e & E0 & _)]; [|discriminate].
  injection E0 as <- <-.
  apply bind_inv in H as [([] & m1 & E1 & H)|(e & E1 & ->)].
  - apply fflush_or_throw_spec in E1 as (T1 & F1 & U1 & O1 & C1).
    specialize (O1 eq_refl).
    destruct (durable_flush_ (this m)).
    + apply fsync_or_throw_spec in H as (T2 & F2 & U2 & C2).
      refine (conj _ (conj _ (conj _ (conj _ _)))); try congruence.
      * intros k Nk. rewrite F2. by apply F1.
      * intros C. destruct (C1 C) as [C1' _].
        destruct (C2 C1') as [C2' R2]. auto.
    + injection H as <- <-.
      refine (conj T1 (conj F1 (conj U1 (conj _ _)))); try done.
  - apply fflush_or_throw_spec in E1 as (T1 & F1 & U1 & O1 & C1).
    refine (conj T1 (conj F1 (conj U1 (conj _ _)))); try done.
Qed.

(** what [flush_locked] does to the buffered bytes: without a handle it
    does nothing; otherwise nothing stays buffered, a flush that returns
    normally has lost no byte, and one that throws has lost at most the
    buffered ones *)
Lemma flush_locked_flushed m r m' :
  FileSink.flush_locked m = (r, m') ->
  (file_ (this m) = None -> m' = m)
  /\ (file_ (this m) <> None -> buffered (os m') = 0)
  /\ (r = Ok tt -> files (os m') = files (os m))
  /\ (forall h, file_ (this m) = Some h ->
        exists lost, lost <= buffered (os m)
          /\ files (os m') = alter (Libc.drop_last lost) h (files (os m))).
Proof.
  unfold FileSink.flush_locked. intros H.
  apply bind_inv in H as [(s & m0 & E0 & H)|(e & E0 & _)]; [|discriminate].
  injection E0 as <- <-.
  apply bind_inv in H as [([] & m1 & E1 & H)|(e & E1 & ->)].
  - pose proof (fflush_or_throw_spec _ _ _ _ E1) as (_ & _ & _ & O1 & _).
    specialize (O1 eq_refl).
    apply fflush_or_throw_flushed in E1 as (_ & B1 & F1 & L1).
    specialize (B1 O1). specialize (F1 eq_refl).
    destruct (durable_flush_ (this m)).
    + pose proof (fsync_or_throw_buffered _ _ _ _ H) as B2.
      apply fsync_or_throw_spec in H as (T2 & F2 & U2 & C2).
      split; [done|]. split; [congruence|]. split; [congruence|].
      intros h Fh. exists 0. rewrite alter_drop_last_0. split; [lia|congruence].
    + injection H as <- <-.
      split; [done|]. split; [done|]. split; [done|].
      intros h Fh. exists 0. rewrite alter_drop_last_0. split; [lia|done].
  - apply fflush_or_throw_flushed in E1 as (N1 & B1 & F1 & L1).
    split; [done|]. split; [done|]. split; [done|]. done.
Qed.

Lemma flush_locked_nothing_buffered m r m' :
  FileSink.flush_locked m = (r, m') ->
  buffered (os m) = 0 ->
  files (os m') = files (os m) /\ buffered (os m') = 0.
Proof.
  intros H B. apply flush_locked_flushed in H as (N & Z & _ & L).
  destruct (file_ (this m)) as [h|] eqn:Fh.
  - destruct (L h eq_refl) as (lost & Ll & F).
    assert (lost = 0) as -> by lia. rewrite alter_drop_last_0 in F.
    split; [done|]. by apply Z.
  - by rewrite (N eq_refl).
Qed.

Lemma flush_times_spec n m r m' :
  flush_times n m = (r, m') ->
  this m' = this m
  /\ (forall k, file_ (this m) <> Some k -> files (os m') !! k = files (os m) !! k)
  /\ utc_now (os m') = utc_now (os m)
  /\ (calm (os m) -> file_ (this m) <> None -> r = Ok tt)
  /\ (r = Ok tt -> files (os m') = files (os m))
  /\ (buffered (os m) = 0 ->
      files (os m') = files (os m) /\ buffered (os m') = 0)
  /\ (r = Ok tt -> 0 < n -> buffered (os m') = 0).
Proof.
  revert m. induction n as [|n IH]; intros m H; simpl in H.
  - injection H as <- <-. repeat split; try done. lia.
  - apply bind_inv in H as [([] & m1 & E1 & H)|(e & E1 & ->)].
    + pose proof (flush_locked_flushed _ _ _ E1) as (_ & Z1 & K1 & _).
      pose proof (flush_locked_nothing_buffered _ _ _ E1) as N1.
      apply flush_locked_spec in E1 as (T1 & F1 & U1 & O1 & C1).
      specialize (O1 eq_refl). specialize (Z1 O1). specialize (K1 eq_refl).
      apply IH in H as (T2 & F2 & U2 & C2 & K2 & N2 & _).
      destruct (N2 Z1) as [Fe Be].
      split; [congruence|]. split; [intros k Nk; congruence|].
      split; [congruence|].
      split; [intros C O; destruct (C1 C) as [C1' _]; apply C2;
              [done|by rewrite T1]|].
      split; [congruence|]. split; [intros _; split; congruence|].
      intros _ _. exact Be.
    + pose proof (flush_locked_nothing_buffered _ _ _ E1) as N1.
      apply flush_locked_spec in E1 as (T1 & F1 & U1 & O1 & C1).
      refine (conj T1 (conj F1 (conj U1 (conj _ (conj _ (conj N1 _))))));
        try done.
      intros C O. destruct (C1 C) as [_ R]. by apply R.
Qed.

(** ** Rotation *)

Lemma fclose_nothing_buffered h m :
  buffered (os m) = 0 -> Libc.fclose h m = (Ok tt, m).
Proof.
  intros B. unfold Libc.fclose.
  rewrite (bind_ok get_os _ m (os m) m eq_refl). by rewrite B.
Qed.

Lemma close_locked_noexcept_spec m :
  file_ (this m) = None \/ buffered (os m) = 0 ->
  FileSink.close_locked_noexcept m = (Ok tt, mkMachine (closed (this m)) (os m)).
Proof.
  intros H. unfold FileSink.close_locked_noexcept.
  rewrite (bind_ok get_this _ m (this m) m eq_refl).
  destruct (file_ (this m)) as [h|] eqn:Fh.
  - destruct H as [|B]; [done|].
    rewrite (bind_ok _ _ _ _ _ (bind_ok _ _ _ _ _ (fclose_nothing_buffered h m B))).
    destruct m as [[p d f b bp mb rp mr] w]. simpl in *. subst f. reflexivity.
  - destruct m as [[p d f b bp mb rp mr] w]. simpl in *. subst f. reflexivity.
Qed.

Lemma make_timestamp_utc_spec m :
  RotatingFileSink.make_timestamp_utc m = (Ok (stamp_of (os m)), m).
Proof.
  unfold RotatingFileSink.make_timestamp_utc, stamp_of. unfold_m.
  by destruct (utc_now (os m)).
Qed.

Lemma file_exists_spec p m : file_exists p m = (Ok (presentb (os m) p), m).
Proof. reflexivity. Qed.

Lemma presentb_true w p : presentb w p = true <-> present w p.
Proof.
  unfold presentb, present. destruct (files w !! Fs.resolve p); split; try done.
Qed.

Lemma presentb_false w p : presentb w p = false <-> ~ present w p.
Proof.
  unfold presentb, present. destruct (files w !! Fs.resolve p); split; try done.
  - intros H. by destruct H.
  - intros _ H. by apply H.
Qed.

Lemma last_cons_default {A} (x : A) l d d' :
  List.last (x :: l) d = List.last (x :: l) d'.
Proof.
  revert x. induction l as [|y l IH]; intros x; [reflexivity|].
  change (List.last (y :: l) d = List.last (y :: l) d'). apply IH.
Qed.

Lemma Forall_last {A} (P : A -> Prop) l x :
  Forall P (x :: l) -> P (List.last l x).
Proof.
  revert x. induction l as [|y l IH]; intros x H; [by inversion H|].
  inversion H as [|? ? _ Hl]; subst.
  destruct l as [|z l]; [by inversion Hl|].
  change (P (List.last (z :: l) x)). rewrite (last_cons_default z l x y).
  by apply IH.
Qed.

Lemma probe_spec n : forall seq rb rn m,
  exists name, RotatingFileSink.probe n seq rb rn m = (Ok name, m)
    /\ ((exists pre post, probe_names rb seq n = (pre ++ name :: post)%list
           /\ Forall (present (os m)) pre /\ ~ present (os m) name)
        \/ (Forall (present (os m)) (probe_names rb seq n)
            /\ name = List.last (probe_names rb seq n) rn)).
Proof.
  induction n as [|n IH]; intros seq rb rn m.
  - exists rn. split; [reflexivity|]. right. split; [constructor|reflexivity].
  - change (RotatingFileSink.probe (S n) seq rb rn m)
      with (bind (file_exists (rb +:+ "." +:+ Str.to_string seq))
              (fun taken => if negb taken then ret (rb +:+ "." +:+ Str.to_string seq)
                            else RotatingFileSink.probe n (S seq) rb
                                   (rb +:+ "." +:+ Str.to_string seq)) m).
    rewrite (bind_ok _ _ _ _ _ (file_exists_spec _ m)).
    change (probe_names rb seq (S n))
      with ((rb +:+ "." +:+ Str.to_string seq) :: probe_names rb (S seq) n).
    set (name0 := rb +:+ "." +:+ Str.to_string seq).
    destruct (presentb (os m) name0) eqn:P; simpl negb; cbv iota.
    + apply presentb_true in P.
      destruct (IH (S seq) rb name0 m) as (name & E & [(pre & post & N & A & B)|[A B]]).
      * exists name. split; [exact E|]. left. exists (name0 :: pre), post.
        split; [by rewrite N|]. split; [by constructor|done].
      * exists name. split; [exact E|]. right. split; [by constructor|].
        rewrite B. destruct (probe_names rb (S seq) n) as [|x l]; [reflexivity|].
        change (List.last (name0 :: x :: l) rn) with (List.last (x :: l) rn).
        apply last_cons_default.
    + apply presentb_false in P. exists name0. split; [reflexivity|].
      left. exists [], (probe_names rb (S seq) n). split; [reflexivity|].
      split; [constructor|done].
Qed.

Lemma unique_rotated_name_spec rb m r m' :
  RotatingFileSink.unique_rotated_name rb m = (r, m') ->
  m' = m
  /\ ((exists name pre post, r = Ok name
         /\ rotation_candidates rb = (pre ++ name :: post)%list
         /\ Forall (present (os m)) pre /\ ~ present (os m) name)
      \/ (r = Throw (runtime_error
                "RotatingFileSink: unable to find unique rotated filename")
          /\ Forall (present (os m)) (rotation_candidates rb))).
Proof.
  unfold RotatingFileSink.unique_rotated_name.
  rewrite (bind_ok _ _ _ _ _ (file_exists_spec _ m)).
  destruct (presentb (os m) rb) eqn:P.
  - apply presentb_true in P.
    destruct (probe_spec 9999 1 rb rb m) as (name & E & D).
    rewrite (bind_ok _ _ _ _ _ E).
    rewrite (bind_ok _ _ _ _ _ (file_exists_spec _ m)).
    change (rotation_candidates rb) with (rb :: probe_names rb 1 9999).
    destruct D as [(pre & post & N & A & B)|[A B]].
    + apply presentb_false in B. rewrite B. intros [= <- <-]. split; [done|].
      left. exists name, (rb :: pre), post. apply presentb_false in B.
      split; [done|]. split; [by rewrite N|]. split; [by constructor|done].
    + assert (present (os m) name) as Pn.
      { rewrite B. apply Forall_last. by constructor. }
      apply presentb_true in Pn. rewrite Pn. intros [= <- <-]. split; [done|].
      right. split; [done|]. by constructor.
  - intros [= <- <-]. split; [done|]. apply presentb_false in P.
    left. exists rb, [], (probe_names rb 1 9999). split; [done|].
    split; [reflexivity|]. split; [constructor|done].
Qed.

Lemma rename_or_throw_spec from to m r m' :
  rename_or_throw from to m = (r, m') ->
  this m' = this m /\ utc_now (os m') = utc_now (os m)
  /\ (r = Ok tt ->
      exists n, files (os m) !! Fs.resolve from = Some n
        /\ ((Fs.resolve from = Fs.resolve to /\ files (os m') = files (os m))
            \/ (Fs.resolve from <> Fs.resolve to
                /\ files (os m')
                   = <[Fs.resolve to := n]> (delete (Fs.resolve from) (files (os m))))))
  /\ (r <> Ok tt ->
      files (os m') = files (os m)
      /\ r = Throw (runtime_error "RotatingFileSink rename failed")).
Proof.
  unfold rename_or_throw, Libc.rename. intros H.
  apply bind_inv in H as [(b & m1 & E & H)|(e & E & _)].
  - apply bind_inv in E as [(o & m2 & E2 & E)|(e & E2 & _)].
    2:{ apply next_outcome_frame in E2 as ((? & [=]) & _). }
    apply next_outcome_frame in E2 as (_ & T2 & F2 & U2).
    rewrite <- T2, <- F2, <- U2. clear T2 F2 U2 m. 
    destruct o as [|p].
    2:{ injection E as <- <-. injection H as <- <-. done. }
    unfold_m. destruct (files (os m2) !! Fs.resolve from) as [n|] eqn:Ef.
    2:{ injection E as <- <-. injection H as <- <-. done. }
    destruct (decide (Fs.resolve from = Fs.resolve to)) as [Eq|Ne].
    { injection E as <- <-. injection H as <- <-. repeat split; try done.
      intros _. eauto. }
    destruct n as [c|], (files (os m2) !! Fs.resolve to) as [[c'|]|];
      injection E as <- <-; injection H as <- <-; simpl;
      (split; [done|]); (split; [done|]); (split; [|done]); try done;
      intros _; eexists; (split; [reflexivity|]); right; done.
  - apply bind_inv in E as [(o & m2 & E2 & E)|(e' & E2 & _)].
    2:{ apply next_outcome_frame in E2 as ((? & [=]) & _). }
    exfalso. destruct o; [|discriminate]. unfold_m.
    destruct (files (os m2) !! Fs.resolve from) as [n|]; [|discriminate].
    destruct (decide (Fs.resolve from = Fs.resolve to)); [discriminate|].
    destruct n, (files (os m2) !! Fs.resolve to) as [[|]|]; discriminate.
Qed.

Lemma file_size_or_zero_spec f m r m1 :
  file_size_or_zero f m = (r, m1) ->
  this m1 = this m /\ files (os m1) = files (os m)
  /\ utc_now (os m1) = utc_now (os m)
  /\ exists z, r = Ok z
       /\ (z = 0%Z \/ exists h c, f = Some h
            /\ files (os m) !! h = Some (RegularFile c) /\ z = Str.size c
            /\ (z < 2 ^ 63)%Z).
Proof.
  destruct f as [h|]; unfold file_size_or_zero.
  2:{ intros [= <- <-]. repeat split; try done. eauto. }
  intros H. apply bind_inv in H as [(b & m2 & E & H)|(e & E & _)].
  2:{ apply (flag_call_spec _ _ _ _ eq_refl) in E as ((b' & [=] & _) & _). }
  apply (flag_call_spec _ _ _ _ eq_refl) in E as (_ & T & F & U & _).
  destruct b; simpl in H.
  2:{ injection H as <- <-. repeat split; try done. eauto. }
  unfold Libc.ftell in H.
  apply bind_inv in H as [(z & m3 & E3 & H)|(e & E3 & _)].
  - apply bind_inv in E3 as [(o & m4 & E4 & E3)|(e & E4 & _)].
    2:{ apply next_outcome_frame in E4 as ((? & [=]) & _). }
    apply next_outcome_frame in E4 as (_ & T4 & F4 & U4).
    unfold_m. 
    assert (m3 = m4 /\ (z = (-1)%Z \/ exists c, files (os m4) !! h = Some (RegularFile c)
                          /\ z = Str.size c /\ (z < 2 ^ 63)%Z)) as [-> Z].
    { destruct o; [|by injection E3 as <- <-; auto].
      destruct (files (os m4) !! h) as [[c|]|] eqn:L; try (by injection E3 as <- <-; auto).
      destruct (Str.size c <? 2 ^ 63)%Z eqn:B; injection E3 as <- <-; [|by auto].
      split; [done|]. right. exists c. apply Z.ltb_lt in B. done. }
    destruct (z <? 0)%Z eqn:N; injection H as <- <-.
    + split; [congruence|]. split; [congruence|]. split; [congruence|]. eauto.
    + split; [congruence|]. split; [congruence|]. split; [congruence|].
      apply Z.ltb_ge in N. destruct Z as [->|(c & L & -> & B)]; [lia|].
      eexists. split; [reflexivity|]. right. exists h, c.
      rewrite F4, F in L. split; [done|]. split; [done|].
      unfold wrap64. rewrite Z.mod_small; [done|]. unfold Str.size in *. lia.
  - apply bind_inv in E3 as [(o & m4 & E4 & E3)|(e' & E4 & _)].
    2:{ apply next_outcome_frame in E4 as ((? & [=]) & _). }
    unfold_m. destruct o; [|discriminate].
    destruct (files (os m4) !! h) as [[c|]|]; try discriminate.
    destruct (Str.size c <? 2 ^ 63)%Z; discriminate.
Qed.

Lemma fopen_a_spec p m r m1 :
  Libc.fopen_a p m = (r, m1) ->
  this m1 = this m /\ utc_now (os m1) = utc_now (os m)
  /\ exists f, r = Ok f
       /\ match f with
          | None => files (os m1) = files (os m)
          | Some h =>
              h = Fs.resolve p
              /\ ((exists c, files (os m) !! h = Some (RegularFile c)
                     /\ files (os m1) = files (os m))
                  \/ (files (os m) !! h = None
                      /\ files (os m1) = <[h := RegularFile EmptyString]> (files (os m))))
          end.
Proof.
  unfold Libc.fopen_a. intros H.
  apply bind_inv in H as [(o & m2 & E2 & H)|(e & E2 & _)].
  2:{ apply next_outcome_frame in E2 as ((? & [=]) & _). }
  apply next_outcome_frame in E2 as (_ & T2 & F2 & U2).
  rewrite <- T2, <- F2, <- U2. clear T2 F2 U2 m.
  destruct o as [|q].
  2:{ injection H as <- <-. repeat split; try done. by exists None. }
  unfold_m. destruct (files (os m2) !! Fs.resolve p) as [[c|]|] eqn:L;
    injection H as <- <-; simpl; (split; [done|]); (split; [done|]).
  - exists (Some (Fs.resolve p)). split; [done|]. split; [done|]. left. eauto.
  - by exists None.
  - exists (Some (Fs.resolve p)). split; [done|]. split; [done|]. right. done.
Qed.

Lemma open_locked_or_throw_spec m r m' :
  FileSink.open_locked_or_throw m = (r, m') ->
  let k := Fs.resolve (path_ (this m)) in
  utc_now (os m') = utc_now (os m)
  /\ path_ (this m') = path_ (this m)
  /\ same_settings (this m) (this m')
  /\ (forall j, j <> k -> files (os m') !! j = files (os m) !! j)
  /\ (forall n, files (os m) !! k = Some n -> files (os m') = files (os m))
  /\ (r = Ok tt ->
      file_ (this m') = Some k
      /\ exists c, files (os m') !! k = Some (RegularFile c)
           /\ (files (os m) !! k = None -> c = EmptyString)
           /\ (bytes_written_ (this m') = 0%Z
               \/ (bytes_written_ (this m') = Str.size c
                   /\ (Str.size c < 2 ^ 63)%Z)))
  /\ (r <> Ok tt -> file_ (this m') = None /\ files (os m') = files (os m)).
Proof.
  intros H k. unfold FileSink.open_locked_or_throw in H.
  apply bind_inv in H as [(s & m0 & E0 & H)|(e & E0 & _)]; [|discriminate].
  injection E0 as <- <-.
  apply bind_inv in H as [(f & m1 & E1 & H)|(e & E1 & _)].
  2:{ apply fopen_a_spec in E1 as (_ & _ & f & [=] & _). }
  apply fopen_a_spec in E1 as (T1 & U1 & f' & [= <-] & Ff).
  apply bind_inv in H as [([] & m2 & E2 & H)|(e & E2 & _)]; [|discriminate].
  unfold_m. injection E2 as <-.
  destruct f as [h|].
  - destruct Ff as [-> Ff]. fold k in Ff.
    apply bind_inv in H as [(z & m3 & E3 & H)|(e & E3 & _)].
    2:{ apply file_size_or_zero_spec in E3 as (_ & _ & _ & z & [=] & _). }
    apply file_size_or_zero_spec in E3 as (T3 & F3 & U3 & z' & [= <-] & Z).
    simpl in *. unfold_m. injection H as <- <-. simpl. rewrite T3. simpl.
    rewrite T1, F3, U3, U1.
    assert (forall j, j <> k -> files (os m1) !! j = files (os m) !! j) as Oth.
    { intros j Hj. destruct Ff as [(c & L & ->)|[L ->]]; [done|].
      by rewrite lookup_insert_ne. }
    assert (forall n, files (os m) !! k = Some n -> files (os m1) = files (os m)) as Same.
    { intros n Hn. destruct Ff as [(c & L & ->)|[L ->]]; [done|congruence]. }
    assert (exists c, files (os m1) !! k = Some (RegularFile c)
                      /\ (files (os m) !! k = None -> c = EmptyString)) as (c & Lc & Cn).
    { destruct Ff as [(c & L & ->)|[L ->]].
      - exists c. split; [done|]. congruence.
      - exists EmptyString. by rewrite lookup_insert_eq. }
    refine (conj eq_refl (conj eq_refl (conj _ (conj Oth (conj Same (conj _ _))))));
      [done| |done].
    intros _. split; [done|]. exists c. split; [done|]. split; [done|].
    destruct Z as [->|(h & c' & [= <-] & L' & -> & B)]; [by left|].
    right. pose proof (eq_trans (eq_sym L') Lc) as [= ->]. done.
  - simpl in *. injection H as <- <-. simpl. rewrite T1, Ff, U1.
    refine (conj eq_refl (conj eq_refl (conj _ (conj _ (conj _ (conj _ _)))))); done.
Qed.

Lemma reopen_locked_spec p m r m' :
  file_ (this m) = None \/ buffered (os m) = 0 ->
  FileSink.reopen_locked p m = (r, m') ->
  let k := Fs.resolve p in
  utc_now (os m') = utc_now (os m)
  /\ path_ (this m') = p
  /\ same_settings (this m) (this m')
  /\ (forall j, j <> k -> files (os m') !! j = files (os m) !! j)
  /\ (forall n, files (os m) !! k = Some n -> files (os m') = files (os m))
  /\ (r = Ok tt ->
      file_ (this m') = Some k
      /\ exists c, files (os m') !! k = Some (RegularFile c)
           /\ (files (os m) !! k = None -> c = EmptyString)
           /\ (bytes_written_ (this m') = 0%Z
               \/ (bytes_written_ (this m') = Str.size c
                   /\ (Str.size c < 2 ^ 63)%Z)))
  /\ (r <> Ok tt -> file_ (this m') = None /\ files (os m') = files (os m)).
Proof.
  intros Cl H. unfold FileSink.reopen_locked in H.
  rewrite (bind_ok _ _ _ _ _ (close_locked_noexcept_spec m Cl)) in H.
  apply bind_inv in H as [([] & m1 & E1 & H)|(e & E1 & _)]; [|discriminate].
  unfold_m. injection E1 as <-.
  apply open_locked_or_throw_spec in H. simpl in H. exact H.
Qed.

Lemma fopen_a_buffered p m k m1 :
  Libc.fopen_a p m = (Ok (Some k), m1) -> buffered (os m1) = 0.
Proof.
  unfold Libc.fopen_a. intros H.
  apply bind_inv in H as [(o & m2 & E2 & H)|(e & E2 & [=])].
  destruct o as [|q]; [|discriminate].
  unfold_m. destruct (files (os m2) !! Fs.resolve p) as [[c|]|];
    try discriminate; by injection H as _ <-.
Qed.

Lemma file_size_or_zero_buffered f m r m1 :
  file_size_or_zero f m = (r, m1) -> buffered (os m1) = buffered (os m).
Proof.
  destruct f as [h|]; unfold file_size_or_zero; [|by intros [= <- <-]].
  intros H. apply bind_inv in H as [(b & m2 & E & H)|(e & E & _)].
  2:{ apply (flag_call_spec _ _ _ _ eq_refl) in E as ((b' & [=] & _) & _). }
  pose proof (flag_call_buffered _ _ _ _ eq_refl E) as B.
  destruct b; simpl in H; [|by injection H as <- <-].
  unfold Libc.ftell in H.
  apply bind_inv in H as [(z & m3 & E3 & H)|(e & E3 & _)].
  - apply bind_inv in E3 as [(o & m4 & E4 & E3)|(e & E4 & _)].
    2:{ apply next_outcome_frame in E4 as ((? & [=]) & _). }
    apply next_outcome_buffered in E4. unfold_m.
    assert (m3 = m4) as ->.
    { destruct o; [|by injection E3 as <- <-].
      destruct (files (os m4) !! h) as [[c|]|]; try (by injection E3 as <- <-).
      destruct (Str.size c <? 2 ^ 63)%Z; by injection E3 as <- <-. }
    destruct (z <? 0)%Z; injection H as <- <-; congruence.
  - apply bind_inv in E3 as [(o & m4 & E4 & E3)|(e' & E4 & _)].
    2:{ apply next_outcome_frame in E4 as ((? & [=]) & _). }
    unfold_m. destruct o; [|discriminate].
    destruct (files (os m4) !! h) as [[c|]|]; try discriminate.
    destruct (Str.size c <? 2 ^ 63)%Z; discriminate.
Qed.

Lemma open_locked_or_throw_buffered m m' :
  FileSink.open_locked_or_throw m = (Ok tt, m') -> buffered (os m') = 0.
Proof.
  intros H. unfold FileSink.open_locked_or_throw in H.
  apply bind_inv in H as [(s & m0 & E0 & H)|(e & E0 & _)]; [|discriminate].
  injection E0 as <- <-.
  apply bind_inv in H as [(f & m1 & E1 & H)|(e & E1 & [=])].
  apply bind_inv in H as [([] & m2 & E2 & H)|(e & E2 & _)]; [|discriminate].
  unfold set_file_, bind, get_this, put_this in E2. injection E2 as <-.
  destruct f as [h|]; [|discriminate]. cbv beta iota in H.
  apply fopen_a_buffered in E1.
  apply bind_inv in H as [(z & m3 & E3 & H)|(e & E3 & [=])].
  apply file_size_or_zero_buffered in E3. simpl in E3.
  unfold_m. injection H as <-. simpl. congruence.
Qed.

Lemma reopen_locked_buffered p m m' :
  file_ (this m) = None \/ buffered (os m) = 0 ->
  FileSink.reopen_locked p m = (Ok tt, m') -> buffered (os m') = 0.
Proof.
  intros Cl H. unfold FileSink.reopen_locked in H.
  rewrite (bind_ok _ _ _ _ _ (close_locked_noexcept_spec m Cl)) in H.
  apply bind_inv in H as [([] & m1 & E1 & H)|(e & E1 & _)]; [|discriminate].
  by apply open_locked_or_throw_buffered in H.
Qed.

(** ** The order of the candidates and [std::sort] *)

Lemma string_compare_refl s : String.compare s s = Eq.
Proof.
  destruct (String.compare s s) eqn:E; [done| |];
    pose proof (String.compare_antisym s s) as A; rewrite E in A; discriminate.
Qed.

Lemma string_compare_lt_trans a b c :
  String.compare a b = Lt -> String.compare b c = Lt -> String.compare a c = Lt.
Proof.
  intros H1 H2. apply String_as_OT.cmp_lt. apply String_as_OT.cmp_lt in H1, H2.
  by apply (String_as_OT.lt_trans a b c).
Qed.

Lemma string_eqb_compare a b :
  String.eqb a b = match String.compare a b with Eq => true | _ => false end.
Proof.
  destruct (String.eqb_spec a b) as [->|N].
  - by rewrite string_compare_refl.
  - destruct (String.compare a b) eqn:E; try done.
    by apply String.compare_eq_iff in E.
Qed.

Lemma candidate_less_true a b :
  RotatingFileSink.candidate_less a b = true <-> key_lt a b.
Proof.
  unfold RotatingFileSink.candidate_less, key_lt, String.ltb.
  rewrite string_eqb_compare.
  destruct (String.compare (RotatingFileSink.ts a) (RotatingFileSink.ts b)) eqn:E; simpl.
  - apply String.compare_eq_iff in E. rewrite Z.ltb_lt. split.
    + intros H. by right.
    + intros [H|[_ H]]; [discriminate|done].
  - split; [by left|done].
  - split; [done|]. intros [H|[H _]]; [discriminate|].
    rewrite H, string_compare_refl in E. discriminate.
Qed.

Lemma key_lt_le a b : key_lt a b -> key_le a b.
Proof. unfold key_lt, key_le. intros [H|[H1 H2]]; [by left|right]. split; [done|lia]. Qed.

Lemma not_key_lt_le a b : ~ key_lt a b -> key_le b a.
Proof.
  unfold key_lt, key_le. intros N.
  destruct (String.compare (RotatingFileSink.ts a) (RotatingFileSink.ts b)) eqn:E.
  - apply String.compare_eq_iff in E. right. split; [done|].
    destruct (Z_lt_le_dec (RotatingFileSink.seq a) (RotatingFileSink.seq b)); [|done].
    exfalso. apply N. by right.
  - exfalso. apply N. by left.
  - left. rewrite String.compare_antisym, E. reflexivity.
Qed.

Lemma key_le_not_lt a b : key_le a b -> ~ key_lt b a.
Proof.
  unfold key_lt, key_le. intros [H|[H1 H2]] [K|[K1 K2]].
  - rewrite String.compare_antisym, H in K. discriminate.
  - rewrite K1, string_compare_refl in H. discriminate.
  - rewrite H1, string_compare_refl in K. discriminate.
  - lia.
Qed.

Lemma key_le_trans a b c : key_le a b -> key_le b c -> key_le a c.
Proof.
  unfold key_le. intros [H|[H1 H2]] [K|[K1 K2]].
  - left. by apply (string_compare_lt_trans _ _ _ H K).
  - left. by rewrite <- K1.
  - left. by rewrite H1.
  - right. split; [congruence|lia].
Qed.

Lemma key_le_total a b : key_le a b \/ key_le b a.
Proof.
  destruct (RotatingFileSink.candidate_less a b) eqn:E.
  - left. by apply key_lt_le, candidate_less_true.
  - right. apply not_key_lt_le. intros H. apply candidate_less_true in H. congruence.
Qed.

Lemma sort_insert_perm x l : RotatingFileSink.sort_insert x l ≡ₚ x :: l.
Proof.
  induction l as [|y l IH]; simpl; [done|].
  destruct (RotatingFileSink.candidate_less y x); [|done].
  rewrite IH. apply Permutation_swap.
Qed.

Lemma std_sort_perm l : RotatingFileSink.std_sort l ≡ₚ l.
Proof.
  induction l as [|x l IH]; simpl; [done|].
  rewrite sort_insert_perm. by rewrite IH.
Qed.

Lemma sort_insert_sorted x l :
  StronglySorted key_le l -> StronglySorted key_le (RotatingFileSink.sort_insert x l).
Proof.
  induction l as [|y l IH]; intros S; simpl.
  - repeat constructor.
  - inversion S as [|? ? Sl Fy]; subst.
    destruct (RotatingFileSink.candidate_less y x) eqn:E.
    + constructor; [by apply IH|].
      rewrite sort_insert_perm. constructor; [|done].
      by apply key_lt_le, candidate_less_true.
    + assert (key_le x y) as Hxy.
      { apply not_key_lt_le. intros H. apply candidate_less_true in H. congruence. }
      constructor; [done|]. constructor; [done|].
      eapply Forall_impl; [exact Fy|]. intros z Hz. by apply (key_le_trans x y z).
Qed.

Lemma std_sort_sorted l : StronglySorted key_le (RotatingFileSink.std_sort l).
Proof.
  induction l as [|x l IH]; simpl; [constructor|]. by apply sort_insert_sorted.
Qed.

(** ** The candidate set *)

Lemma elem_of_collect_candidates b es c :
  c ∈ RotatingFileSink.collect_candidates b es <->
  exists content, (RotatingFileSink.path c, RegularFile content) ∈ es
    /\ RotatingFileSink.parse_rotation_suffix (snd (RotatingFileSink.path c)) b
       = Some (RotatingFileSink.ts c, RotatingFileSink.seq c).
Proof.
  induction es as [|[p node] es IH]; simpl.
  - split; [by intros H; inversion H|]. intros (? & H & _). inversion H.
  - destruct node as [content|].
    + destruct (RotatingFileSink.parse_rotation_suffix (snd p) b) as [[t q]|] eqn:P.
      * rewrite elem_of_cons, IH. split.
        -- intros [->|(content' & H & Q)].
           ++ exists content. simpl. split; [by left|done].
           ++ exists content'. split; [by right|done].
        -- intros (content' & H & Q). apply elem_of_cons in H as [[= E1 E2]|H].
           ++ left. destruct c as [cp ct cq]; simpl in *. subst. rewrite P in Q.
              by injection Q as <- <-.
           ++ right. eauto.
      * rewrite IH. split.
        -- intros (content' & H & Q). exists content'. split; [by right|done].
        -- intros (content' & H & Q). apply elem_of_cons in H as [[= E1 E2]|H].
           ++ subst. rewrite P in Q. discriminate.
           ++ eauto.
    + rewrite IH. split.
      * intros (content' & H & Q). exists content'. split; [by right|done].
      * intros (content' & H & Q). apply elem_of_cons in H as [[=]|H]. eauto.
Qed.

Lemma elem_of_candidates_of s w c :
  c ∈ candidates_of s w <->
  fst (RotatingFileSink.path c) = Fs.dir_of (base_path_ s)
  /\ exists content, files w !! RotatingFileSink.path c = Some (RegularFile content)
       /\ RotatingFileSink.parse_rotation_suffix (snd (RotatingFileSink.path c))
            (Fs.filename (base_path_ s))
          = Some (RotatingFileSink.ts c, RotatingFileSink.seq c).
Proof.
  unfold candidates_of. rewrite elem_of_collect_candidates. split.
  - intros (content & H & Q). apply list_elem_of_In, filter_In in H as [H D].
    apply list_elem_of_In, elem_of_map_to_list in H. simpl in D.
    apply String.eqb_eq in D. eauto.
  - intros (D & content & H & Q). exists content. split; [|done].
    apply list_elem_of_In, filter_In. split.
    + by apply list_elem_of_In, elem_of_map_to_list.
    + simpl. by apply String.eqb_eq.
Qed.

Lemma collect_candidates_paths b es p :
  p ∈ List.map RotatingFileSink.path (RotatingFileSink.collect_candidates b es) ->
  p ∈ es.*1.
Proof.
  intros H. apply list_elem_of_In, in_map_iff in H as (c & <- & H).
  apply list_elem_of_In, elem_of_collect_candidates in H as (content & H & _).
  apply list_elem_of_fmap. by exists (RotatingFileSink.path c, RegularFile content).
Qed.

Lemma NoDup_collect_candidates b es :
  NoDup es.*1 ->
  NoDup (List.map RotatingFileSink.path (RotatingFileSink.collect_candidates b es)).
Proof.
  induction es as [|[p node] es IH]; intros N; simpl; [constructor|].
  inversion N as [|? ? Np Nes]; subst.
  destruct node as [content|]; [|by apply IH].
  destruct (RotatingFileSink.parse_rotation_suffix (snd p) b) as [[t q]|]; [|by apply IH].
  simpl. constructor; [|by apply IH].
  intros H. apply Np. by apply collect_candidates_paths in H.
Qed.

Lemma NoDup_filter_fst {A B} (f : A * B -> bool) (l : list (A * B)) :
  NoDup l.*1 -> NoDup (List.filter f l).*1.
Proof.
  induction l as [|x l IH]; intros N; simpl; [constructor|].
  inversion N as [|? ? Nx Nl]; subst.
  destruct (f x); simpl; [|by apply IH].
  constructor; [|by apply IH]. intros H. apply Nx.
  apply list_elem_of_fmap in H as (y & -> & H). apply list_elem_of_fmap. exists y.
  split; [done|]. apply list_elem_of_In, filter_In in H as [H _].
  by apply list_elem_of_In.
Qed.

Lemma NoDup_candidates_paths s w :
  NoDup (List.map RotatingFileSink.path (candidates_of s w)).
Proof.
  apply NoDup_collect_candidates, NoDup_filter_fst, NoDup_fst_map_to_list.
Qed.

Lemma NoDup_candidates_of s w : NoDup (candidates_of s w).
Proof. eapply (NoDup_fmap_1 RotatingFileSink.path), NoDup_candidates_paths. Qed.

(** a name the convention rejects is no candidate *)
Lemma candidates_of_accepted s w c :
  c ∈ candidates_of s w ->
  RotatingFileSink.parse_rotation_suffix (snd (RotatingFileSink.path c))
    (Fs.filename (base_path_ s)) <> None.
Proof. intros H. apply elem_of_candidates_of in H as (_ & ? & _ & ->). done. Qed.

(** ** Pruning *)

Lemma remove_spec p m :
  exists m', Libc.remove p m = (Ok tt, m')
    /\ this m' = this m /\ utc_now (os m') = utc_now (os m)
    /\ (files (os m') = files (os m) \/ files (os m') = delete p (files (os m)))
    /\ (forall k, quiet (S k) (os m) ->
          files (os m') = delete p (files (os m)) /\ quiet k (os m')).
Proof.
  unfold Libc.remove.
  destruct (next_outcome_spec m) as (o & m1 & E & T & F & U & _).
  rewrite (bind_ok _ _ _ _ _ E).
  destruct o as [|q].
  - unfold_m. eexists. split; [reflexivity|]. simpl. rewrite F.
    refine (conj T (conj U (conj _ _))); [by right|].
    intros k Q. split; [done|]. by destruct (next_outcome_quiet _ _ _ _ E Q).
  - exists m1. split; [reflexivity|]. rewrite F.
    refine (conj T (conj U (conj _ _))); [by left|].
    intros k Q. by destruct (next_outcome_quiet _ _ _ _ E Q).
Qed.

Lemma remove_each_spec doomed : forall m,
  exists m', RotatingFileSink.remove_each doomed m = (Ok tt, m')
    /\ this m' = this m /\ utc_now (os m') = utc_now (os m)
    /\ (forall k, files (os m') !! k = files (os m) !! k
                  \/ (files (os m') !! k = None
                      /\ k ∈ List.map RotatingFileSink.path doomed))
    /\ (quiet (length doomed) (os m) ->
        forall k, files (os m') !! k
                  = if decide (k ∈ List.map RotatingFileSink.path doomed)
                    then None else files (os m) !! k).
Proof.
  induction doomed as [|c doomed IH]; intros m.
  - exists m. split; [reflexivity|]. refine (conj eq_refl (conj eq_refl (conj _ _))).
    + intros k. by left.
    + intros _ k. rewrite decide_False; [done|]. simpl. intros H. inversion H.
  - simpl RotatingFileSink.remove_each.
    destruct (remove_spec (RotatingFileSink.path c) m) as (m1 & E1 & T1 & U1 & F1 & Q1).
    rewrite (bind_ok _ _ _ _ _ E1).
    destruct (IH m1) as (m' & E & T & U & F & Q).
    exists m'. split; [exact E|].
    refine (conj _ (conj _ (conj _ _))); [congruence|congruence| |].
    + intros k. destruct (F k) as [Fk|[Fk Ik]].
      * rewrite Fk. destruct F1 as [->| ->]; [by left|].
        destruct (decide (k = RotatingFileSink.path c)) as [->|N].
        -- right. rewrite lookup_delete_eq. split; [done|]. simpl. by left.
        -- left. by rewrite lookup_delete_ne.
      * right. split; [done|]. simpl. by right.
    + intros Qm k. simpl in Qm. destruct (Q1 _ Qm) as [F1' Q1'].
      rewrite (Q Q1' k), F1'. simpl.
      destruct (decide (k ∈ List.map RotatingFileSink.path doomed)) as [I|NI].
      * rewrite decide_True; [done|by right].
      * destruct (decide (k = RotatingFileSink.path c)) as [->|N].
        -- rewrite decide_True; [|by left]. by rewrite lookup_delete_eq.
        -- rewrite decide_False; [by rewrite lookup_delete_ne|].
           intros H. apply elem_of_cons in H as [H|H]; done.
Qed.

Lemma directory_iterator_spec dir m :
  exists r m1, Libc.directory_iterator dir m = (Ok r, m1)
    /\ this m1 = this m /\ files (os m1) = files (os m)
    /\ utc_now (os m1) = utc_now (os m)
    /\ (r = None
        \/ r = Some (List.filter (fun e => String.eqb (fst (fst e)) dir)
                       (map_to_list (files (os m)))))
    /\ (forall k, quiet (S k) (os m) -> r <> None /\ quiet k (os m1)).
Proof.
  unfold Libc.directory_iterator.
  destruct (next_outcome_spec m) as (o & m1 & E & T & F & U & _).
  rewrite (bind_ok _ _ _ _ _ E).
  destruct o as [|q].
  - unfold_m. eexists _, m1. split; [reflexivity|]. rewrite F.
    refine (conj T (conj eq_refl (conj U (conj _ _)))); [by right|].
    intros k Q. split; [done|]. by destruct (next_outcome_quiet _ _ _ _ E Q).
  - exists None, m1. split; [reflexivity|].
    refine (conj T (conj F (conj U (conj _ _)))); [by left|].
    intros k Q. by destruct (next_outcome_quiet _ _ _ _ E Q).
Qed.

Lemma prune_old_rotations_locked_spec m :
  exists m', RotatingFileSink.prune_old_rotations_locked m = (Ok tt, m')
    /\ this m' = this m /\ utc_now (os m') = utc_now (os m)
    /\ (forall k, files (os m') !! k = files (os m) !! k
                  \/ (files (os m') !! k = None
                      /\ max_rotated_files_ (this m) <> 0%Z
                      /\ k ∈ List.map RotatingFileSink.path (doomed_of m)))
    /\ (max_rotated_files_ (this m) = 0%Z -> m' = m)
    /\ (max_rotated_files_ (this m) <> 0%Z ->
        (max_rotated_files_ (this m)
         < Z.of_nat (length (candidates_of (this m) (os m))))%Z ->
        quiet (S (length (doomed_of m))) (os m) ->
        forall k, files (os m') !! k
                  = if decide (k ∈ List.map RotatingFileSink.path (doomed_of m))
                    then None else files (os m) !! k).
Proof.
  unfold RotatingFileSink.prune_old_rotations_locked.
  rewrite (bind_ok get_this _ m (this m) m eq_refl).
  destruct (max_rotated_files_ (this m) =? 0)%Z eqn:L0.
  { apply Z.eqb_eq in L0. exists m. split; [reflexivity|].
    refine (conj eq_refl (conj eq_refl (conj _ (conj _ _)))); try done.
    intros k. by left. }
  apply Z.eqb_neq in L0. unfold try_catch_all.
  destruct (directory_iterator_spec (Fs.dir_of (base_path_ (this m))) m)
    as (r & m1 & E1 & T1 & F1 & U1 & R1 & Q1).
  rewrite (bind_ok _ _ _ _ _ E1).
  destruct r as [es|].
  2:{ exists m1. split; [reflexivity|]. simpl. rewrite F1.
      refine (conj T1 (conj U1 (conj _ (conj _ _)))); try done.
      - intros k. by left.
      - intros _ _ Q. by destruct (Q1 _ Q). }
  destruct R1 as [|[= ->]]; [done|].
  fold (candidates_of (this m) (os m)).
  destruct (Z.of_nat (length (candidates_of (this m) (os m)))
            <=? max_rotated_files_ (this m))%Z eqn:Le.
  { exists m1. split; [reflexivity|]. simpl. rewrite F1.
    refine (conj T1 (conj U1 (conj _ (conj _ _)))); try done.
    - intros k. by left.
    - intros _ Lt. apply Z.leb_le in Le. lia. }
  fold (doomed_of m).
  destruct (remove_each_spec (doomed_of m) m1) as (m' & E & T & U & F & Q).
  exists m'. rewrite E. split; [reflexivity|]. simpl.
  refine (conj _ (conj _ (conj _ (conj _ _)))); try congruence.
  - intros k. destruct (F k) as [Fk|[Fk Ik]]; [left; congruence|right; done].
  - intros _ _ Qm k. destruct (Q1 _ Qm) as [_ Q1']. rewrite (Q Q1' k), F1. done.
Qed.

(** ** [rotate_locked], case by case *)

Lemma incr_rotations_performed_spec m :
  incr_rotations_performed m
  = (Ok tt, mkMachine
      (mkSink (path_ (this m)) (durable_flush_ (this m)) (file_ (this m))
         (bytes_written_ (this m)) (base_path_ (this m)) (max_bytes_ (this m))
         (wrap64 (rotations_performed_ (this m) + 1)) (max_rotated_files_ (this m)))
      (os m)).
Proof. reflexivity. Qed.

Lemma world_eta w : mkWorld (files w) (buffered w) (faults w) (utc_now w) = w.
Proof. by destruct w. Qed.

Lemma rotate_locked_cases m r m' :
  RotatingFileSink.rotate_locked m = (r, m') ->
  let kb := base_key (this m) in
  utc_now (os m') = utc_now (os m) /\
  ( (* the flush fails *)
    ((exists e, r = Throw e) /\ FileSink.flush_locked m = (r, m')
     /\ this m' = this m
     /\ (forall k, file_ (this m) <> Some k ->
           files (os m') !! k = files (os m) !! k))
    \/ (file_ (this m) <> None /\
        ( (* no name is free *)
          (r = Throw (runtime_error
                 "RotatingFileSink: unable to find unique rotated filename")
           /\ this m' = closed (this m) /\ files (os m') = files (os m)
           /\ Forall (present (os m)) (rotation_candidates (rotated_base_of m)))
          \/ exists name pre post,
               rotation_candidates (rotated_base_of m) = (pre ++ name :: post)%list
               /\ Forall (present (os m)) pre /\ ~ present (os m) name
               /\ ( (* the rename fails *)
                    (r = Throw (runtime_error "RotatingFileSink rename failed")
                     /\ this m' = closed (this m) /\ files (os m') = files (os m))
                    \/ exists n, files (os m) !! kb = Some n
                         /\ kb <> Fs.resolve name
                         /\ ( (* the base file cannot be opened again *)
                              ((exists e, r = Throw e)
                               /\ file_ (this m') = None
                               /\ path_ (this m') = base_path_ (this m)
                               /\ same_settings (this m) (this m')
                               /\ files (os m')
                                  = <[Fs.resolve name := n]> (delete kb (files (os m))))
                              \/ (* the rotation succeeds; pruning follows *)
                              exists m2,
                                r = Ok tt
                                /\ this m2 = rotated (this m)
                                /\ utc_now (os m2) = utc_now (os m)
                                /\ files (os m2)
                                   = <[kb := RegularFile EmptyString]>
                                       (<[Fs.resolve name := n]>
                                          (delete kb (files (os m))))
                                /\ RotatingFileSink.prune_old_rotations_locked m2
                                   = (Ok tt, m')))))).
Proof.
  intros H kb. unfold RotatingFileSink.rotate_locked in H.
  apply bind_inv in H as [([] & m1 & E1 & H)|(e & E1 & ->)].
  2:{ pose proof (flush_locked_spec _ _ _ E1) as (T1 & F1 & U1 & _).
      split; [done|]. left. eauto. }
  pose proof (flush_locked_flushed _ _ _ E1) as (_ & B1 & F1 & _).
  apply flush_locked_spec in E1 as (T1 & _ & U1 & O1 & _). specialize (O1 eq_refl).
  specialize (B1 O1). specialize (F1 eq_refl).
  rewrite (bind_ok _ _ _ _ _ (close_locked_noexcept_spec m1 (or_intror B1))) in H.
  rewrite T1 in H.
  set (m2 := mkMachine (closed (this m)) (os m1)) in H.
  rewrite (bind_ok get_this _ m2 (this m2) m2 eq_refl) in H.
  rewrite (bind_ok _ _ _ _ _ (make_timestamp_utc_spec m2)) in H.
  assert (stamp_of (os m2) = stamp_of (os m)) as St
    by (unfold stamp_of; simpl; by rewrite U1).
  assert (forall p, present (os m2) p <-> present (os m) p) as Pr
    by (intros p; unfold present; simpl; by rewrite F1).
  simpl base_path_ in H. rewrite St in H. fold (rotated_base_of m) in H.
  apply bind_inv in H as [(name & m3 & E3 & H)|(e & E3 & ->)].
  2:{ apply unique_rotated_name_spec in E3 as [-> [(? & ? & ? & [=] & _)|[[= ->] A]]].
      split; [done|]. right. split; [done|]. left.
      split; [done|]. split; [done|]. split; [done|].
      eapply Forall_impl; [exact A|]. intros p. apply Pr. }
  apply unique_rotated_name_spec in E3
    as [-> [(name' & pre & post & [= <-] & N & A & B)|[[=] _]]].
  split.
  { apply bind_inv in H as [([] & m4 & E4 & H)|(e & E4 & ->)].
    2:{ apply rename_or_throw_spec in E4 as (_ & U4 & _). by rewrite U4. }
    pose proof E4 as E4'.
    apply rename_or_throw_spec in E4 as (_ & U4 & _).
    apply bind_inv in H as [([] & m5 & E5 & H)|(e & E5 & ->)].
    2:{ apply reopen_locked_spec in E5 as (U5 & _);
          [simpl in *; congruence|].
        left. by rewrite (proj1 (rename_or_throw_spec _ _ _ _ _ E4')). }
    apply reopen_locked_spec in E5 as (U5 & _);
      [|left; by rewrite (proj1 (rename_or_throw_spec _ _ _ _ _ E4'))].
    rewrite (bind_ok _ _ _ _ _ (incr_rotations_performed_spec m5)) in H.
    match type of H with RotatingFileSink.prune_old_rotations_locked ?x = _ =>
      destruct (prune_old_rotations_locked_spec x) as (m6 & E6 & _ & U6 & _) end.
    rewrite E6 in H. injection H as <- <-. simpl in *. congruence. }
  right. split; [done|]. right. exists name, pre, post.
  split; [done|]. split; [eapply Forall_impl; [exact A|]; intros p; apply Pr|].
  split; [by rewrite <- Pr|].
  apply bind_inv in H as [([] & m4 & E4 & H)|(e & E4 & ->)].
  2:{ left. apply rename_or_throw_spec in E4 as (T4 & U4 & O4 & F4).
      assert (Throw e <> Ok ()) as Ne by done. destruct (F4 Ne) as [F4' R4].
      simpl in *. split; [done|]. split; [done|]. congruence. }
  right. apply rename_or_throw_spec in E4 as (T4 & U4 & O4 & _).
  destruct (O4 eq_refl) as (n & Ln & Mv). simpl in Ln. rewrite F1 in Ln.
  exists n. split; [exact Ln|].
  assert (kb <> Fs.resolve name) as Ne.
  { intros Eq. apply B. unfold present. simpl. rewrite F1, <- Eq. unfold kb, base_key.
    by rewrite Ln. }
  split; [exact Ne|].
  destruct Mv as [[Eq _]|[_ Mv]]; [done|]. simpl in Mv. rewrite F1 in Mv.
  fold (base_key (this m)) in Mv. fold kb in Mv.
  assert (file_ (this m4) = None \/ buffered (os m4) = 0) as Cl4
    by (left; by rewrite T4).
  apply bind_inv in H as [([] & m5 & E5 & H)|(e & E5 & ->)].
  2:{ left. apply (reopen_locked_spec _ _ _ _ Cl4) in E5
        as (U5 & P5 & S5 & _ & _ & _ & Fail).
      assert (Throw e <> Ok ()) as Ne' by done. destruct (Fail Ne') as [Fn Ff].
      split; [eauto|]. split; [done|]. split; [done|]. rewrite T4 in S5. simpl in S5.
      split; [exact S5|]. by rewrite Ff. }
  right. apply (reopen_locked_spec _ _ _ _ Cl4) in E5
    as (U5 & P5 & S5 & Oth & _ & Okc & _).
  destruct (Okc eq_refl) as (Fo & c & Lc & Cn & Bw).
  rewrite (bind_ok _ _ _ _ _ (incr_rotations_performed_spec m5)) in H.
  fold (base_key (this m)) in Fo, Lc, Cn, Oth. fold kb in Fo, Lc, Cn, Oth.
  assert (files (os m4) !! kb = None) as Gone.
  { rewrite Mv, lookup_insert_ne by done. apply lookup_delete_eq. }
  specialize (Cn Gone). subst c.
  assert (bytes_written_ (this m5) = 0%Z) as B0.
  { destruct Bw as [->|[-> _]]; reflexivity. }
  assert (r = Ok tt) as ->.
  { match type of H with RotatingFileSink.prune_old_rotations_locked ?x = _ =>
      destruct (prune_old_rotations_locked_spec x) as (m6 & E6 & _) end.
    rewrite E6 in H. by injection H as <- <-. }
  eexists. split; [done|]. split; [|split; [|split; [|exact H]]].
  - simpl. rewrite T4 in S5. simpl in S5.
    destruct S5 as (S1 & S2 & S3 & S4 & S6).
    unfold rotated. rewrite P5, S1, Fo, B0, S2, S3, S4, S6. reflexivity.
  - simpl. rewrite U5, U4. simpl. exact U1.
  - simpl. apply map_eq. intros j. destruct (decide (j = kb)) as [->|Nj].
    + by rewrite Lc, lookup_insert_eq.
    + rewrite (Oth j Nj), lookup_insert_ne by done. by rewrite Mv.
Qed.

(** ** Appending, flushing, and the names the pruner accepts *)

Lemma back_snoc body c : Str.back (body +:+ String c EmptyString) = Some c.
Proof.
  induction body as [|d body IH]; [reflexivity|].
  rewrite string_cons_app. simpl. rewrite IH.
  by destruct (body +:+ String c "").
Qed.

Lemma back_some line c :
  Str.back line = Some c -> exists body, line = body +:+ String c EmptyString.
Proof.
  induction line as [|d line IH]; [discriminate|].
  simpl. destruct line as [|d' line].
  - intros [= ->]. by exists EmptyString.
  - intros H. destruct (IH H) as (body & E). exists (String d body).
    rewrite string_cons_app. by rewrite <- E.
Qed.

Lemma lacks_newline_false line :
  lacks_newline line = false <-> ends_with_newline line.
Proof.
  unfold lacks_newline, ends_with_newline. split.
  - destruct (Str.back line) as [c|] eqn:B; [|discriminate].
    intros H. apply negb_false_iff, Ascii.eqb_eq in H. subst c. by apply back_some.
  - intros (body & ->). rewrite back_snoc. by rewrite Ascii.eqb_refl.
Qed.

Lemma wrap64_add_l a b : wrap64 (wrap64 a + b) = wrap64 (a + b).
Proof. unfold wrap64. by rewrite Z.add_mod_idemp_l. Qed.

Lemma wrap64_small z : (0 <= z < 2 ^ 64)%Z -> wrap64 z = z.
Proof. intros H. unfold wrap64. by apply Z.mod_small. Qed.

Lemma size_terminated line :
  Str.size (terminated line)
  = (Str.size line + (if lacks_newline line then 1 else 0))%Z.
Proof.
  unfold terminated, Str.size. destruct (lacks_newline line); [|lia].
  rewrite string_length_app. simpl. lia.
Qed.

(** C7: a successful [write_line_locked] hands the line to the file, followed
    by a newline exactly when the line does not end with one, and adds the
    number of bytes handed over (the length of the line, plus one for an
    added newline) to the byte counter, in 64-bit unsigned arithmetic. *)
Theorem C7_write_line_appends_and_counts line m m' h :
  file_ (this m) = Some h ->
  FileSink.write_line_locked line m = (Ok tt, m') ->
  files (os m') = alter (Libc.append_node (terminated line)) h (files (os m))
  /\ (forall content, files (os m) !! h = Some (RegularFile content) ->
        files (os m') !! h = Some (RegularFile (content +:+ terminated line)))
  /\ (ends_with_newline line -> terminated line = line)
  /\ (~ ends_with_newline line ->
        terminated line = line +:+ String newline EmptyString)
  /\ bytes_written_ (this m')
     = wrap64 (bytes_written_ (this m) + Str.size (terminated line))
  /\ ((0 <= bytes_written_ (this m))%Z ->
      (bytes_written_ (this m) + Str.size (terminated line) < 2 ^ 64)%Z ->
      bytes_written_ (this m')
      = (bytes_written_ (this m) + Str.size (terminated line))%Z).
Proof.
  intros Fh H. apply write_line_locked_spec in H as (_ & _ & _ & _ & Okc).
  destruct (Okc eq_refl) as (h' & Fh' & Fl & Bw).
  rewrite Fh in Fh'. injection Fh' as <-.
  assert (bytes_written_ (this m')
          = wrap64 (bytes_written_ (this m) + Str.size (terminated line))) as Bw'.
  { rewrite Bw, wrap64_add_l, size_terminated. f_equal. lia. }
  split; [exact Fl|]. split.
  { intros content L. rewrite Fl, lookup_alter_eq, L. reflexivity. }
  split.
  { intros E. apply lacks_newline_false in E. unfold terminated. by rewrite E. }
  split.
  { intros N. unfold terminated. destruct (lacks_newline line) eqn:E; [done|].
    by apply lacks_newline_false in E. }
  split; [exact Bw'|].
  intros B0 B1. rewrite Bw'. apply wrap64_small.
  unfold Str.size in *. lia.
Qed.

Lemma C7_witness :
  file_ (this demo) = Some (".", "app.log")
  /\ bytes_written_ (this (snd (FileSink.write_line_locked "hi" demo)))
     = wrap64 (3 + Str.size (terminated "hi")).
Proof.
  split; [reflexivity|].
  refine (proj1 (proj2 (proj2 (proj2 (proj2
    (C7_write_line_appends_and_counts "hi" demo
       (snd (FileSink.write_line_locked "hi" demo)) (".", "app.log")
       eq_refl _)))))).
  vm_compute. reflexivity.
Defined.

Lemma flush_locked_no_faults m :
  file_ (this m) <> None -> faults (os m) = [] -> buffered (os m) = 0 ->
  FileSink.flush_locked m = (Ok tt, m).
Proof.
  destruct m as [[p d f b bp mb rp mr] [fs bf fl u]]. simpl. intros O -> ->.
  destruct f as [h|]; [|done]. by destruct d.
Qed.

Lemma on_disk_nothing_buffered m :
  buffered (os m) = 0 -> on_disk m = files (os m).
Proof.
  intros B. unfold on_disk. rewrite B.
  destruct (file_ (this m)); [apply alter_drop_last_0|done].
Qed.

(** C8: no [flush] changes the object (path, byte counter, handle), and on
    an open sink the calls return normally when the library calls under
    them succeed. Calls that return normally lose no byte, and after the
    first of them the file system holds every byte of every file, so that
    any number of them leaves on disk what one of them leaves. With nothing
    buffered, as after such a call, any number of calls leaves every file as
    it is, on disk as well, whatever the calls return. *)
Theorem C8_flush_idempotent n m r m' :
  file_ (this m) <> None ->
  flush_times n m = (r, m') ->
  this m' = this m
  /\ (calm (os m) -> r = Ok tt)
  /\ (r = Ok tt ->
      files (os m') = files (os m)
      /\ (0 < n ->
          buffered (os m') = 0
          /\ on_disk m' = files (os m)
          /\ on_disk m' = on_disk (snd (FileSink.flush m))))
  /\ (buffered (os m) = 0 ->
      files (os m') = files (os m)
      /\ on_disk m' = on_disk m
      /\ buffered (os m') = 0)
  /\ (buffered (os m) = 0 -> faults (os m) = [] -> m' = m).
Proof.
  intros O H.
  pose proof (flush_times_spec _ _ _ _ H) as (T & F & U & C & K & N & Z).
  split; [exact T|]. split; [auto|]. split; [|split].
  - intros ->. split; [by apply K|]. intros Pos.
    assert (buffered (os m') = 0) as B' by (by apply Z).
    assert (on_disk m' = files (os m)) as D'
      by (rewrite on_disk_nothing_buffered by done; by apply K).
    split; [exact B'|]. split; [exact D'|].
    destruct n as [|n]; [lia|]. simpl in H.
    apply bind_inv in H as [([] & m1 & E1 & _)|(e & _ & [=])].
    unfold FileSink.flush in *. rewrite E1. simpl.
    apply flush_locked_flushed in E1 as (_ & B1 & F1 & _).
    rewrite D', (on_disk_nothing_buffered m1 (B1 O)).
    symmetry. by apply F1.
  - intros B. destruct (N B) as [F' B'].
    split; [exact F'|]. split; [|exact B'].
    by rewrite !on_disk_nothing_buffered.
  - intros B Nf. clear T F U C K N Z. revert H. induction n as [|n IH]; simpl.
    + by intros [= _ <-].
    + unfold FileSink.flush.
      rewrite (bind_ok _ _ _ _ _ (flush_locked_no_faults m O Nf B)).
      exact IH.
Qed.

Lemma C8_witness :
  file_ (this demo_pending) <> None
  /\ buffered (os demo_pending) = 3
  /\ fst (flush_times 3 demo_pending) = Ok tt
  /\ this (snd (flush_times 3 demo_pending)) = this demo_pending
  /\ on_disk (snd (flush_times 3 demo_pending))
     = on_disk (snd (FileSink.flush demo_pending)).
Proof.
  assert (file_ (this demo_pending) <> None) as O by discriminate.
  assert (fst (flush_times 3 demo_pending) = Ok tt) as R
    by (vm_compute; reflexivity).
  split; [exact O|]. split; [reflexivity|]. split; [exact R|].
  pose proof (C8_flush_idempotent 3 demo_pending (fst (flush_times 3 demo_pending))
                (snd (flush_times 3 demo_pending)) O
                (surjective_pairing _)) as (T & _ & K & _).
  split; [exact T|].
  destruct (K R) as (_ & P). destruct (P ltac:(lia)) as (_ & _ & D). exact D.
Defined.

(** The first [flush] after a [write] changes the file: the write of the
    line [cd] to the sink [demo] leaves the three bytes on disk that were
    there, the six the file holds afterwards are there only once [flush] has
    written the buffer out, and further calls change nothing. *)
Lemma C8_counterexample :
  FileSink.write_line_locked "cd" demo = (Ok tt, demo_pending)
  /\ file_ (this demo_pending) = Some (".", "app.log")
  /\ on_disk demo_pending !! (".", "app.log") = Some (RegularFile "ab
")
  /\ exists m',
       FileSink.flush demo_pending = (Ok tt, m')
       /\ on_disk m' !! (".", "app.log") = Some (RegularFile "ab
cd
")
       /\ on_disk m' <> on_disk demo_pending
       /\ flush_times 2 m' = (Ok tt, m').
Proof.
  split; [vm_compute; reflexivity|]. split; [reflexivity|].
  split; [vm_compute; reflexivity|].
  eexists. split; [vm_compute; reflexivity|].
  split; [vm_compute; reflexivity|]. split; [|vm_compute; reflexivity].
  intros E.
  assert (on_disk demo_pending !! (".", "app.log") = Some (RegularFile "ab
")) as L by (vm_compute; reflexivity).
  rewrite <- E in L. vm_compute in L. discriminate.
Qed.

(** C10: the sequence suffix is accumulated in 32-bit unsigned arithmetic:
    every non-empty string of digits is accepted, the sequence number it
    yields is its decimal value modulo 2^32, and that number is the one the
    candidate carries into the comparison of the sort. *)
Theorem C10_sequence_wraps_modulo_2_32 base t q dir content :
  is_timestamp t = true -> q <> EmptyString -> all_digits q = true ->
  let fn := base +:+ "." +:+ t +:+ "." +:+ q in
  RotatingFileSink.parse_rotation_suffix fn base
  = Some (t, (decimal_value q mod 2 ^ 32)%Z)
  /\ RotatingFileSink.collect_candidates base [((dir, fn), RegularFile content)]
     = [RotatingFileSink.mkCandidate (dir, fn) t (decimal_value q mod 2 ^ 32)%Z]
  /\ forall other,
       RotatingFileSink.ts other = t ->
       RotatingFileSink.candidate_less
         (RotatingFileSink.mkCandidate (dir, fn) t (decimal_value q mod 2 ^ 32)%Z) other
       = (decimal_value q mod 2 ^ 32 <? RotatingFileSink.seq other)%Z.
Proof.
  intros T Q D fn. pose proof (parse_numbered_name base t q T Q D) as P.
  fold fn in P. unfold wrap32 in P. split; [exact P|]. split.
  - simpl. rewrite P. reflexivity.
  - intros other E. unfold RotatingFileSink.candidate_less. simpl.
    rewrite E, String.eqb_refl. reflexivity.
Qed.

Lemma C10_witness :
  is_timestamp "20240101_120000" = true
  /\ "4294967297" <> EmptyString
  /\ all_digits "4294967297" = true
  /\ RotatingFileSink.parse_rotation_suffix
       "app.log.20240101_120000.4294967297" "app.log"
     = Some ("20240101_120000", 1%Z).
Proof.
  assert ("4294967297" <> EmptyString) as Q by discriminate.
  split; [reflexivity|]. split; [exact Q|]. split; [reflexivity|].
  exact (proj1 (C10_sequence_wraps_modulo_2_32 "app.log" "20240101_120000"
                  "4294967297" "." "" eq_refl Q eq_refl)).
Defined.

Lemma doomed_of_candidates m c :
  c ∈ doomed_of m -> c ∈ candidates_of (this m) (os m).
Proof.
  unfold doomed_of. intros H. apply elem_of_take in H as (i & H & _).
  apply list_elem_of_lookup_2 in H. by rewrite std_sort_perm in H.
Qed.

Lemma rotation_name_accepted base fn :
  RotatingFileSink.parse_rotation_suffix fn base <> None <-> rotation_name base fn.
Proof.
  unfold rotation_name. split.
  - destruct (RotatingFileSink.parse_rotation_suffix fn base) as [[t v]|] eqn:P; [|done].
    intros _. apply parse_rotation_suffix_inv in P as (T & [[-> _]|(q & -> & Q & D & _)]).
    + exists t. split; [done|]. by left.
    + exists t. split; [done|]. right. by exists q.
  - intros (t & T & [->|(q & -> & Q & D)]).
    + by rewrite (parse_plain_name base t T).
    + by rewrite (parse_numbered_name base t q T Q D).
Qed.

(** C5: [parse_rotation_suffix] accepts exactly the names made of the base
    file name, a dot, a timestamp of 8 digits, an underscore and 6 digits,
    and possibly a dot and a non-empty run of digits; a file whose name is
    anything else stays as it is through a pruning pass. *)
Theorem C5_candidates_match_the_convention :
  (forall fn base,
      RotatingFileSink.parse_rotation_suffix fn base <> None
      <-> rotation_name base fn)
  /\ (forall m r m' k node,
        RotatingFileSink.prune_old_rotations_locked m = (r, m') ->
        files (os m) !! k = Some node ->
        ~ rotation_name (Fs.filename (base_path_ (this m))) (snd k) ->
        files (os m') !! k = Some node).
Proof.
  split; [intros fn base; apply rotation_name_accepted|].
  intros m r m' k node H L N.
  destruct (prune_old_rotations_locked_spec m) as (m2 & E & _ & _ & F & _).
  rewrite E in H. injection H as <- <-.
  destruct (F k) as [->|(_ & _ & I)]; [exact L|].
  exfalso. apply N. apply list_elem_of_In, in_map_iff in I as (c & <- & I).
  apply list_elem_of_In, doomed_of_candidates, candidates_of_accepted in I.
  by apply rotation_name_accepted.
Qed.

Lemma C5_witness :
  RotatingFileSink.parse_rotation_suffix "app.log.backup" "app.log" = None
  /\ files (os demo_pruning) !! (".", "app.log.backup") = Some (RegularFile "keep")
  /\ files (os (snd (RotatingFileSink.prune_old_rotations_locked demo_pruning)))
       !! (".", "app.log.backup") = Some (RegularFile "keep").
Proof.
  assert (RotatingFileSink.parse_rotation_suffix "app.log.backup" "app.log" = None)
    as P by reflexivity.
  assert (files (os demo_pruning) !! (".", "app.log.backup")
          = Some (RegularFile "keep")) as L by (vm_compute; reflexivity).
  split; [exact P|]. split; [exact L|].
  refine (proj2 C5_candidates_match_the_convention demo_pruning
            (fst (RotatingFileSink.prune_old_rotations_locked demo_pruning))
            (snd (RotatingFileSink.prune_old_rotations_locked demo_pruning))
            (".", "app.log.backup") (RegularFile "keep")
            (surjective_pairing _) L _).
  intros R. apply (proj2 (proj1 C5_candidates_match_the_convention _ _)) in R.
  apply R. exact P.
Defined.

(** X1: a pruning pass over more candidates than the limit [L > 0] sorts them
    ascending by (timestamp string, sequence number) and deletes exactly the
    first [count - L] of that order; when the directory listing and those
    deletions succeed, the candidates left are the other [L], each of them
    at least as large in that order as every deleted one. *)
Lemma pruning_pass_keeps_the_greatest m r m' :
  let L := max_rotated_files_ (this m) in
  let candidates := candidates_of (this m) (os m) in
  let sorted := RotatingFileSink.std_sort candidates in
  let to_delete := Z.to_nat (Z.of_nat (length candidates) - L) in
  (0 < L)%Z -> (L < Z.of_nat (length candidates))%Z ->
  quiet (S to_delete) (os m) ->
  RotatingFileSink.prune_old_rotations_locked m = (r, m') ->
  StronglySorted key_le sorted
  /\ sorted ≡ₚ candidates
  /\ (forall p, files (os m') !! p
       = if decide (p ∈ List.map RotatingFileSink.path (take to_delete sorted))
         then None else files (os m) !! p)
  /\ candidates_of (this m') (os m') ≡ₚ drop to_delete sorted
  /\ Z.of_nat (length (candidates_of (this m') (os m'))) = L
  /\ (forall gone kept,
        gone ∈ take to_delete sorted -> kept ∈ candidates_of (this m') (os m') ->
        key_le gone kept).
Proof.
  intros L candidates sorted to_delete L0 LC Q H.
  destruct (prune_old_rotations_locked_spec m) as (m2 & E & T & _ & _ & _ & Del).
  rewrite E in H. injection H as <- <-.
  assert (doomed_of m = take to_delete sorted) as Dm by reflexivity.
  assert (length (doomed_of m) = to_delete) as Ld.
  { rewrite Dm, length_take. unfold sorted. rewrite (Permutation_length (std_sort_perm _)).
    fold candidates. unfold to_delete. lia. }
  assert (forall p, files (os m2) !! p
       = if decide (p ∈ List.map RotatingFileSink.path (take to_delete sorted))
         then None else files (os m) !! p) as Fl.
  { rewrite <- Dm. apply Del; [fold L; lia|exact LC|]. by rewrite Ld. }
  pose proof (std_sort_sorted candidates) as Ss. fold sorted in Ss.
  pose proof (std_sort_perm candidates) as Sp. fold sorted in Sp.
  assert (NoDup (List.map RotatingFileSink.path sorted)) as Np.
  { rewrite Sp. apply NoDup_candidates_paths. }
  rewrite <- (take_drop to_delete sorted), map_app in Np.
  apply NoDup_app in Np as (_ & Disj & Ndrop).
  assert (candidates_of (this m2) (os m2) ≡ₚ drop to_delete sorted) as Perm.
  { apply NoDup_Permutation.
    - apply NoDup_candidates_of.
    - eapply (NoDup_fmap_1 RotatingFileSink.path). exact Ndrop.
    - intros c. rewrite elem_of_candidates_of, T. split.
      + intros (D & content & Lk & P). rewrite Fl in Lk.
        destruct (decide _) as [I|NI]; [discriminate|].
        assert (c ∈ sorted) as Cs.
        { rewrite Sp. apply elem_of_candidates_of. eauto. }
        rewrite <- (take_drop to_delete sorted) in Cs.
        apply elem_of_app in Cs as [Ct|Cd]; [|done].
        exfalso. apply NI. apply list_elem_of_In, in_map. by apply list_elem_of_In.
      + intros Cd. assert (c ∈ candidates) as Cc.
        { rewrite <- Sp, <- (take_drop to_delete sorted). apply elem_of_app. by right. }
        apply elem_of_candidates_of in Cc as (D & content & Lk & P).
        split; [done|]. exists content. split; [|done].
        rewrite Fl, decide_False; [done|]. intros I. apply (Disj _ I).
        apply list_elem_of_In, in_map. by apply list_elem_of_In. }
  split; [exact Ss|]. split; [exact Sp|]. split; [exact Fl|]. split; [exact Perm|].
  split.
  - rewrite (Permutation_length Perm), length_drop.
    unfold sorted. rewrite (Permutation_length (std_sort_perm _)).
    fold candidates. unfold to_delete. lia.
  - intros gone kept G K. rewrite Perm in K.
    rewrite <- (take_drop to_delete sorted) in Ss.
    by apply (StronglySorted_app_1_elem_of _ _ _ _ _ Ss).
Qed.

Lemma pruning_pass_example :
  (0 < max_rotated_files_ (this demo_pruning))%Z
  /\ length (candidates_of (this demo_pruning) (os demo_pruning)) = 3
  /\ Z.of_nat (length
       (candidates_of
          (this (snd (RotatingFileSink.prune_old_rotations_locked demo_pruning)))
          (os (snd (RotatingFileSink.prune_old_rotations_locked demo_pruning)))))
     = 1%Z.
Proof.
  assert (0 < max_rotated_files_ (this demo_pruning))%Z as L0 by reflexivity.
  assert (length (candidates_of (this demo_pruning) (os demo_pruning)) = 3) as C3
    by (vm_compute; reflexivity).
  assert (max_rotated_files_ (this demo_pruning)
          < Z.of_nat (length (candidates_of (this demo_pruning) (os demo_pruning))))%Z
    as LC by (rewrite C3; reflexivity).
  assert (quiet (S (Z.to_nat
            (Z.of_nat (length (candidates_of (this demo_pruning) (os demo_pruning)))
             - max_rotated_files_ (this demo_pruning)))) (os demo_pruning)) as Q
    by (unfold quiet; simpl faults; rewrite take_nil; constructor).
  pose proof (pruning_pass_keeps_the_greatest demo_pruning
                (fst (RotatingFileSink.prune_old_rotations_locked demo_pruning))
                (snd (RotatingFileSink.prune_old_rotations_locked demo_pruning))
                L0 LC Q (surjective_pairing _)) as (_ & _ & _ & _ & Len & _).
  split; [exact L0|]. split; [exact C3|]. exact Len.
Defined.

(** ** [write] *)

Lemma prefix_longer b : String.prefix (b +:+ ".") b = false.
Proof.
  induction b as [|c b IH]; [reflexivity|].
  rewrite string_cons_app. simpl. by destruct (ascii_dec c c).
Qed.

Lemma base_key_not_doomed m : base_key (this m) ∉ List.map RotatingFileSink.path (doomed_of m).
Proof.
  intros I. apply list_elem_of_In, in_map_iff in I as (c & E & I).
  apply list_elem_of_In, doomed_of_candidates, candidates_of_accepted in I.
  apply I. rewrite E. simpl. apply parse_rotation_suffix_rejects_prefix, prefix_longer.
Qed.

Lemma projected_exact bw line :
  (0 <= bw)%Z ->
  (bw + Str.size line + (if lacks_newline line then 1 else 0) < 2 ^ 64)%Z ->
  RotatingFileSink.projected bw line
  = (bw + Str.size line + (if lacks_newline line then 1 else 0))%Z.
Proof.
  intros B0 B1. unfold RotatingFileSink.projected. rewrite wrap64_add_l.
  apply wrap64_small. unfold Str.size in *. destruct (lacks_newline line); lia.
Qed.

Lemma write_rotating {LogRecord} (formatter_ : LogRecord -> string) record m :
  (max_bytes_ (this m)
   <= RotatingFileSink.projected (bytes_written_ (this m)) (formatter_ record))%Z ->
  RotatingFileSink.write formatter_ record m
  = (RotatingFileSink.rotate_locked ;;
     FileSink.write_line_locked (formatter_ record)) m.
Proof.
  intros H. apply Z.leb_le in H.
  unfold RotatingFileSink.write, FileSink.format_record, FileSink.bytes_written.
  unfold bind at 1 2 3. unfold get_this, ret. cbv beta iota. rewrite H. reflexivity.
Qed.

Lemma write_steady {LogRecord} (formatter_ : LogRecord -> string) record m :
  (RotatingFileSink.projected (bytes_written_ (this m)) (formatter_ record)
   < max_bytes_ (this m))%Z ->
  RotatingFileSink.write formatter_ record m
  = FileSink.write_line_locked (formatter_ record) m.
Proof.
  intros H. apply Z.leb_gt in H.
  unfold RotatingFileSink.write, FileSink.format_record, FileSink.bytes_written.
  unfold bind at 1 2 3. unfold get_this, ret. cbv beta iota. rewrite H.
  unfold bind. reflexivity.
Qed.

Lemma sane_closed s : sane s -> sane (closed s).
Proof. intros [P _]. split; [exact P|exact I]. Qed.

Lemma sane_rotated s : sane (rotated s).
Proof. split; reflexivity. Qed.

Lemma sane_same_but_bytes s s' : same_but_bytes s s' -> sane s -> sane s'.
Proof.
  intros (P & _ & F & B & _) [Sp Sf]. unfold sane, base_key in *.
  rewrite P, F, B. done.
Qed.

(** what a rotation followed by the write of the line leaves behind *)
Lemma rotate_write_summary line m r m' :
  (RotatingFileSink.rotate_locked ;; FileSink.write_line_locked line) m = (r, m') ->
  let kb := base_key (this m) in
  base_path_ (this m') = base_path_ (this m)
  /\ max_bytes_ (this m') = max_bytes_ (this m)
  /\ max_rotated_files_ (this m') = max_rotated_files_ (this m)
  /\ (sane (this m) -> sane (this m'))
  /\ (forall k node, k <> kb -> file_ (this m) <> Some k ->
        files (os m) !! k = Some node ->
        files (os m') !! k = Some node
        \/ (files (os m') !! k = None
            /\ max_rotated_files_ (this m) <> 0%Z
            /\ rotations_performed_ (this m')
               = wrap64 (rotations_performed_ (this m) + 1)))
  /\ (rotations_performed_ (this m') = rotations_performed_ (this m)
      \/ rotations_performed_ (this m') = wrap64 (rotations_performed_ (this m) + 1))
  /\ (r = Ok tt ->
      rotations_performed_ (this m') = wrap64 (rotations_performed_ (this m) + 1)
      /\ bytes_written_ (this m') = wrap64 (Str.size (terminated line))
      /\ files (os m') !! kb = Some (RegularFile (terminated line))
      /\ exists old name,
           files (os m) !! kb = Some old
           /\ name ∈ rotation_candidates (rotated_base_of m)
           /\ ~ present (os m) name
           /\ forall k, k <> kb ->
                files (os m') !! k = (<[Fs.resolve name := old]> (files (os m))) !! k
                \/ (files (os m') !! k = None /\ max_rotated_files_ (this m) <> 0%Z)).
Proof.
  intros H kb. subst kb. set (kb := base_key (this m)) in *.
  apply bind_inv in H as [([] & m1 & E1 & H)|(e & E1 & ->)].
  - (* the rotation succeeded *)
    apply rotate_locked_cases in E1 as (_ & [((e & [=]) & _)|(O & [([=] & _)|C])]).
    destruct C as (name & pre & post & N & A & B & [([=] & _)|C]).
    destruct C as (n & Ln & Ne & [((e & [=]) & _)|(m2 & _ & T2 & _ & F2 & P)]).
    destruct (prune_old_rotations_locked_spec m2) as (m1' & E & T1 & _ & Fp & _).
    rewrite E in P. injection P as ->.
    pose proof (base_key_not_doomed m2) as Nd. rewrite T2 in Nd. simpl in Nd.
    change (base_key (rotated (this m))) with kb in Nd.
    assert (max_rotated_files_ (this m2) = max_rotated_files_ (this m)) as Mr
      by (by rewrite T2).
    assert (forall k, k <> kb ->
              files (os m1) !! k = (<[Fs.resolve name := n]> (files (os m))) !! k
              \/ (files (os m1) !! k = None /\ max_rotated_files_ (this m) <> 0%Z)) as Oth.
    { intros k Nk. destruct (Fp k) as [->|(Z0 & Mx & _)].
      - left. rewrite F2, lookup_insert_ne by done.
        destruct (decide (k = Fs.resolve name)) as [->|Nn].
        + by rewrite !lookup_insert_eq.
        + rewrite !lookup_insert_ne by done. by apply lookup_delete_ne.
      - right. split; [done|]. by rewrite <- Mr. }
    assert (files (os m1) !! kb = Some (RegularFile EmptyString)) as Lb.
    { destruct (Fp kb) as [->|(_ & _ & I)]; [|done]. by rewrite F2, lookup_insert_eq. }
    apply write_line_locked_spec in H as (Sb & _ & Fo & _ & Okc).
    rewrite T1, T2 in Sb, Fo, Okc. simpl in Fo, Okc.
    pose proof Sb as (Sb1 & Sb2 & Sb3 & Sb4 & Sb5 & Sb6 & Sb7). simpl in *.
    assert (forall k, k <> kb -> files (os m') !! k = files (os m1) !! k) as Fo'.
    { intros k Nk. apply Fo. intros Eq. apply Nk. injection Eq as Eq.
      symmetry. exact Eq. }
    refine (conj Sb4 (conj Sb5 (conj Sb7 (conj _ (conj _ (conj _ _)))))).
    + intros _. apply (sane_same_but_bytes _ _ Sb), sane_rotated.
    + intros k node Nk _ Lk. rewrite (Fo' k Nk).
      destruct (Oth k Nk) as [->|[-> Mx]].
      * left. rewrite lookup_insert_ne; [done|]. intros <-. apply B.
        unfold present. by rewrite Lk.
      * right. done.
    + by right.
    + intros ->. subst kb. unfold base_key in *.
      destruct (Okc eq_refl) as (h & [= <-] & Fl & Bw).
      split; [done|]. split.
      { rewrite Bw, wrap64_add_l, size_terminated. f_equal. }
      split.
      { rewrite Fl, lookup_alter_eq, Lb. reflexivity. }
      exists n, name. split; [done|]. split; [rewrite N; set_solver|]. split; [done|].
      intros k Nk. rewrite (Fo' k Nk). apply Oth, Nk.
  - (* the rotation threw *)
    assert (Throw e <> Ok ()) as Nok by done.
    apply rotate_locked_cases in E1
      as (_ & [(_ & _ & T & F)|(O & [(_ & T & F & _)|C])]).
    + rewrite T. refine (conj eq_refl (conj eq_refl (conj eq_refl (conj _ (conj _ (conj _ _)))))); auto.
      * intros k node Nk Nh Lk. left. by rewrite F.
      * done.
    + rewrite T, F. refine (conj eq_refl (conj eq_refl (conj eq_refl (conj _ (conj _ (conj _ _)))))); auto.
      * apply sane_closed.
      * done.
    + destruct C as (name & pre & post & N & A & B & [(_ & T & F)|C]).
      * rewrite T, F. refine (conj eq_refl (conj eq_refl (conj eq_refl (conj _ (conj _ (conj _ _)))))); auto.
        -- apply sane_closed.
        -- done.
      * destruct C as (n & Ln & Ne & [(_ & Fn & Pn & (S1 & S2 & S3 & S4 & S5) & F)|(m2 & [=] & _)]).
        refine (conj S2 (conj S3 (conj S5 (conj _ (conj _ (conj _ _)))))); auto.
        -- intros _. split; [congruence|]. by rewrite Fn.
        -- intros k node Nk _ Lk. left. rewrite F.
           rewrite lookup_insert_ne.
           ++ by rewrite lookup_delete_ne.
           ++ intros <-. apply B. unfold present. by rewrite Lk.
        -- done.
Qed.

(** ** Callers *)

(** what any [write] keeps and what it can take away *)
Lemma write_summary {LogRecord} (formatter_ : LogRecord -> string) record m r m' :
  sane (this m) ->
  RotatingFileSink.write formatter_ record m = (r, m') ->
  base_path_ (this m') = base_path_ (this m)
  /\ max_rotated_files_ (this m') = max_rotated_files_ (this m)
  /\ sane (this m')
  /\ (forall k node, k <> base_key (this m) -> files (os m) !! k = Some node ->
        files (os m') !! k = Some node
        \/ (files (os m') !! k = None
            /\ max_rotated_files_ (this m) <> 0%Z
            /\ rotations_performed_ (this m')
               = wrap64 (rotations_performed_ (this m) + 1))).
Proof.
  intros S H.
  destruct (Z_le_gt_dec (max_bytes_ (this m))
              (RotatingFileSink.projected (bytes_written_ (this m)) (formatter_ record)))
    as [Ge|Lt].
  - rewrite (write_rotating formatter_ record m Ge) in H.
    apply rotate_write_summary in H as (Bp & _ & Mr & Sa & Fr & _).
    refine (conj Bp (conj Mr (conj (Sa S) _))).
    intros k node Nk Lk. apply Fr; [done| |done].
    destruct S as [_ Sf]. destruct (file_ (this m)) as [h|]; [|done].
    intros [= ->]. done.
  - rewrite (write_steady formatter_ record m) in H by lia.
    apply write_line_locked_spec in H as (Sb & _ & Fo & _).
    pose proof Sb as (_ & _ & _ & Bp & _ & _ & Mr).
    refine (conj Bp (conj Mr (conj (sane_same_but_bytes _ _ Sb S) _))).
    intros k node Nk Lk. left. rewrite Fo; [done|].
    destruct S as [_ Sf]. destruct (file_ (this m)) as [h|]; [|done].
    intros [= ->]. done.
Qed.

Lemma exec_summary {LogRecord} (formatter_ : LogRecord -> string) c m :
  sane (this m) ->
  base_path_ (this (exec formatter_ m c)) = base_path_ (this m)
  /\ max_rotated_files_ (this (exec formatter_ m c)) = max_rotated_files_ (this m)
  /\ sane (this (exec formatter_ m c))
  /\ (max_rotated_files_ (this m) = 0%Z ->
      forall k node, k <> base_key (this m) -> files (os m) !! k = Some node ->
        files (os (exec formatter_ m c)) !! k = Some node).
Proof.
  intros S. destruct c as [record| |coming clock]; simpl.
  - destruct (RotatingFileSink.write formatter_ record m) as [r m'] eqn:H.
    apply write_summary in H as (Bp & Mr & Sa & Fr); [|done]. simpl.
    refine (conj Bp (conj Mr (conj Sa _))).
    intros Z0 k node Nk Lk. destruct (Fr k node Nk Lk) as [?|(_ & Nz & _)]; done.
  - destruct (FileSink.flush m) as [r m'] eqn:H. unfold FileSink.flush in H.
    apply flush_locked_spec in H as (T & F & _). simpl. rewrite T.
    refine (conj eq_refl (conj eq_refl (conj S _))).
    intros _ k node Nk Lk. rewrite F; [done|].
    destruct S as [_ Sf]. destruct (file_ (this m)) as [h|]; [|done].
    intros [= ->]. done.
  - done.
Qed.

Lemma run_keeps_files {LogRecord} (formatter_ : LogRecord -> string) calls :
  forall m, sane (this m) -> max_rotated_files_ (this m) = 0%Z ->
  forall k node, k <> base_key (this m) -> files (os m) !! k = Some node ->
    files (os (run formatter_ calls m)) !! k = Some node.
Proof.
  unfold run. induction calls as [|c calls IH]; intros m S Z0 k node Nk Lk; [done|].
  simpl. destruct (exec_summary formatter_ c m S) as (Bp & Mr & Sa & Kp).
  apply IH; [done|congruence| |by apply Kp].
  unfold base_key in *. by rewrite Bp.
Qed.

(** C6: files other than the base file change only by pruning, and pruning
    happens only at the end of a successful rotation of a sink with a
    retention limit: a write that does not rotate and a flush leave them as
    they are, a write after which one of them is gone has counted a rotation
    and has a non-zero limit, and with limit 0 no sequence of calls removes
    or changes any of them. *)
Theorem C6_pruning_only_after_rotation
    {LogRecord : Type} (formatter_ : LogRecord -> string) m :
  sane (this m) ->
  (forall record r m',
      (RotatingFileSink.projected (bytes_written_ (this m)) (formatter_ record)
       < max_bytes_ (this m))%Z ->
      RotatingFileSink.write formatter_ record m = (r, m') ->
      forall k, k <> base_key (this m) -> files (os m') !! k = files (os m) !! k)
  /\ (forall r m', FileSink.flush m = (r, m') ->
        (forall k, k <> base_key (this m) -> files (os m') !! k = files (os m) !! k)
        /\ (r = Ok tt \/ buffered (os m) = 0 -> files (os m') = files (os m)))
  /\ (forall record r m' k node,
        RotatingFileSink.write formatter_ record m = (r, m') ->
        k <> base_key (this m) -> files (os m) !! k = Some node ->
        files (os m') !! k <> Some node ->
        max_rotated_files_ (this m) <> 0%Z
        /\ rotations_performed_ (this m')
           = wrap64 (rotations_performed_ (this m) + 1)
        /\ (max_bytes_ (this m)
            <= RotatingFileSink.projected (bytes_written_ (this m))
                 (formatter_ record))%Z)
  /\ (max_rotated_files_ (this m) = 0%Z ->
      forall calls k node,
        k <> base_key (this m) -> files (os m) !! k = Some node ->
        files (os (run formatter_ calls m)) !! k = Some node).
Proof.
  intros S. split; [|split; [|split]].
  - intros record r m' Lt H k Nk. rewrite (write_steady formatter_ record m Lt) in H.
    apply write_line_locked_spec in H as (_ & _ & Fo & _). apply Fo.
    destruct S as [_ Sf]. destruct (file_ (this m)) as [h|]; [|done].
    intros [= ->]. done.
  - intros r m' H. unfold FileSink.flush in H.
    pose proof (flush_locked_flushed _ _ _ H) as (_ & _ & K & _).
    pose proof (flush_locked_nothing_buffered _ _ _ H) as N.
    apply flush_locked_spec in H as (_ & F & _). split.
    + intros k Nk. apply F.
      destruct S as [_ Sf]. destruct (file_ (this m)) as [h|]; [|done].
      intros [= ->]. done.
    + intros [->|B]; [by apply K|by apply N].
  - intros record r m' k node H Nk Lk Ch.
    destruct (Z_le_gt_dec (max_bytes_ (this m))
                (RotatingFileSink.projected (bytes_written_ (this m))
                   (formatter_ record))) as [Ge|Lt].
    + apply write_summary in H as (_ & _ & _ & Fr); [|done].
      destruct (Fr k node Nk Lk) as [?|(_ & Nz & R)]; done.
    + exfalso. apply Ch. rewrite (write_steady formatter_ record m) in H by lia.
      apply write_line_locked_spec in H as (_ & _ & Fo & _). rewrite Fo; [done|].
      destruct S as [_ Sf]. destruct (file_ (this m)) as [h|]; [|done].
      intros [= ->]. done.
  - intros Z0 calls k node Nk Lk. by apply run_keeps_files.
Qed.

Lemma C6_witness :
  sane (this demo_pruning)
  /\ files (os (snd (FileSink.flush demo_pruning))) = files (os demo_pruning).
Proof.
  assert (sane (this demo_pruning)) as S by (split; reflexivity).
  split; [exact S|].
  exact (proj2 (proj1 (proj2 (C6_pruning_only_after_rotation (fun msg : string => msg)
                                demo_pruning S))
                  (fst (FileSink.flush demo_pruning)) (snd (FileSink.flush demo_pruning))
                  (surjective_pairing _))
           (or_intror eq_refl)).
Defined.

(** ** Exhaustion of the rotated names *)

Lemma rotate_locked_frame m r m' k node :
  RotatingFileSink.rotate_locked m = (r, m') ->
  k <> base_key (this m) -> file_ (this m) <> Some k ->
  files (os m) !! k = Some node ->
  files (os m') !! k = Some node
  \/ (files (os m') !! k = None /\ max_rotated_files_ (this m) <> 0%Z /\ r = Ok tt).
Proof.
  intros H Nk Nh Lk.
  apply rotate_locked_cases in H as (_ & [(_ & _ & _ & F)|(O & [(_ & _ & F & _)|C])]).
  - left. by rewrite F.
  - left. by rewrite F.
  - destruct C as (name & pre & post & N & A & B & [(_ & _ & F)|C]).
    + left. by rewrite F.
    + assert (k <> Fs.resolve name) as Nn.
      { intros ->. apply B. unfold present. by rewrite Lk. }
      destruct C as (n & Ln & Ne & [(_ & _ & _ & _ & F)|(m2 & -> & T2 & _ & F2 & P)]).
      * left. rewrite F, lookup_insert_ne by done. by rewrite lookup_delete_ne.
      * destruct (prune_old_rotations_locked_spec m2) as (m1 & E & _ & _ & Fp & _).
        rewrite E in P. injection P as ->.
        destruct (Fp k) as [->|(Z0 & Mx & _)].
        -- left. rewrite F2, !lookup_insert_ne by done. by rewrite lookup_delete_ne.
        -- right. split; [done|]. split; [|done]. by rewrite T2 in Mx.
Qed.

Lemma flush_locked_throws m e m' :
  FileSink.flush_locked m = (Throw e, m') ->
  e = runtime_error "FileSink file handle is null"
  \/ e = runtime_error "FileSink fflush failed"
  \/ e = runtime_error "FileSink fileno failed"
  \/ e = runtime_error "FileSink fsync failed".
Proof.
  unfold FileSink.flush_locked. intros H.
  apply bind_inv in H as [(s & m0 & E0 & H)|(e0 & E0 & _)]; [|discriminate].
  injection E0 as <- <-.
  apply bind_inv in H as [([] & m1 & E1 & H)|(e1 & E1 & [= <-])].
  - destruct (durable_flush_ (this m)); [|discriminate].
    destruct (file_ (this m)) as [h|]; unfold fsync_or_throw in H.
    + apply bind_inv in H as [(b & m2 & E2 & H)|(e2 & E2 & _)].
      * destruct b; simpl in H.
        -- apply bind_inv in H as [(b3 & m3 & E3 & H)|(e3 & E3 & _)].
           ++ destruct b3; simpl in H; [discriminate|].
              injection H as <- _. auto.
           ++ apply (flag_call_spec _ _ _ _ eq_refl) in E3 as ((b' & [=] & _) & _).
        -- injection H as <- _. auto.
      * apply (flag_call_spec _ _ _ _ eq_refl) in E2 as ((b' & [=] & _) & _).
    + injection H as <- _. auto.
  - destruct (file_ (this m)) as [h|]; unfold fflush_or_throw in E1.
    + apply bind_inv in E1 as [(b & m2 & E2 & H)|(e2 & E2 & _)].
      * destruct b; simpl in H; [discriminate|]. injection H as <- _. auto.
      * apply fflush_spec in E2 as (_ & _ & _ & (b' & lost & [=] & _) & _).
    + injection E1 as <- _. auto.
Qed.

Lemma rotate_locked_exhausted m r m' :
  RotatingFileSink.rotate_locked m = (r, m') ->
  Forall (present (os m)) (rotation_candidates (rotated_base_of m)) ->
  (exists e, r = Throw e)
  /\ (forall k, file_ (this m) <> Some k -> files (os m') !! k = files (os m) !! k)
  /\ (buffered (os m) = 0 \/ calm (os m) -> files (os m') = files (os m))
  /\ (r = Throw (runtime_error
             "RotatingFileSink: unable to find unique rotated filename") ->
      files (os m') = files (os m))
  /\ (file_ (this m) <> None -> calm (os m) ->
      r = Throw (runtime_error
             "RotatingFileSink: unable to find unique rotated filename")
      /\ this m' = closed (this m)).
Proof.
  intros H All.
  apply rotate_locked_cases in H as (_ & [(Ex & Fl & _ & F)|(O & [(-> & T & F & _)|C])]).
  - split; [exact Ex|]. split; [exact F|].
    pose proof (flush_locked_nothing_buffered _ _ _ Fl) as Nb.
    pose proof (flush_locked_flushed _ _ _ Fl) as (Cl & _).
    pose proof Fl as Fl'.
    apply flush_locked_spec in Fl as (_ & _ & _ & _ & Cm). split; [|split].
    + intros [B|Ca]; [by apply Nb|].
      destruct (file_ (this m)) as [h|] eqn:Fh; [|by rewrite (Cl eq_refl)].
      destruct (Cm Ca) as [_ R]. destruct Ex as (e & ->). by specialize (R ltac:(done)).
    + intros ->. apply flush_locked_throws in Fl' as [[=]|[[=]|[[=]|[=]]]].
    + intros Op Ca.
      destruct (Cm Ca) as [_ R]. destruct Ex as (e & ->). by specialize (R Op).
  - split; [eauto|]. split; [by rewrite F|]. split; [done|]. split; [done|]. done.
  - exfalso. destruct C as (name & pre & post & N & _ & B & _).
    apply B. rewrite N in All. apply Forall_app in All as [_ All].
    by inversion All.
Qed.

(** C3: the names [<base>.<ts>], [<base>.<ts>.1], ...,
    [<base>.<ts>.9999] are probed in this order without touching anything
    and the first free one is the result; a rotation never replaces a file
    that exists; when every name is taken the rotation throws and no file
    has been renamed or replaced, and when it throws for want of a name no
    file has changed (the flush that opens the rotation can fail instead,
    and then drops bytes that were buffered for the open file and nothing
    else). *)
Theorem C3_first_free_name_or_no_rename m :
  (forall r m',
      RotatingFileSink.unique_rotated_name (rotated_base_of m) m = (r, m') ->
      m' = m
      /\ ((exists name pre post, r = Ok name
             /\ rotation_candidates (rotated_base_of m) = (pre ++ name :: post)%list
             /\ Forall (present (os m)) pre /\ ~ present (os m) name)
          \/ (r = Throw (runtime_error
                    "RotatingFileSink: unable to find unique rotated filename")
              /\ Forall (present (os m)) (rotation_candidates (rotated_base_of m)))))
  /\ (forall r m' k node,
        RotatingFileSink.rotate_locked m = (r, m') ->
        k <> base_key (this m) -> file_ (this m) <> Some k ->
        files (os m) !! k = Some node ->
        files (os m') !! k = Some node \/ files (os m') !! k = None)
  /\ (forall r m',
        RotatingFileSink.rotate_locked m = (r, m') ->
        Forall (present (os m)) (rotation_candidates (rotated_base_of m)) ->
        (exists e, r = Throw e)
        /\ (forall k, file_ (this m) <> Some k ->
              files (os m') !! k = files (os m) !! k)
        /\ (buffered (os m) = 0 \/ calm (os m) -> files (os m') = files (os m))
        /\ (r = Throw (runtime_error
                   "RotatingFileSink: unable to find unique rotated filename") ->
            files (os m') = files (os m))
        /\ (file_ (this m) <> None -> calm (os m) ->
            r = Throw (runtime_error
                   "RotatingFileSink: unable to find unique rotated filename"))).
Proof.
  split; [|split].
  - intros r m' H. by apply unique_rotated_name_spec.
  - intros r m' k node H Nk Nh Lk.
    destruct (rotate_locked_frame _ _ _ _ _ H Nk Nh Lk) as [?|(? & _)];
      [by left|by right].
  - intros r m' H All.
    destruct (rotate_locked_exhausted _ _ _ H All) as (Ex & Fk & F & Fu & R).
    split; [exact Ex|]. split; [exact Fk|]. split; [exact F|]. split; [exact Fu|].
    intros Op Ca. by destruct (R Op Ca).
Qed.

Lemma present_listed (names : list string) extra node bf fl u :
  Forall (present (mkWorld
            (list_to_map (extra ++ List.map (fun p => (Fs.resolve p, node)) names))
            bf fl u)) names.
Proof.
  apply Forall_forall. intros p I. unfold present. simpl.
  intros N. apply not_elem_of_list_to_map in N. apply N.
  rewrite fmap_app. apply elem_of_app. right.
  apply list_elem_of_fmap. exists (Fs.resolve p, node). split; [done|].
  apply list_elem_of_In. apply (in_map (fun p => (Fs.resolve p, node))).
  by apply list_elem_of_In.
Qed.

Lemma demo_exhausted_all_taken :
  Forall (present (os demo_exhausted))
    (rotation_candidates (rotated_base_of demo_exhausted)).
Proof.
  change (rotated_base_of demo_exhausted) with "app.log.20240101_120000".
  exact (present_listed (rotation_candidates "app.log.20240101_120000")
           [((".", "app.log"), RegularFile "")] (RegularFile "old") 0 []
           (Some "20240101_120000")).
Qed.

Lemma write_line_locked_closed line m :
  file_ (this m) = None ->
  FileSink.write_line_locked line m
  = (Throw (runtime_error "FileSink file handle is null"), m).
Proof.
  intros N. unfold FileSink.write_line_locked.
  rewrite (bind_ok get_this _ m (this m) m eq_refl). rewrite N. reflexivity.
Qed.

Lemma C3_witness :
  files (os (snd (RotatingFileSink.rotate_locked demo_exhausted)))
  = files (os demo_exhausted).
Proof.
  exact (proj1 (proj2 (proj2 (proj2 (proj2 (C3_first_free_name_or_no_rename demo_exhausted))
           (fst (RotatingFileSink.rotate_locked demo_exhausted))
           (snd (RotatingFileSink.rotate_locked demo_exhausted))
           (surjective_pairing _) demo_exhausted_all_taken)))
         (or_introl eq_refl)).
Defined.

(** With every rotated name taken, the write that needs a rotation throws,
    the sink that was open on the base file is left without a handle, and
    the next write throws as well although no library call fails: the base
    file is no longer the active file. *)
Lemma C3_counterexample :
  Forall (present (os demo_exhausted))
    (rotation_candidates (rotated_base_of demo_exhausted))
  /\ file_ (this demo_exhausted) = Some (base_key (this demo_exhausted))
  /\ calm (os demo_exhausted)
  /\ exists m',
       RotatingFileSink.write (fun msg : string => msg) "0123456789" demo_exhausted
       = (Throw (runtime_error
             "RotatingFileSink: unable to find unique rotated filename"), m')
       /\ file_ (this m') = None
       /\ RotatingFileSink.write (fun msg : string => msg) "x" m'
          = (Throw (runtime_error "FileSink file handle is null"), m').
Proof.
  split; [exact demo_exhausted_all_taken|]. split; [reflexivity|].
  split; [constructor|].
  destruct (RotatingFileSink.rotate_locked demo_exhausted) as [r m'] eqn:H.
  destruct (rotate_locked_exhausted _ _ _ H demo_exhausted_all_taken)
    as (_ & _ & _ & _ & R).
  destruct R as [-> T]; [discriminate|constructor|].
  exists m'. split; [|split].
  - rewrite write_rotating; [|vm_compute; discriminate].
    by apply bind_throw.
  - by rewrite T.
  - rewrite write_steady.
    + apply write_line_locked_closed. by rewrite T.
    + rewrite T. vm_compute. reflexivity.
Qed.

(** ** Construction *)

Lemma construct_empty_path max_bytes durable_flush max_rotated_files w :
  construct EmptyString max_bytes durable_flush max_rotated_files w
  = (Throw (invalid_argument "FileSink path must not be empty"), w).
Proof. by destruct w. Qed.

Lemma open_locked_or_throw_sane m r m' :
  FileSink.open_locked_or_throw m = (r, m') ->
  file_ (this m') = None \/ file_ (this m') = Some (Fs.resolve (path_ (this m))).
Proof.
  intros H. apply open_locked_or_throw_spec in H as (_ & _ & _ & _ & _ & Okc & Fail).
  destruct r as [[]|e].
  - right. by destruct (Okc eq_refl).
  - left. assert (Throw e <> Ok ()) as N by done. by destruct (Fail N).
Qed.

Lemma construct_sane path max_bytes durable_flush max_rotated_files w s w' :
  construct path max_bytes durable_flush max_rotated_files w = (Ok s, w') ->
  sane s /\ base_path_ s = path /\ max_bytes_ s = max_bytes
  /\ max_rotated_files_ s = max_rotated_files /\ rotations_performed_ s = 0%Z
  /\ path <> EmptyString /\ max_bytes <> 0%Z.
Proof.
  unfold construct, RotatingFileSink.ctor. 
  set (blank := mkMachine _ w).
  destruct (FileSink.ctor path durable_flush blank) as [[[]|e] m1] eqn:E1.
  2:{ rewrite (bind_throw _ _ _ _ _ E1). discriminate. }
  rewrite (bind_ok _ _ _ _ _ E1).
  rewrite (bind_ok get_this _ m1 (this m1) m1 eq_refl).
  unfold put_this at 1. unfold bind at 1. cbv beta iota.
  unfold FileSink.ctor in E1.
  rewrite (bind_ok get_this _ blank (this blank) blank eq_refl) in E1.
  unfold put_this at 1 in E1. unfold bind at 1 in E1. cbv beta iota in E1.
  destruct path as [|c path]; [discriminate|].
  unfold FileSink.open_or_throw in E1.
  pose proof (open_locked_or_throw_spec _ _ _ E1) as (_ & P & _).
  pose proof (open_locked_or_throw_sane _ _ _ E1) as Fs. simpl in P, Fs.
  unfold on_unwind. destruct (max_bytes =? 0)%Z eqn:Z0.
  - unfold throw. discriminate.
  - unfold ret. intros [= <- <-]. simpl. apply Z.eqb_neq in Z0.
    refine (conj _ (conj eq_refl (conj eq_refl (conj eq_refl (conj eq_refl (conj _ Z0)))))); [|done].
    split; simpl; [exact P|]. destruct Fs as [->| ->]; done.
Qed.

(** C2, at the input that breaks it: with a valid path and [max_bytes = 0]
    the base class has created the file before the constructor body
    rejects the threshold. *)
Theorem C2_zero_threshold_creates_the_file :
  construct "app.log" 0 false 0 (mkWorld ∅ 0 [] None)
  = (Throw (invalid_argument "RotatingFileSink max_bytes must be > 0"),
     mkWorld {[ (".", "app.log") := RegularFile "" ]} 0 [] None).
Proof. vm_compute. reflexivity. Qed.

(** the same input when the file cannot be opened: the error is the I/O
    error of the base class, not the configuration error *)
Lemma zero_threshold_reports_the_open_failure :
  construct "app.log" 0 false 0 (mkWorld ∅ 0 [Failed 0] None)
  = (Throw (runtime_error "FileSink fopen failed"), mkWorld ∅ 0 [] None).
Proof. vm_compute. reflexivity. Qed.

(** ** Retention within one second *)

(** C4, at the input that breaks it: three rotations within one second under
    a retention limit of 1. The second rotation takes the name with
    sequence 1 and pruning removes the plain name; the third rotation takes
    the plain name again, which sorts first, so the pruning pass that
    follows deletes the file just rotated (the line [BBBBBBBBBB]) and keeps
    the older one (the line [AAAAAAAAAA]). *)
Theorem C4_same_second_rotations_delete_the_newest :
  construct "app.log" 8 false 1 (mkWorld ∅ 0 [] (Some "20240101_120000"))
  = (Ok (this demo_limit_one), os demo_limit_one)
  /\ files (os (run (fun msg : string => msg)
                  [call_write "AAAAAAAAAA"; call_write "BBBBBBBBBB"]
                  demo_limit_one))
     = {[ (".", "app.log") := RegularFile "BBBBBBBBBB
";
          (".", "app.log.20240101_120000.1") := RegularFile "AAAAAAAAAA
" ]}
  /\ files (os (run (fun msg : string => msg)
                  [call_write "AAAAAAAAAA"; call_write "BBBBBBBBBB";
                   call_write "CCCCCCCCCC"]
                  demo_limit_one))
     = {[ (".", "app.log") := RegularFile "CCCCCCCCCC
";
          (".", "app.log.20240101_120000.1") := RegularFile "AAAAAAAAAA
" ]}.
Proof. repeat split; vm_compute; reflexivity. Qed.

(** ** The scenarios of [tests/test_rotating_file_sink.cpp] *)

Example test_rotates_at_threshold :
  let m := run (fun msg : string => msg)
             [call_write "id=0001 abcdef"; call_write "id=0002 abcdef";
              call_write "id=0003 abcdef"; call_write "id=0004 abcdef";
              call_flush] test_rotation in
  rotations_performed_ (this m) = 1%Z
  /\ files (os m)
     = {[ (".", "rotation.log") := RegularFile "id=0003 abcdef
id=0004 abcdef
";
          (".", "rotation.log.20240101_120000") := RegularFile "id=0001 abcdef
id=0002 abcdef
" ]}.
Proof. split; vm_compute; reflexivity. Qed.

Example test_prunes_only_after_rotation :
  let m := run (fun msg : string => msg)
             [call_write "does-not-rotate"; call_flush] test_prune_after in
  rotations_performed_ (this m) = 0%Z
  /\ files (os m)
     = <[ (".", "prune_after.log") := RegularFile "does-not-rotate
" ]> (files (os test_prune_after)).
Proof. split; vm_compute; reflexivity. Qed.

(** ** Levels *)

Lemma to_upper_ascii_idem c :
  Levels.to_upper_ascii (Levels.to_upper_ascii c) = Levels.to_upper_ascii c.
Proof.
  unfold Levels.to_upper_ascii.
  destruct ((97 <=? N_of_ascii c) && (N_of_ascii c <=? 122))%N eqn:E; [|by rewrite E].
  apply andb_true_iff in E as [E1 E2]. apply N.leb_le in E1, E2.
  rewrite N_ascii_embedding by lia.
  replace ((97 <=? N_of_ascii c - 97 + 65) && (N_of_ascii c - 97 + 65 <=? 122))%N
    with false; [done|].
  symmetry. apply andb_false_iff. left. apply N.leb_gt. lia.
Qed.

Lemma upper_ascii_length s : String.length (upper_ascii s) = String.length s.
Proof. induction s as [|c s IH]; simpl; [done|]. by rewrite IH. Qed.

Lemma upper_ascii_idem s : upper_ascii (upper_ascii s) = upper_ascii s.
Proof.
  induction s as [|c s IH]; simpl; [done|]. by rewrite to_upper_ascii_idem, IH.
Qed.

Lemma iequals_from_spec a b i n :
  i + n <= String.length a -> i + n <= String.length b ->
  Levels.iequals_from a b i n
  = String.eqb (upper_ascii (Str.substr_to n (Str.substr_from i a)))
               (upper_ascii (Str.substr_to n (Str.substr_from i b))).
Proof.
  revert i. induction n as [|n IH]; intros i Ha Hb; [reflexivity|].
  rewrite (substr_from_uncons i a), (substr_from_uncons i b) by lia.
  simpl. destruct (Ascii.eqb_spec (Levels.to_upper_ascii (Str.at_ a i))
                     (Levels.to_upper_ascii (Str.at_ b i))) as [E|N]; simpl.
  - apply IH; lia.
  - reflexivity.
Qed.

Lemma string_eq_length (a b : string) : a = b -> String.length a = String.length b.
Proof. by intros ->. Qed.

Lemma iequals_ascii_spec a b :
  Levels.iequals_ascii a b = true <-> upper_ascii a = upper_ascii b.
Proof.
  unfold Levels.iequals_ascii.
  destruct (String.length a =? String.length b)%nat eqn:L; simpl.
  - apply Nat.eqb_eq in L. rewrite iequals_from_spec by lia.
    change (Str.substr_from 0 a) with a. change (Str.substr_from 0 b) with b.
    rewrite (substr_to_all _ a) by lia. rewrite (substr_to_all _ b) by lia.
    apply String.eqb_eq.
  - apply Nat.eqb_neq in L. split; [done|]. intros E. exfalso. apply L.
    apply string_eq_length in E. by rewrite !upper_ascii_length in E.
Qed.

Lemma iequals_ascii_eqb a b :
  Levels.iequals_ascii a b = String.eqb (upper_ascii a) (upper_ascii b).
Proof.
  destruct (String.eqb_spec (upper_ascii a) (upper_ascii b)) as [E|N].
  - by apply iequals_ascii_spec.
  - destruct (Levels.iequals_ascii a b) eqn:I; [|done].
    by apply iequals_ascii_spec in I.
Qed.

Lemma level_from_string_upper s :
  Levels.level_from_string s
  = if String.eqb (upper_ascii s) "DEBUG" then Some Levels.Debug
    else if String.eqb (upper_ascii s) "INFO" then Some Levels.Info
    else if (String.eqb (upper_ascii s) "WARN"
             || String.eqb (upper_ascii s) "WARNING")%bool then Some Levels.Warn
    else if String.eqb (upper_ascii s) "ERROR" then Some Levels.Error
    else if String.eqb (upper_ascii s) "FATAL" then Some Levels.Fatal
    else None.
Proof. unfold Levels.level_from_string. by rewrite !iequals_ascii_eqb. Qed.

(** X2: [iequals_ascii] is the equality of the upper-cased strings: an
    equivalence relation that relates only strings of the same length. *)
Theorem iequals_ascii_equivalence :
  (forall a b, Levels.iequals_ascii a b = true <-> upper_ascii a = upper_ascii b)
  /\ (forall a, Levels.iequals_ascii a a = true)
  /\ (forall a b, Levels.iequals_ascii a b = Levels.iequals_ascii b a)
  /\ (forall a b c, Levels.iequals_ascii a b = true ->
        Levels.iequals_ascii b c = true -> Levels.iequals_ascii a c = true)
  /\ (forall a b, Levels.iequals_ascii a b = true ->
        String.length a = String.length b).
Proof.
  split; [exact iequals_ascii_spec|]. split; [|split; [|split]].
  - intros a. by apply iequals_ascii_spec.
  - intros a b. rewrite !iequals_ascii_eqb. apply String.eqb_sym.
  - intros a b c H1 H2. apply iequals_ascii_spec in H1, H2.
    apply iequals_ascii_spec. congruence.
  - intros a b H. apply iequals_ascii_spec, string_eq_length in H.
    by rewrite !upper_ascii_length in H.
Qed.

Lemma iequals_ascii_equivalence_witness :
  Levels.iequals_ascii "WaRn" "warn" = true
  /\ Levels.iequals_ascii "warn" "WARN" = true
  /\ Levels.iequals_ascii "WaRn" "WARN" = true.
Proof.
  split; [reflexivity|]. split; [reflexivity|].
  exact (proj1 (proj2 (proj2 (proj2 iequals_ascii_equivalence)))
           "WaRn" "warn" "WARN" eq_refl eq_refl).
Defined.

(** X3: [level_from_string] reads the canonical names and [WARNING] in any
    letter case and nothing else; it gives back the level whose name
    [to_string] prints. *)
Theorem level_from_string_reads_the_names s lvl :
  (Levels.level_from_string s = Some lvl
   <-> upper_ascii s = Levels.to_string lvl
       \/ (lvl = Levels.Warn /\ upper_ascii s = "WARNING"))
  /\ Levels.level_from_string (Levels.to_string lvl) = Some lvl
  /\ Levels.level_from_string (upper_ascii s) = Levels.level_from_string s.
Proof.
  split; [|split].
  - rewrite level_from_string_upper.
    destruct (String.eqb_spec (upper_ascii s) "DEBUG") as [->|N1].
    { destruct lvl; simpl; (split; [intros H; first [done | by left | by right]
                                   | intros [H|[H1 H2]]; done]). }
    destruct (String.eqb_spec (upper_ascii s) "INFO") as [->|N2].
    { destruct lvl; simpl; (split; [intros H; first [done | by left | by right]
                                   | intros [H|[H1 H2]]; done]). }
    destruct (String.eqb_spec (upper_ascii s) "WARN") as [->|N3].
    { destruct lvl; simpl; (split; [intros H; first [done | by left | by right]
                                   | intros [H|[H1 H2]]; done]). }
    destruct (String.eqb_spec (upper_ascii s) "WARNING") as [->|N4].
    { destruct lvl; simpl; (split; [intros H; first [done | by left | by right]
                                   | intros [H|[H1 H2]]; done]). }
    simpl.
    destruct (String.eqb_spec (upper_ascii s) "ERROR") as [->|N5].
    { destruct lvl; simpl; (split; [intros H; first [done | by left | by right]
                                   | intros [H|[H1 H2]]; done]). }
    destruct (String.eqb_spec (upper_ascii s) "FATAL") as [->|N6].
    { destruct lvl; simpl; (split; [intros H; first [done | by left | by right]
                                   | intros [H|[H1 H2]]; done]). }
    split; [done|]. intros [H|[H1 H2]]; [|done]. destruct lvl; simpl in H; done.
  - by destruct lvl.
  - by rewrite !level_from_string_upper, upper_ascii_idem.
Qed.

Lemma level_from_string_reads_the_names_witness :
  upper_ascii "Warning" = "WARNING"
  /\ Levels.level_from_string "Warning" = Some Levels.Warn.
Proof.
  split; [reflexivity|].
  exact (proj2 (proj1 (level_from_string_reads_the_names "Warning" Levels.Warn))
           (or_intror (conj eq_refl eq_refl))).
Defined.

(** X4: [level_from_int] accepts 0, 1, 2, 3 and 10 only, never yields [Fatal],
    and is the inverse of the enumerators' own numbers for [Info], [Warn]
    and [Error] only. *)
Theorem level_from_int_accepts_the_trick_numbers :
  (forall value,
      Levels.level_from_int value <> None
      <-> (value = 0 \/ value = 1 \/ value = 2 \/ value = 3 \/ value = 10)%Z)
  /\ (forall value, Levels.level_from_int value <> Some Levels.Fatal)
  /\ (forall lvl,
        Levels.level_from_int (Levels.underlying lvl) = Some lvl
        <-> (lvl = Levels.Info \/ lvl = Levels.Warn \/ lvl = Levels.Error)).
Proof.
  split; [|split].
  - intros value. unfold Levels.level_from_int. split.
    + destruct value as [|p|p]; [lia| |done].
      do 5 (try destruct p as [p|p|]); intros H; first [done | lia].
    + intros [->|[->|[->|[->| ->]]]]; done.
  - intros value. unfold Levels.level_from_int.
    destruct value as [|p|p]; [done| |done].
    do 5 (try destruct p as [p|p|]); done.
  - intros lvl. destruct lvl; simpl; split; intros H; try done;
      try (destruct H as [H|[H|H]]; done); auto.
Qed.

Lemma level_from_int_accepts_the_trick_numbers_witness :
  Levels.level_from_int 10%Z <> None.
Proof.
  apply (proj2 (proj1 level_from_int_accepts_the_trick_numbers 10%Z)).
  right. right. right. right. reflexivity.
Defined.

(** X5: [is_at_least] is a total order on the levels with [Debug] at the bottom
    and [Fatal] at the top, so a message that passes a threshold passes
    every lower one. *)
Theorem is_at_least_total_order :
  (forall a, Levels.is_at_least a a = true)
  /\ (forall a b, Levels.is_at_least a b = true -> Levels.is_at_least b a = true ->
        a = b)
  /\ (forall a b c, Levels.is_at_least a b = true -> Levels.is_at_least b c = true ->
        Levels.is_at_least a c = true)
  /\ (forall a b, Levels.is_at_least a b = true \/ Levels.is_at_least b a = true)
  /\ (forall a, Levels.is_at_least a Levels.Debug = true
                /\ Levels.is_at_least Levels.Fatal a = true).
Proof.
  split; [|split; [|split; [|split]]].
  - by intros [].
  - by intros [] [].
  - by intros [] [] [].
  - intros [] []; auto.
  - by intros [].
Qed.

Lemma is_at_least_total_order_witness :
  Levels.is_at_least Levels.Fatal Levels.Error = true
  /\ Levels.is_at_least Levels.Error Levels.Warn = true
  /\ Levels.is_at_least Levels.Fatal Levels.Warn = true.
Proof.
  split; [reflexivity|]. split; [reflexivity|].
  exact (proj1 (proj2 (proj2 is_at_least_total_order))
           Levels.Fatal Levels.Error Levels.Warn eq_refl eq_refl).
Defined.

(** ** A sink without a handle *)

Lemma flush_locked_closed m :
  file_ (this m) = None ->
  FileSink.flush_locked m
  = (Throw (runtime_error "FileSink file handle is null"), m).
Proof.
  intros F. unfold FileSink.flush_locked.
  rewrite (bind_ok get_this _ m (this m) m eq_refl). by rewrite F.
Qed.

Lemma write_closed {LogRecord} (formatter_ : LogRecord -> string) record m :
  file_ (this m) = None ->
  RotatingFileSink.write formatter_ record m
  = (Throw (runtime_error "FileSink file handle is null"), m).
Proof.
  intros F. unfold RotatingFileSink.write, FileSink.bytes_written.
  unfold FileSink.format_record.
  unfold bind at 1. unfold bind at 1. unfold get_this at 1. unfold ret at 1.
  rewrite (bind_ok get_this _ m (this m) m eq_refl).
  destruct (max_bytes_ (this m) <=? _)%Z.
  - unfold RotatingFileSink.rotate_locked.
    rewrite (bind_throw _ _ _ _ _
               (bind_throw _ _ _ _ _ (flush_locked_closed m F))). done.
  - rewrite (bind_ok (ret tt) _ m tt m eq_refl).
    by apply write_line_locked_closed.
Qed.

(** X6: once the handle is null (a rotation that failed after closing the file,
    a reopen that failed) the sink never opens a file again: every [write]
    and every [flush] throws and changes nothing, whatever the host does in
    between. *)
Theorem closed_sink_stays_closed
    {LogRecord : Type} (formatter_ : LogRecord -> string) m :
  file_ (this m) = None ->
  (forall record,
      RotatingFileSink.write formatter_ record m
      = (Throw (runtime_error "FileSink file handle is null"), m))
  /\ FileSink.flush m
     = (Throw (runtime_error "FileSink file handle is null"), m)
  /\ (forall calls,
        this (run formatter_ calls m) = this m
        /\ files (os (run formatter_ calls m)) = files (os m)).
Proof.
  intros F. split; [intros record; by apply write_closed|].
  split; [by apply flush_locked_closed|].
  intros calls. revert m F. induction calls as [|c calls IH]; intros m F; [done|].
  unfold run in *. simpl.
  assert (this (exec formatter_ m c) = this m
          /\ files (os (exec formatter_ m c)) = files (os m)) as [T Fl].
  { destruct c as [record| |coming clock]; simpl.
    - by rewrite write_closed.
    - unfold FileSink.flush. by rewrite flush_locked_closed.
    - done. }
  destruct (IH (exec formatter_ m c)) as [T' F']; [by rewrite T|].
  split; congruence.
Qed.

Lemma closed_sink_stays_closed_witness :
  file_ (this demo_closed) = None
  /\ this (run (fun msg : string => msg)
             [call_write "x"; host [] None; call_flush; call_write "y"]
             demo_closed)
     = this demo_closed.
Proof.
  split; [reflexivity|].
  exact (proj1 (proj2 (proj2 (closed_sink_stays_closed (fun msg : string => msg)
                                demo_closed eq_refl))
                  [call_write "x"; host [] None; call_flush; call_write "y"])).
Defined.

(** ** Writes below the threshold *)

Lemma write_all_or_throw_calm h data m :
  calm (os m) ->
  exists m1, write_all_or_throw (Some h) data m = (Ok tt, m1) /\ calm (os m1).
Proof.
  destruct m as [s [fs bf fl u]]. unfold calm. simpl. intros C.
  unfold write_all_or_throw, Libc.fwrite. unfold_m. simpl.
  destruct fl as [|o rest]; simpl.
  - rewrite Nat.eqb_refl. simpl. eexists. split; [reflexivity|]. done.
  - inversion C as [|? ? -> C']; subst. rewrite Nat.eqb_refl. simpl.
    eexists. split; [reflexivity|]. done.
Qed.

Lemma write_line_locked_calm line m h :
  file_ (this m) = Some h -> calm (os m) ->
  exists m', FileSink.write_line_locked line m = (Ok tt, m') /\ calm (os m').
Proof.
  intros F C. unfold FileSink.write_line_locked.
  rewrite (bind_ok get_this _ m (this m) m eq_refl). rewrite F.
  destruct (write_all_or_throw_calm h line m C) as (m1 & E1 & C1).
  rewrite (bind_ok _ _ _ _ _ E1).
  rewrite (bind_ok _ _ _ _ _ (fetch_add_spec _ m1)).
  destruct (lacks_newline line).
  - match goal with |- exists _, bind (write_all_or_throw _ ?d) _ ?mm = _ /\ _ =>
      destruct (write_all_or_throw_calm h d mm C1) as (m2 & E2 & C2) end.
    rewrite (bind_ok _ _ _ _ _ E2). rewrite fetch_add_spec. eauto.
  - unfold ret. eauto.
Qed.

Lemma appended_cons {LogRecord} (formatter_ : LogRecord -> string) record records :
  appended formatter_ (record :: records)
  = terminated (formatter_ record) +:+ appended formatter_ records.
Proof. reflexivity. Qed.

Lemma size_app s t : Str.size (s +:+ t) = (Str.size s + Str.size t)%Z.
Proof. unfold Str.size. rewrite string_length_app. lia. Qed.

Lemma size_nonneg s : (0 <= Str.size s)%Z.
Proof. unfold Str.size. lia. Qed.

(** X7: a run of [write] calls whose lines fit below the threshold, on an open
    sink while the library calls succeed: no rotation happens, the file
    grows by the terminated lines in call order, nothing else changes and
    the byte counter grows by their total length. *)
Theorem writes_below_the_threshold_append_in_order
    {LogRecord : Type} (formatter_ : LogRecord -> string) records m h content :
  file_ (this m) = Some h ->
  files (os m) !! h = Some (RegularFile content) ->
  calm (os m) ->
  (0 <= bytes_written_ (this m))%Z ->
  (bytes_written_ (this m) + Str.size (appended formatter_ records)
   < max_bytes_ (this m))%Z ->
  (max_bytes_ (this m) <= 2 ^ 64)%Z ->
  let m' := run formatter_ (List.map call_write records) m in
  files (os m')
  = <[h := RegularFile (content +:+ appended formatter_ records)]> (files (os m))
  /\ bytes_written_ (this m')
     = (bytes_written_ (this m) + Str.size (appended formatter_ records))%Z
  /\ rotations_performed_ (this m') = rotations_performed_ (this m)
  /\ file_ (this m') = Some h
  /\ calm (os m').
Proof.
  revert m h content.
  induction records as [|record records IH]; intros m h content F L C B0 B M.
  - simpl. unfold appended. simpl.
    replace (content +:+ "") with content
      by (clear; induction content as [|a c IHc]; [done|];
          rewrite string_cons_app; by f_equal).
    rewrite insert_id by done. unfold Str.size. simpl.
    split; [done|]. split; [lia|]. done.
  - rewrite appended_cons, size_app in B. rewrite size_terminated in B.
    pose proof (size_nonneg (appended formatter_ records)) as Nn.
    pose proof (size_nonneg (formatter_ record)) as Nl.
    assert (0 <= (if lacks_newline (formatter_ record) then 1 else 0) <= 1)%Z as Nb
      by (destruct (lacks_newline _); lia).
    intros m'. subst m'.
    change (run formatter_ (List.map call_write (record :: records)) m)
      with (run formatter_ (List.map call_write records)
              (snd (RotatingFileSink.write formatter_ record m))).
    rewrite write_steady.
    2:{ rewrite projected_exact; lia. }
    destruct (write_line_locked_calm (formatter_ record) m h F C) as (m1 & E1 & C1).
    rewrite E1. change (snd (Ok tt, m1)) with m1.
    apply write_line_locked_spec in E1
      as (Sb & U1 & Oth & _ & Succ).
    destruct (Succ eq_refl) as (h' & F' & A1 & B1).
    rewrite F in F'. injection F' as <-.
    destruct Sb as (P1 & D1 & F1 & BP1 & MB1 & RP1 & MR1).
    assert (bytes_written_ (this m1)
            = (bytes_written_ (this m) + Str.size (terminated (formatter_ record)))%Z)
      as B1'.
    { rewrite B1, size_terminated. rewrite (wrap64_small (_ + Str.size _)) by lia.
      rewrite wrap64_small by lia. lia. }
    rewrite size_terminated in B1'.
    specialize (IH m1 h (content +:+ terminated (formatter_ record))).
    cbv zeta in IH.
    destruct IH as (Fl & Bw & Rp & Fh & Cm).
    + congruence.
    + rewrite A1, lookup_alter_eq, L. done.
    + done.
    + lia.
    + rewrite MB1, B1'. lia.
    + by rewrite MB1.
    + rewrite Fl, Bw, Rp, Fh. rewrite A1.
      refine (conj _ (conj _ (conj _ (conj _ _)))); try done.
      * rewrite appended_cons, string_app_assoc.
        apply map_eq. intros k. destruct (decide (k = h)) as [->|Nk].
        -- by rewrite !lookup_insert_eq.
        -- by rewrite !lookup_insert_ne, lookup_alter_ne.
      * rewrite appended_cons, size_app, size_terminated, B1'. lia.
Qed.

Lemma writes_below_the_threshold_append_in_order_witness :
  file_ (this demo) = Some (".", "app.log")
  /\ files (os (run (fun msg : string => msg)
                  (List.map call_write ["first"; "second"]) demo))
     = <[(".", "app.log") := RegularFile ("ab
" +:+ appended (fun msg : string => msg) ["first"; "second"])]> (files (os demo)).
Proof.
  split; [reflexivity|].
  refine (proj1 (writes_below_the_threshold_append_in_order
                   (fun msg : string => msg) ["first"; "second"] demo
                   (".", "app.log") _ eq_refl _ _ _ _ _)).
  - vm_compute. reflexivity.
  - unfold calm. simpl faults. constructor.
  - vm_compute. discriminate.
  - vm_compute. reflexivity.
  - vm_compute. discriminate.
Defined.

(** ** What construction does to the directory *)

Lemma ctor_base_cases path durable_flush m r m' :
  FileSink.ctor path durable_flush m = (r, m') ->
  (path = EmptyString /\ m' = mkMachine
      (mkSink path durable_flush None 0 (base_path_ (this m)) (max_bytes_ (this m))
         (rotations_performed_ (this m)) (max_rotated_files_ (this m))) (os m)
   /\ r = Throw (invalid_argument "FileSink path must not be empty"))
  \/ (path <> EmptyString
      /\ FileSink.open_locked_or_throw
           (mkMachine
              (mkSink path durable_flush None 0 (base_path_ (this m))
                 (max_bytes_ (this m)) (rotations_performed_ (this m))
                 (max_rotated_files_ (this m))) (os m)) = (r, m')).
Proof.
  unfold FileSink.ctor.
  rewrite (bind_ok get_this _ m (this m) m eq_refl).
  unfold put_this at 1. unfold bind at 1. cbv beta iota.
  destruct path as [|c path].
  - unfold throw. intros [= <- <-]. left. done.
  - intros H. right. split; [done|]. exact H.
Qed.

Lemma construct_cases path max_bytes durable_flush max_rotated_files w r w' :
  construct path max_bytes durable_flush max_rotated_files w = (r, w') ->
  (path = EmptyString /\ w' = w
   /\ r = Throw (invalid_argument "FileSink path must not be empty"))
  \/ (path <> EmptyString
      /\ exists ro m1,
           FileSink.open_locked_or_throw
             (mkMachine (mkSink path durable_flush None 0 EmptyString 0 0 0) w)
           = (ro, m1)
           /\ w' = os m1
           /\ ((exists e, ro = Throw e /\ r = Throw e)
               \/ (ro = Ok tt /\ max_bytes = 0%Z
                   /\ r = Throw (invalid_argument
                                   "RotatingFileSink max_bytes must be > 0"))
               \/ (ro = Ok tt /\ max_bytes <> 0%Z
                   /\ r = Ok (mkSink (path_ (this m1)) (durable_flush_ (this m1))
                                (file_ (this m1)) (bytes_written_ (this m1))
                                path max_bytes 0 max_rotated_files)))).
Proof.
  unfold construct, RotatingFileSink.ctor.
  set (blank := mkMachine _ w).
  destruct (FileSink.ctor path durable_flush blank) as [[[]|e] m1] eqn:E1.
  - rewrite (bind_ok _ _ _ _ _ E1).
    rewrite (bind_ok get_this _ m1 (this m1) m1 eq_refl).
    unfold put_this at 1. unfold bind at 1. cbv beta iota.
    apply ctor_base_cases in E1 as [(-> & _ & [=])|(Np & E1)].
    simpl in E1. intros H. right. split; [done|]. exists (Ok tt), m1.
    split; [exact E1|].
    pose proof (open_locked_or_throw_buffered _ _ E1) as B1.
    destruct path as [|c path]; [done|].
    unfold on_unwind in H. destruct (max_bytes =? 0)%Z eqn:Z0.
    + unfold throw in H.
      unfold FileSink.dtor, FileSink.close_noexcept in H.
      rewrite close_locked_noexcept_spec in H by (right; exact B1).
      simpl in H. injection H as <- <-.
      apply Z.eqb_eq in Z0. split; [done|]. right. left. done.
    + unfold ret in H. simpl in H. injection H as <- <-.
      apply Z.eqb_neq in Z0. split; [done|]. right. right. done.
  - rewrite (bind_throw _ _ _ _ _ E1). intros [= <- <-].
    apply ctor_base_cases in E1 as [(-> & -> & [= ->])|(Np & E1)].
    + left. done.
    + right. split; [done|]. exists (Throw e), m1. simpl in E1.
      split; [exact E1|]. split; [done|]. left. eauto.
Qed.

(** X8: construction never removes or changes an entry of the file system,
    whatever its outcome; the only entry it can add is the base file,
    empty. When it succeeds the handle is open on the base file, which is
    a regular file. *)
Theorem construction_opens_without_truncating
    path max_bytes durable_flush max_rotated_files w r w' :
  construct path max_bytes durable_flush max_rotated_files w = (r, w') ->
  (forall k node, files w !! k = Some node -> files w' !! k = Some node)
  /\ (forall k, files w !! k = None ->
        files w' !! k = None
        \/ (k = Fs.resolve path /\ files w' !! k = Some (RegularFile EmptyString)))
  /\ (forall s, r = Ok s ->
        path <> EmptyString /\ max_bytes <> 0%Z
        /\ file_ s = Some (Fs.resolve path)
        /\ exists content,
             files w' !! Fs.resolve path = Some (RegularFile content)).
Proof.
  intros H. apply construct_cases in H
    as [(-> & -> & ->)|(Np & ro & m1 & E & -> & Cases)].
  { split; [done|]. split; [auto|]. done. }
  apply open_locked_or_throw_spec in E as (_ & P & _ & Oth & Same & Succ & Fail).
  simpl in *.
  assert (forall k node, files w !! k = Some node -> files (os m1) !! k = Some node)
    as Keep.
  { intros k node L. destruct (decide (k = Fs.resolve path)) as [->|Nk].
    - by rewrite (Same _ L).
    - by rewrite Oth. }
  assert (forall k, files w !! k = None ->
            files (os m1) !! k = None
            \/ (k = Fs.resolve path
                /\ files (os m1) !! k = Some (RegularFile EmptyString))) as New.
  { intros k L. destruct (decide (k = Fs.resolve path)) as [->|Nk].
    - destruct ro as [[]|e].
      + destruct (Succ eq_refl) as (_ & c & Lc & Cn & _).
        rewrite (Cn L) in Lc. by right.
      + assert (Throw e <> Ok ()) as N by done.
        destruct (Fail N) as [_ ->]. by left.
    - left. by rewrite Oth. }
  split; [exact Keep|]. split; [exact New|].
  intros s ->. destruct Cases as [(e & _ & [=])|[(_ & _ & [=])|(-> & Z0 & [= ->])]].
  destruct (Succ eq_refl) as (Fh & c & Lc & _). simpl.
  split; [done|]. split; [done|]. split; [done|]. eauto.
Qed.

Lemma construction_opens_without_truncating_witness :
  files (os demo_pruning) !! (".", "app.log.backup") = Some (RegularFile "keep")
  /\ files (snd (construct "app.log" 40 false 1 (os demo_pruning)))
       !! (".", "app.log.backup") = Some (RegularFile "keep").
Proof.
  assert (files (os demo_pruning) !! (".", "app.log.backup")
          = Some (RegularFile "keep")) as L by (vm_compute; reflexivity).
  split; [exact L|].
  exact (proj1 (construction_opens_without_truncating "app.log" 40 false 1
                  (os demo_pruning) _ _ (surjective_pairing _)) _ _ L).
Defined.

(** ** The byte counter and the size of the file *)

Lemma file_size_or_zero_calm h content m :
  calm (os m) ->
  files (os m) !! h = Some (RegularFile content) ->
  (Str.size content < 2 ^ 63)%Z ->
  exists m1, file_size_or_zero (Some h) m = (Ok (Str.size content), m1)
    /\ this m1 = this m /\ files (os m1) = files (os m) /\ calm (os m1).
Proof.
  destruct m as [s [fs bf fl u]]. unfold calm. simpl. intros C L B.
  pose proof (size_nonneg content) as Nn.
  assert (wrap64 (Str.size content) = Str.size content) as W
    by (apply wrap64_small; lia).
  apply Z.ltb_lt in B.
  assert ((Str.size content <? 0)%Z = false) as N0 by (apply Z.ltb_ge; lia).
  unfold file_size_or_zero, Libc.fseek_end, Libc.ftell. unfold_m. simpl.
  destruct fl as [|o1 rest]; simpl.
  - rewrite L, B. simpl. rewrite N0, W. eexists. split; [reflexivity|]. done.
  - inversion C as [|? ? -> C1]; subst. simpl.
    destruct rest as [|o2 rest]; simpl.
    + rewrite L, B. simpl. rewrite N0, W. eexists. split; [reflexivity|]. done.
    + inversion C1 as [|? ? -> C2]; subst. simpl.
      rewrite L, B. simpl. rewrite N0, W. eexists. split; [reflexivity|]. done.
Qed.

Lemma fopen_a_calm p m r m1 :
  Libc.fopen_a p m = (r, m1) -> calm (os m) -> calm (os m1).
Proof.
  unfold Libc.fopen_a. intros H C.
  apply bind_inv in H as [(o & m2 & E2 & H)|(e & E2 & _)].
  2:{ apply next_outcome_frame in E2 as ((? & [=]) & _). }
  destruct (next_outcome_calm _ _ _ E2 C) as [-> C2].
  unfold_m. destruct (files (os m2) !! Fs.resolve p) as [[c|]|];
    injection H as <- <-; done.
Qed.

Lemma open_locked_or_throw_calm m m' :
  FileSink.open_locked_or_throw m = (Ok tt, m') ->
  calm (os m) ->
  (forall content,
      files (os m) !! Fs.resolve (path_ (this m)) = Some (RegularFile content) ->
      (Str.size content < 2 ^ 63)%Z) ->
  exists content,
    files (os m') !! Fs.resolve (path_ (this m)) = Some (RegularFile content)
    /\ bytes_written_ (this m') = Str.size content
    /\ (Str.size content < 2 ^ 63)%Z.
Proof.
  intros H C Small. pose proof H as H0.
  unfold FileSink.open_locked_or_throw in H.
  apply bind_inv in H as [(s & m0 & E0 & H)|(e & E0 & _)]; [|discriminate].
  injection E0 as <- <-.
  apply bind_inv in H as [(f & m1 & E1 & H)|(e & E1 & [=])].
  pose proof (fopen_a_calm _ _ _ _ E1 C) as C1.
  apply fopen_a_spec in E1 as (T1 & U1 & f' & [= <-] & Ff).
  apply bind_inv in H as [([] & m2 & E2 & H)|(e & E2 & _)]; [|discriminate].
  unfold set_file_, bind, get_this, put_this in E2. injection E2 as <-.
  destruct f as [h|]; [|discriminate].
  destruct Ff as [-> Ff]. cbv beta iota in H.
  assert (exists content,
             files (os m1) !! Fs.resolve (path_ (this m)) = Some (RegularFile content)
             /\ (Str.size content < 2 ^ 63)%Z) as (content & Lc & Bc).
  { destruct Ff as [(c & L & ->)|[L ->]].
    - exists c. split; [done|]. by apply Small.
    - exists EmptyString. rewrite lookup_insert_eq. split; [done|]. reflexivity. }
  match type of H with
  | bind (file_size_or_zero _) _ ?mm = _ =>
      destruct (file_size_or_zero_calm (Fs.resolve (path_ (this m))) content mm)
        as (m3 & E3 & T3 & F3 & C3); [exact C1|exact Lc|exact Bc|]
  end.
  rewrite (bind_ok _ _ _ _ _ E3) in H. injection H as <-. simpl.
  exists content. rewrite F3. done.
Qed.

Lemma write_keeps_tracked {LogRecord} (formatter_ : LogRecord -> string)
    m record m' :
  tracked m ->
  RotatingFileSink.write formatter_ record m = (Ok tt, m') ->
  tracked m'.
Proof.
  intros (P & Fh & content & Lc & Bc) H.
  assert (sane (this m)) as Sa by (split; [exact P|by rewrite Fh]).
  destruct (Z.le_gt_cases (max_bytes_ (this m))
              (RotatingFileSink.projected (bytes_written_ (this m))
                 (formatter_ record))) as [Ge|Lt].
  - rewrite (write_rotating formatter_ record m Ge) in H.
    pose proof (rotate_write_summary _ _ _ _ H)
      as (BP & _ & _ & Sa' & _ & _ & Succ).
    destruct (Succ eq_refl) as (_ & Bw & Lb & _).
    specialize (Sa' Sa).
    apply bind_inv in H as [([] & m1 & _ & H)|(e & _ & [=])].
    apply write_line_locked_spec in H as (Sb & _ & _ & _ & Succ1).
    destruct (Succ1 eq_refl) as (h & Fh1 & _).
    destruct Sb as (_ & _ & F1 & _).
    destruct Sa' as [P' Fs']. rewrite F1, Fh1 in Fs'.
    unfold tracked. split; [exact P'|]. split; [by rewrite F1, Fh1, Fs'|].
    exists (terminated (formatter_ record)).
    unfold base_key in *. rewrite BP. done.
  - rewrite (write_steady formatter_ record m Lt) in H.
    apply write_line_locked_spec in H as (Sb & _ & _ & _ & Succ1).
    destruct (Succ1 eq_refl) as (h & Fh1 & A1 & B1).
    destruct Sb as (P1 & _ & F1 & BP1 & _).
    rewrite Fh in Fh1. injection Fh1 as <-.
    unfold tracked, base_key in *. rewrite P1, F1, BP1.
    split; [exact P|]. split; [exact Fh|].
    exists (content +:+ terminated (formatter_ record)).
    split; [by rewrite A1, lookup_alter_eq, Lc|].
    rewrite B1, Bc, size_app, size_terminated.
    rewrite wrap64_add_l, <- Z.add_assoc, wrap64_add_l. reflexivity.
Qed.

(** X9: the value [bytes_written()] reports is the size, modulo 2^64, of
    what the base file holds once the stream is flushed, the bytes on disk
    followed by the bytes still buffered: construction establishes this
    when the library calls succeed, with nothing buffered, and every [write]
    that returns normally, rotating or not, keeps it. A [flush] that returns
    normally keeps it and leaves nothing buffered, so that the counter is
    then the size of the file on disk. A [flush] that throws leaves the
    counter as it was while the file may have lost bytes that were
    buffered: after it the counter can exceed the size of the file. *)
Theorem byte_counter_tracks_the_file_size
    {LogRecord : Type} (formatter_ : LogRecord -> string) :
  (forall path max_bytes durable_flush max_rotated_files w s w',
      construct path max_bytes durable_flush max_rotated_files w = (Ok s, w') ->
      calm w ->
      (forall content,
          files w !! Fs.resolve path = Some (RegularFile content) ->
          (Str.size content < 2 ^ 63)%Z) ->
      tracked (mkMachine s w') /\ buffered w' = 0)
  /\ (forall m record m',
        tracked m ->
        RotatingFileSink.write formatter_ record m = (Ok tt, m') ->
        tracked m')
  /\ (forall m m',
        tracked m -> FileSink.flush m = (Ok tt, m') ->
        tracked m' /\ buffered (os m') = 0
        /\ exists content,
             on_disk m' !! base_key (this m') = Some (RegularFile content)
             /\ bytes_written_ (this m') = wrap64 (Str.size content))
  /\ (forall m e m',
        tracked m -> FileSink.flush m = (Throw e, m') ->
        bytes_written_ (this m') = bytes_written_ (this m)
        /\ buffered (os m') = 0
        /\ exists content lost,
             lost <= buffered (os m)
             /\ files (os m) !! base_key (this m) = Some (RegularFile content)
             /\ files (os m') !! base_key (this m)
                = Some (RegularFile
                          (Str.substr_to (String.length content - lost) content)))
  /\ (exists m',
        tracked demo_pending_failing
        /\ FileSink.flush demo_pending_failing
           = (Throw (runtime_error "FileSink fflush failed"), m')
        /\ bytes_written_ (this m') = 9%Z
        /\ on_disk m' !! base_key (this m') = Some (RegularFile "ab
he")
        /\ ~ tracked m').
Proof.
  split; [|split; [|split; [|split]]].
  - intros path max_bytes durable_flush max_rotated_files w s w' H C Small.
    apply construct_cases in H
      as [(_ & _ & [=])|(Np & ro & m1 & E & -> & Cases)].
    destruct Cases as [(e & _ & [=])|[(_ & _ & [=])|(-> & Z0 & [= ->])]].
    pose proof (open_locked_or_throw_calm _ _ E C Small) as (content & Lc & Bc & Sc).
    pose proof (open_locked_or_throw_buffered _ _ E) as B0.
    apply open_locked_or_throw_spec in E as (_ & P & _ & _ & _ & Succ & _).
    destruct (Succ eq_refl) as (Fh & _).
    simpl in *. split; [|exact B0]. unfold tracked, base_key. simpl.
    split; [exact P|]. split; [exact Fh|]. exists content. split; [exact Lc|].
    rewrite Bc. symmetry. apply wrap64_small. pose proof (size_nonneg content). lia.
  - intros m record m'. apply write_keeps_tracked.
  - intros m m' (P & Fh & content & Lc & Bc) H. unfold FileSink.flush in H.
    pose proof (flush_locked_flushed _ _ _ H) as (_ & Z & K & _).
    apply flush_locked_spec in H as (T & _).
    specialize (K eq_refl). rewrite Fh in Z. specialize (Z ltac:(done)).
    assert (tracked m') as Tr by (unfold tracked; rewrite T, K; eauto).
    split; [exact Tr|]. split; [exact Z|].
    exists content. rewrite (on_disk_nothing_buffered _ Z), T, K. done.
  - intros m e m' (P & Fh & content & Lc & Bc) H. unfold FileSink.flush in H.
    pose proof (flush_locked_flushed _ _ _ H) as (_ & Z & _ & Lost).
    apply flush_locked_spec in H as (T & _).
    rewrite Fh in Z. specialize (Z ltac:(done)).
    destruct (Lost _ Fh) as (lost & Le & Fe).
    split; [by rewrite T|]. split; [exact Z|].
    exists content, lost. split; [exact Le|]. split; [exact Lc|].
    by rewrite Fe, lookup_alter_eq, Lc.
  - eexists. split.
    { split; [reflexivity|]. split; [reflexivity|]. exists "ab
hello
". split; vm_compute; reflexivity. }
    split; [vm_compute; reflexivity|]. split; [reflexivity|].
    split; [vm_compute; reflexivity|].
    intros (_ & _ & content & Lc & Bc). vm_compute in Lc. injection Lc as <-.
    vm_compute in Bc. discriminate.
Qed.

Lemma byte_counter_tracks_the_file_size_witness :
  tracked demo
  /\ tracked (snd (RotatingFileSink.write (fun msg : string => msg) "line" demo)).
Proof.
  assert (tracked demo) as T.
  { split; [reflexivity|]. split; [reflexivity|]. exists "ab
". split; vm_compute; reflexivity. }
  split; [exact T|].
  refine (proj1 (proj2 (byte_counter_tracks_the_file_size (fun msg : string => msg)))
            demo "line" _ T _).
  vm_compute. reflexivity.
Defined.

(** ** What a rotation leaves behind, whatever its outcome *)

(** X10: a rotation does not destroy the content the base file had: when it
    throws before the rename no file has changed, except that a flush that
    fails may have dropped bytes of the open file that were still buffered;
    once the rename is done the content sits under a rotated name that was
    free, from where only the pruning pass of a successful rotation with a
    retention limit can remove it. *)
Theorem rotation_keeps_the_old_content m r m' old :
  RotatingFileSink.rotate_locked m = (r, m') ->
  files (os m) !! base_key (this m) = Some old ->
  (r <> Ok tt
   /\ (files (os m') = files (os m)
       \/ exists h lost,
            file_ (this m) = Some h /\ lost <= buffered (os m)
            /\ FileSink.flush_locked m = (r, m')
            /\ files (os m') = alter (Libc.drop_last lost) h (files (os m))))
  \/ exists name,
       name ∈ rotation_candidates (rotated_base_of m)
       /\ ~ present (os m) name
       /\ (files (os m') !! Fs.resolve name = Some old
           \/ (files (os m') !! Fs.resolve name = None
               /\ max_rotated_files_ (this m) <> 0%Z /\ r = Ok tt)).
Proof.
  intros H L. apply rotate_locked_cases in H as [_ H]. cbv zeta in H.
  destruct H as [((e & ->) & Fl & _ & F)|(_ & H)].
  { left. split; [done|].
    pose proof (flush_locked_flushed _ _ _ Fl) as (Cl & _ & _ & Lost).
    destruct (file_ (this m)) as [h|] eqn:Fh.
    - right. destruct (Lost h eq_refl) as (lost & Le & Fe).
      exists h, lost. done.
    - left. by rewrite (Cl eq_refl). }
  destruct H as [(-> & _ & F & _)|(name & pre & post & Split & _ & Free & H)];
    [left; split; [done|by left]|].
  destruct H as [(-> & _ & F)|(n & Ln & Nk & H)]; [left; split; [done|by left]|].
  rewrite L in Ln. injection Ln as <-.
  right. exists name.
  split; [rewrite Split; apply elem_of_app; right; apply elem_of_cons; by left|].
  split; [exact Free|].
  destruct H as [(_ & _ & _ & _ & F)|(m2 & -> & T2 & _ & F2 & P)].
  - left. rewrite F. by rewrite lookup_insert_eq.
  - destruct (prune_old_rotations_locked_spec m2)
      as (m3 & P3 & _ & _ & Each & _).
    rewrite P in P3. injection P3 as <-.
    assert (files (os m2) !! Fs.resolve name = Some old) as L2.
    { rewrite F2. rewrite lookup_insert_ne by done. by rewrite lookup_insert_eq. }
    destruct (Each (Fs.resolve name)) as [Same|(Gone & Lim & _)].
    + left. congruence.
    + right. rewrite T2 in Lim. done.
Qed.

Lemma rotation_keeps_the_old_content_witness :
  files (os demo) !! base_key (this demo) = Some (RegularFile "ab
")
  /\ ((fst (RotatingFileSink.rotate_locked demo) <> Ok tt
       /\ (files (os (snd (RotatingFileSink.rotate_locked demo))) = files (os demo)
           \/ exists h lost,
                file_ (this demo) = Some h /\ lost <= buffered (os demo)
                /\ FileSink.flush_locked demo
                   = (fst (RotatingFileSink.rotate_locked demo),
                      snd (RotatingFileSink.rotate_locked demo))
                /\ files (os (snd (RotatingFileSink.rotate_locked demo)))
                   = alter (Libc.drop_last lost) h (files (os demo))))
      \/ exists name,
           name ∈ rotation_candidates (rotated_base_of demo)
           /\ ~ present (os demo) name
           /\ (files (os (snd (RotatingFileSink.rotate_locked demo)))
                 !! Fs.resolve name = Some (RegularFile "ab
")
               \/ (files (os (snd (RotatingFileSink.rotate_locked demo)))
                     !! Fs.resolve name = None
                   /\ max_rotated_files_ (this demo) <> 0%Z
                   /\ fst (RotatingFileSink.rotate_locked demo) = Ok tt))).
Proof.
  assert (files (os demo) !! base_key (this demo) = Some (RegularFile "ab
")) as L by (vm_compute; reflexivity).
  split; [exact L|].
  exact (rotation_keeps_the_old_content demo _ _ _ (surjective_pairing _) L).
Defined.

(** X11: [rotations_performed_] counts the rotations that returned normally and
    nothing else: a rotation that throws, even after the rename, leaves the
    counter as it was; and no rotation changes the base path, the threshold
    or the retention limit. *)
Theorem rotation_counter_counts_the_successes m r m' :
  RotatingFileSink.rotate_locked m = (r, m') ->
  rotations_performed_ (this m')
  = (match r with
     | Ok _ => wrap64 (rotations_performed_ (this m) + 1)
     | Throw _ => rotations_performed_ (this m)
     end)
  /\ base_path_ (this m') = base_path_ (this m)
  /\ max_bytes_ (this m') = max_bytes_ (this m)
  /\ max_rotated_files_ (this m') = max_rotated_files_ (this m).
Proof.
  intros H. apply rotate_locked_cases in H as [_ H]. cbv zeta in H.
  destruct H as [((e & ->) & _ & -> & _)|(_ & H)]; [done|].
  destruct H as [(-> & -> & _)|(name & pre & post & _ & _ & _ & H)]; [done|].
  destruct H as [(-> & -> & _)|(n & _ & _ & H)]; [done|].
  destruct H as [((e & ->) & _ & _ & (_ & BP & MB & RP & MR) & _)
                |(m2 & -> & T2 & _ & _ & P)]; [done|].
  destruct (prune_old_rotations_locked_spec m2) as (m3 & P3 & T3 & _).
  rewrite P in P3. injection P3 as <-. rewrite T3, T2. done.
Qed.

Lemma rotation_counter_counts_the_successes_witness :
  rotations_performed_ (this (snd (RotatingFileSink.rotate_locked demo)))
  = wrap64 (rotations_performed_ (this demo) + 1).
Proof.
  pose proof (rotation_counter_counts_the_successes demo _ _ (surjective_pairing _))
    as [H _].
  exact H.
Defined.

(** ** What a pruning pass can do *)

(** X12: [prune_old_rotations_locked] always returns normally, also when the
    directory cannot be read or a removal fails, and leaves the object as
    it is. It creates and changes no file, what it removes is a candidate
    of the pass, it never removes the base file, and it removes nothing
    when the limit is 0 or the candidates do not exceed it. *)
Theorem pruning_is_contained m :
  exists m',
    RotatingFileSink.prune_old_rotations_locked m = (Ok tt, m')
    /\ this m' = this m
    /\ files (os m') !! base_key (this m) = files (os m) !! base_key (this m)
    /\ (forall k node, files (os m') !! k = Some node ->
          files (os m) !! k = Some node)
    /\ (forall k, files (os m') !! k <> files (os m) !! k ->
          exists c, c ∈ candidates_of (this m) (os m)
                    /\ RotatingFileSink.path c = k)
    /\ (max_rotated_files_ (this m) = 0%Z
        \/ (Z.of_nat (length (candidates_of (this m) (os m)))
            <= max_rotated_files_ (this m))%Z ->
        files (os m') = files (os m)).
Proof.
  destruct (prune_old_rotations_locked_spec m)
    as (m' & P & T & _ & Each & Zero & _).
  exists m'. split; [exact P|]. split; [exact T|].
  split; [|split; [|split]].
  - destruct (Each (base_key (this m))) as [E|(_ & _ & In)]; [exact E|].
    by apply base_key_not_doomed in In.
  - intros k node L. destruct (Each k) as [E|(N & _)]; congruence.
  - intros k D. destruct (Each k) as [E|(_ & _ & In)]; [done|].
    apply list_elem_of_fmap in In as (c & -> & In).
    exists c. split; [by apply doomed_of_candidates|done].
  - intros [Z0|Le]; [by rewrite (Zero Z0)|].
    apply map_eq. intros k. destruct (Each k) as [E|(_ & _ & In)]; [exact E|].
    unfold doomed_of in In. cbv zeta in In.
    replace (Z.to_nat _) with 0 in In by lia.
    rewrite take_0 in In. by apply elem_of_nil in In.
Qed.

Lemma pruning_is_contained_witness :
  max_rotated_files_ (this demo) = 0%Z
  /\ files (os (snd (RotatingFileSink.prune_old_rotations_locked demo)))
     = files (os demo).
Proof.
  split; [reflexivity|].
  destruct (pruning_is_contained demo) as (m' & E & _ & _ & _ & _ & Noop).
  rewrite E. apply Noop. left. reflexivity.
Defined.

(** ** A write that fails *)






(** ** The names a rotation builds are names the pruner reads *)

Lemma split_path_plain s :
  fst (Fs.split_path s) = None -> snd (Fs.split_path s) = s.
Proof.
  induction s as [|c s IH]; [done|]. simpl.
  destruct (Fs.split_path s) as [[d|] f]; [done|].
  destruct (Ascii.eqb c "/"); [done|]. simpl in *. intros _. by rewrite IH.
Qed.

Lemma split_path_app p s :
  fst (Fs.split_path s) = None ->
  Fs.split_path (p +:+ s) = (fst (Fs.split_path p), snd (Fs.split_path p) +:+ s).
Proof.
  intros N. induction p as [|c p IH].
  - change (EmptyString +:+ s) with s. simpl.
    rewrite <- N at 1. rewrite <- (split_path_plain s N) at 3.
    by destruct (Fs.split_path s).
  - rewrite string_cons_app. simpl. rewrite IH.
    destruct (Fs.split_path p) as [[d|] f]; simpl; [done|].
    by destruct (Ascii.eqb c "/").
Qed.

Lemma plain_app a b :
  fst (Fs.split_path a) = None -> fst (Fs.split_path b) = None ->
  fst (Fs.split_path (a +:+ b)) = None.
Proof. intros A B. by rewrite split_path_app. Qed.

Lemma plain_cons c s :
  Ascii.eqb c "/" = false -> fst (Fs.split_path s) = None ->
  fst (Fs.split_path (String c s)) = None.
Proof.
  intros C S. simpl. destruct (Fs.split_path s) as [[d|] f]; [done|].
  by rewrite C.
Qed.

Lemma is_digit_not_slash c : is_digit c = true -> Ascii.eqb c "/" = false.
Proof.
  unfold is_digit. intros H. apply andb_true_iff in H as [H _].
  apply N.leb_le in H. apply Ascii.eqb_neq. intros ->. simpl in H. lia.
Qed.

Lemma all_digits_plain q : all_digits q = true -> fst (Fs.split_path q) = None.
Proof.
  induction q as [|c q IH]; [done|]. simpl. intros H.
  apply andb_true_iff in H as [C Q]. apply plain_cons; [|by apply IH].
  by apply is_digit_not_slash.
Qed.

Lemma timestamp_plain t : is_timestamp t = true -> fst (Fs.split_path t) = None.
Proof.
  intros H. pose proof (is_timestamp_length _ H) as Len.
  unfold is_timestamp in H.
  apply andb_true_iff in H as [H D6]. apply andb_true_iff in H as [H U].
  apply andb_true_iff in H as [_ D8].
  destruct (substr_split 8 t) as [E _]; [lia|].
  rewrite (substr_from_uncons 8 t) in E by lia.
  rewrite E. apply plain_app; [by apply all_digits_plain|].
  apply plain_cons; [|by apply all_digits_plain].
  apply Ascii.eqb_eq in U. by rewrite U.
Qed.

Lemma string_of_uint_digits d : all_digits (NilEmpty.string_of_uint d) = true.
Proof. induction d; simpl; try done. Qed.

Lemma string_of_uint_value d : forall acc,
  decimal_value_from (Z.of_nat acc) (NilEmpty.string_of_uint d)
  = Z.of_nat (Nat.of_uint_acc d acc).
Proof.
  induction d; intros acc; simpl; [done|..];
    rewrite <- IHd; f_equal; rewrite Nat.tail_mul_spec; lia.
Qed.

Lemma to_string_spec n :
  all_digits (Str.to_string n) = true
  /\ Str.to_string n <> EmptyString
  /\ decimal_value (Str.to_string n) = Z.of_nat n.
Proof.
  unfold Str.to_string. split; [apply string_of_uint_digits|]. split.
  - intros E. pose proof (Unsigned.of_to n) as R.
    destruct (Nat.to_uint n) eqn:U; try discriminate.
    simpl in R. subst n. discriminate.
  - unfold decimal_value. rewrite (string_of_uint_value _ 0).
    change (Nat.of_uint_acc (Nat.to_uint n) 0) with (Nat.of_uint (Nat.to_uint n)).
    by rewrite Unsigned.of_to.
Qed.

Lemma rotation_candidates_lookup rb i name :
  rotation_candidates rb !! i = Some name ->
  (i = 0 /\ name = rb)
  \/ ((1 <= Z.of_nat i <= 9999)%Z /\ name = rb +:+ "." +:+ Str.to_string i).
Proof.
  unfold rotation_candidates. rewrite lookup_cons. destruct i as [|j].
  - intros [= <-]. by left.
  - intros H. right. rewrite list_lookup_fmap in H.
    destruct (seq 1 9999 !! j) as [k|] eqn:K; [|discriminate].
    apply lookup_seq in K as [-> Lt]. injection H as <-.
    apply Nat2Z.inj_lt in Lt. change (Z.of_nat 9999) with 9999%Z in Lt.
    split; [lia|]. done.
Qed.

Lemma rotation_candidate_suffix base_path t i name :
  is_timestamp t = true ->
  rotation_candidates (base_path +:+ "." +:+ t) !! i = Some name ->
  exists suffix,
    name = base_path +:+ suffix
    /\ fst (Fs.split_path suffix) = None
    /\ RotatingFileSink.parse_rotation_suffix
         (Fs.filename base_path +:+ suffix) (Fs.filename base_path)
       = Some (t, Z.of_nat i).
Proof.
  intros T L. pose proof (timestamp_plain t T) as Pt.
  apply rotation_candidates_lookup in L as [[-> ->]|[Ri ->]].
  - exists ("." +:+ t). split; [done|].
    split; [by apply plain_cons|]. by apply parse_plain_name.
  - destruct (to_string_spec i) as (Dg & Ne & Val).
    exists ("." +:+ t +:+ "." +:+ Str.to_string i).
    split; [by rewrite !string_app_assoc|].
    split.
    + apply plain_cons; [done|]. apply plain_app; [done|].
      apply plain_cons; [done|]. by apply all_digits_plain.
    + rewrite parse_numbered_name by done. rewrite Val.
      unfold wrap32. rewrite Z.mod_small; [done|].
      change (2 ^ 32)%Z with 4294967296%Z. lia.
Qed.

Lemma plain_suffix_path base_path suffix :
  fst (Fs.split_path suffix) = None ->
  Fs.dir_of (base_path +:+ suffix) = Fs.dir_of base_path
  /\ Fs.filename (base_path +:+ suffix) = Fs.filename base_path +:+ suffix.
Proof.
  intros Pl. unfold Fs.dir_of, Fs.parent_path, Fs.filename.
  by rewrite split_path_app.
Qed.

(** X14: every name a rotation can give the old file reads back: it lies in
    the directory of the base file, and [parse_rotation_suffix] accepts its
    file name with the timestamp that was used and the probing index as the
    sequence number, so the file is a candidate of the later pruning
    passes. *)
Theorem rotated_names_are_read_back base_path t i name :
  is_timestamp t = true ->
  rotation_candidates (base_path +:+ "." +:+ t) !! i = Some name ->
  Fs.dir_of name = Fs.dir_of base_path
  /\ RotatingFileSink.parse_rotation_suffix (Fs.filename name)
       (Fs.filename base_path) = Some (t, Z.of_nat i)
  /\ forall s w content,
       base_path_ s = base_path ->
       files w !! Fs.resolve name = Some (RegularFile content) ->
       RotatingFileSink.mkCandidate (Fs.resolve name) t (Z.of_nat i)
         ∈ candidates_of s w.
Proof.
  intros T L.
  destruct (rotation_candidate_suffix _ _ _ _ T L) as (suffix & -> & Pl & Parse).
  destruct (plain_suffix_path base_path suffix Pl) as [Dir Fn].
  split; [exact Dir|]. split; [by rewrite Fn|].
  intros s w content <- Lk. apply elem_of_candidates_of. simpl.
  split; [exact Dir|]. exists content. split; [exact Lk|]. by rewrite Fn.
Qed.

Lemma rotated_names_are_read_back_witness :
  is_timestamp "20240101_120000" = true
  /\ RotatingFileSink.parse_rotation_suffix
       (Fs.filename ("logs/app.log" +:+ "." +:+ "20240101_120000" +:+ "."
                     +:+ Str.to_string 7))
       (Fs.filename "logs/app.log")
     = Some ("20240101_120000", Z.of_nat 7).
Proof.
  split; [reflexivity|].
  refine (proj1 (proj2 (rotated_names_are_read_back "logs/app.log"
                          "20240101_120000" 7 _ eq_refl _))).
  unfold rotation_candidates. rewrite lookup_cons.
  rewrite list_lookup_fmap.
  rewrite lookup_seq_lt by (apply Nat.ltb_lt; reflexivity).
  reflexivity.
Defined.

(** ** The comparator of the pruning pass *)

Lemma key_lt_trans a b c : key_lt a b -> key_lt b c -> key_lt a c.
Proof.
  unfold key_lt. intros [H|[H1 H2]] [K|[K1 K2]].
  - left. by apply (string_compare_lt_trans _ _ _ H K).
  - left. by rewrite <- K1.
  - left. by rewrite H1.
  - right. split; [congruence|lia].
Qed.

Lemma key_lt_irrefl a : ~ key_lt a a.
Proof.
  unfold key_lt. intros [H|[_ H]]; [|lia].
  rewrite string_compare_refl in H. discriminate.
Qed.

(** X15: the comparator handed to [std::sort] is a strict weak ordering, as
    [std::sort] requires: it is irreflexive and transitive, and two
    candidates neither of which comes before the other are those with the
    same timestamp and the same sequence number. *)
Theorem candidate_less_is_a_strict_weak_ordering :
  (forall a, RotatingFileSink.candidate_less a a = false)
  /\ (forall a b c,
        RotatingFileSink.candidate_less a b = true ->
        RotatingFileSink.candidate_less b c = true ->
        RotatingFileSink.candidate_less a c = true)
  /\ (forall a b,
        RotatingFileSink.candidate_less a b = false
        /\ RotatingFileSink.candidate_less b a = false
        <-> RotatingFileSink.ts a = RotatingFileSink.ts b
            /\ RotatingFileSink.seq a = RotatingFileSink.seq b).
Proof.
  split; [|split].
  - intros a. apply not_true_is_false. intros H.
    apply candidate_less_true in H. by apply key_lt_irrefl in H.
  - intros a b c H K. apply candidate_less_true in H, K.
    apply candidate_less_true. by apply (key_lt_trans a b c).
  - intros a b. split.
    + intros [H K].
      assert (key_le b a) as Lba.
      { apply not_key_lt_le. intros L. apply candidate_less_true in L. congruence. }
      assert (key_le a b) as Lab.
      { apply not_key_lt_le. intros L. apply candidate_less_true in L. congruence. }
      destruct Lab as [Lt|[E Le]].
      * exfalso. apply (key_le_not_lt _ _ Lba). by left.
      * split; [exact E|]. destruct Lba as [Lt|[_ Ge]]; [|lia].
        rewrite E, string_compare_refl in Lt. discriminate.
    + intros [E S]. split; apply not_true_is_false; intros H;
        apply candidate_less_true in H; destruct H as [H|[_ H]]; try lia;
        rewrite E, string_compare_refl in H; discriminate.
Qed.

Lemma candidate_less_is_a_strict_weak_ordering_witness :
  RotatingFileSink.candidate_less
    (RotatingFileSink.mkCandidate (".", "a") "20240101_120000" 0)
    (RotatingFileSink.mkCandidate (".", "c") "20240101_120000" 2) = true.
Proof.
  exact (proj1 (proj2 candidate_less_is_a_strict_weak_ordering)
           (RotatingFileSink.mkCandidate (".", "a") "20240101_120000" 0)
           (RotatingFileSink.mkCandidate (".", "b") "20240101_120000" 1)
           (RotatingFileSink.mkCandidate (".", "c") "20240101_120000" 2)
           eq_refl eq_refl).
Defined.

(** ** A write succeeds while the library calls do *)

Lemma fopen_a_calm_ok p m :
  calm (os m) ->
  files (os m) !! Fs.resolve p <> Some Directory ->
  exists m1, Libc.fopen_a p m = (Ok (Some (Fs.resolve p)), m1) /\ calm (os m1).
Proof.
  intros C N. destruct (Libc.fopen_a p m) as [r m1] eqn:E.
  pose proof (fopen_a_calm _ _ _ _ E C) as C1. exists m1. split; [|exact C1].
  unfold Libc.fopen_a in E.
  apply bind_inv in E as [(o & m2 & E2 & H)|(e & E2 & _)].
  2:{ apply next_outcome_frame in E2 as ((? & [=]) & _). }
  destruct (next_outcome_calm _ _ _ E2 C) as [-> C2].
  apply next_outcome_frame in E2 as (_ & _ & F2 & _).
  unfold_m. rewrite F2 in H.
  destruct (files (os m) !! Fs.resolve p) as [[c|]|]; [| |];
    try (injection H as <- <-; done).
Qed.

Lemma file_size_or_zero_keeps_calm f m r m1 :
  file_size_or_zero f m = (r, m1) -> calm (os m) -> calm (os m1).
Proof.
  destruct f as [h|]; unfold file_size_or_zero.
  2:{ by intros [= <- <-]. }
  intros H C. apply bind_inv in H as [(b & m2 & E & H)|(e & E & _)].
  2:{ apply (flag_call_spec _ _ _ _ eq_refl) in E as ((b' & [=] & _) & _). }
  apply (flag_call_spec _ _ _ _ eq_refl) in E as (_ & _ & _ & _ & C2).
  specialize (C2 C).
  destruct b; simpl in H; [|by injection H as <- <-].
  unfold Libc.ftell in H.
  apply bind_inv in H as [(z & m3 & E3 & H)|(e & E3 & _)].
  - apply bind_inv in E3 as [(o & m4 & E4 & E3)|(e & E4 & _)].
    2:{ apply next_outcome_frame in E4 as ((? & [=]) & _). }
    destruct (next_outcome_calm _ _ _ E4 C2) as [-> C4].
    unfold_m.
    assert (m3 = m4) as ->.
    { destruct (files (os m4) !! h) as [[c|]|]; try (by injection E3 as <- <-).
      destruct (Str.size c <? 2 ^ 63)%Z; by injection E3 as <- <-. }
    destruct (z <? 0)%Z; by injection H as <- <-.
  - apply bind_inv in E3 as [(o & m4 & E4 & E3)|(e' & E4 & _)].
    2:{ apply next_outcome_frame in E4 as ((? & [=]) & _). }
    unfold_m. destruct o; [|discriminate].
    destruct (files (os m4) !! h) as [[c|]|]; try discriminate.
    destruct (Str.size c <? 2 ^ 63)%Z; discriminate.
Qed.

Lemma open_locked_or_throw_calm_ok m :
  calm (os m) ->
  files (os m) !! Fs.resolve (path_ (this m)) <> Some Directory ->
  exists m', FileSink.open_locked_or_throw m = (Ok tt, m') /\ calm (os m').
Proof.
  intros C N. unfold FileSink.open_locked_or_throw.
  rewrite (bind_ok get_this _ m (this m) m eq_refl).
  destruct (fopen_a_calm_ok _ m C N) as (m1 & E1 & C1).
  rewrite (bind_ok _ _ _ _ _ E1).
  unfold set_file_ at 1.
  rewrite (bind_ok (bind get_this _) _ m1 tt _ eq_refl).
  cbv beta iota.
  match goal with |- exists _, bind (file_size_or_zero ?f) _ ?mm = _ /\ _ =>
    destruct (file_size_or_zero f mm) as [rz m3] eqn:E3 end.
  pose proof (file_size_or_zero_keeps_calm _ _ _ _ E3 C1) as C3.
  pose proof (file_size_or_zero_spec _ _ _ _ E3) as (_ & _ & _ & z & -> & _).
  eexists. rewrite (bind_ok _ _ _ _ _ E3). split; [reflexivity|]. exact C3.
Qed.

Lemma rename_or_throw_calm from to m content :
  calm (os m) ->
  files (os m) !! Fs.resolve from = Some (RegularFile content) ->
  files (os m) !! Fs.resolve to = None ->
  exists m1, rename_or_throw from to m = (Ok tt, m1)
    /\ calm (os m1) /\ this m1 = this m /\ utc_now (os m1) = utc_now (os m)
    /\ files (os m1)
       = <[Fs.resolve to := RegularFile content]>
           (delete (Fs.resolve from) (files (os m))).
Proof.
  intros C Lf Lt.
  assert (Fs.resolve from <> Fs.resolve to) as Ne by congruence.
  destruct (rename_or_throw from to m) as [r m1] eqn:E. exists m1.
  unfold rename_or_throw, Libc.rename in E.
  apply bind_inv in E as [(b & m2 & E & H)|(e & E & _)].
  - apply bind_inv in E as [(o & m3 & E3 & E)|(e & E3 & _)].
    2:{ apply next_outcome_frame in E3 as ((? & [=]) & _). }
    destruct (next_outcome_calm _ _ _ E3 C) as [-> C3].
    apply next_outcome_frame in E3 as (_ & T3 & F3 & U3).
    rewrite (bind_ok get_os _ m3 (os m3) m3 eq_refl) in E.
    cbv zeta in E. rewrite F3, Lf in E. rewrite decide_False in E by exact Ne.
    rewrite Lt in E.
    unfold set_files in E.
    rewrite (bind_ok (bind get_os _) _ m3 tt _ eq_refl) in E.
    unfold ret in E. injection E as <- <-. simpl in H. unfold ret in H.
    injection H as <- <-. simpl.
    split; [reflexivity|]. split; [exact C3|]. done.
  - apply bind_inv in E as [(o & m3 & E3 & E)|(e' & E3 & _)].
    2:{ apply next_outcome_frame in E3 as ((? & [=]) & _). }
    destruct (next_outcome_calm _ _ _ E3 C) as [-> C3].
    apply next_outcome_frame in E3 as (_ & T3 & F3 & U3).
    rewrite (bind_ok get_os _ m3 (os m3) m3 eq_refl) in E.
    cbv zeta in E. rewrite F3, Lf in E. rewrite decide_False in E by exact Ne.
    rewrite Lt in E. unfold set_files in E.
    rewrite (bind_ok (bind get_os _) _ m3 tt _ eq_refl) in E.
    discriminate.
Qed.

Lemma remove_keeps_calm p m r m1 :
  Libc.remove p m = (r, m1) -> calm (os m) -> calm (os m1).
Proof.
  unfold Libc.remove. intros H C.
  apply bind_inv in H as [(o & m2 & E2 & H)|(e & E2 & _)].
  2:{ apply next_outcome_frame in E2 as ((? & [=]) & _). }
  destruct (next_outcome_calm _ _ _ E2 C) as [-> C2].
  unfold_m. by injection H as <- <-.
Qed.

Lemma remove_each_keeps_calm doomed : forall m r m1,
  RotatingFileSink.remove_each doomed m = (r, m1) -> calm (os m) -> calm (os m1).
Proof.
  induction doomed as [|c doomed IH]; intros m r m1 H C; simpl in H.
  - by injection H as <- <-.
  - apply bind_inv in H as [([] & m2 & E2 & H)|(e & E2 & _)].
    + apply (IH _ _ _ H). by apply (remove_keeps_calm _ _ _ _ E2).
    + destruct (remove_spec (RotatingFileSink.path c) m) as (m3 & E3 & _).
      rewrite E3 in E2. discriminate.
Qed.

Lemma prune_keeps_calm m r m' :
  RotatingFileSink.prune_old_rotations_locked m = (r, m') ->
  calm (os m) -> calm (os m').
Proof.
  unfold RotatingFileSink.prune_old_rotations_locked. intros H C.
  rewrite (bind_ok get_this _ m (this m) m eq_refl) in H.
  destruct (max_rotated_files_ (this m) =? 0)%Z; [by injection H as <- <-|].
  unfold try_catch_all in H. injection H as <- <-.
  match goal with |- calm (os (snd (?c m))) =>
    destruct (c m) as [r1 m1] eqn:E end.
  simpl. cbv zeta in E.
  apply bind_inv in E as [(es & m2 & E2 & H)|(e & E2 & _)].
  - assert (calm (os m2)) as C2.
    { unfold Libc.directory_iterator in E2.
      apply bind_inv in E2 as [(o & m3 & E3 & E2)|(e & E3 & _)].
      2:{ apply next_outcome_frame in E3 as ((? & [=]) & _). }
      destruct (next_outcome_calm _ _ _ E3 C) as [-> C3].
      unfold_m. by injection E2 as <- <-. }
    destruct es as [es|]; [|by injection H as <- <-].
    destruct (_ <=? _)%Z; [by injection H as <- <-|].
    by apply (remove_each_keeps_calm _ _ _ _ H).
  - destruct (directory_iterator_spec (Fs.dir_of (base_path_ (this m))) m)
      as (r2 & m3 & E3 & _).
    rewrite E3 in E2. discriminate.
Qed.

Lemma reopen_locked_calm_ok p m :
  file_ (this m) = None \/ buffered (os m) = 0 ->
  calm (os m) ->
  files (os m) !! Fs.resolve p <> Some Directory ->
  exists m', FileSink.reopen_locked p m = (Ok tt, m') /\ calm (os m').
Proof.
  intros Cl C N. unfold FileSink.reopen_locked.
  rewrite (bind_ok _ _ _ _ _ (close_locked_noexcept_spec m Cl)).
  unfold set_path_ at 1.
  rewrite (bind_ok (bind get_this _) _ (mkMachine (closed (this m)) (os m)) tt _
             eq_refl).
  by apply open_locked_or_throw_calm_ok.
Qed.

Lemma rotate_locked_succeeds m content :
  calm (os m) ->
  file_ (this m) <> None ->
  files (os m) !! base_key (this m) = Some (RegularFile content) ->
  ~ Forall (present (os m)) (rotation_candidates (rotated_base_of m)) ->
  exists m', RotatingFileSink.rotate_locked m = (Ok tt, m') /\ calm (os m').
Proof.
  intros C Op Lb Free. unfold RotatingFileSink.rotate_locked.
  destruct (FileSink.flush_locked m) as [r1 m1] eqn:E1.
  pose proof (flush_locked_spec _ _ _ E1) as (T1 & _ & U1 & _ & C1).
  destruct (C1 C) as [C1' R1]. rewrite (R1 Op) in E1. clear R1 C1.
  pose proof (flush_locked_flushed _ _ _ E1) as (_ & B1 & F1 & _).
  specialize (B1 Op). specialize (F1 eq_refl).
  rewrite (bind_ok _ _ _ _ _ E1).
  rewrite (bind_ok _ _ _ _ _ (close_locked_noexcept_spec m1 (or_intror B1))).
  set (mc := mkMachine (closed (this m1)) (os m1)).
  rewrite (bind_ok get_this _ mc (this mc) mc eq_refl).
  rewrite (bind_ok _ _ _ _ _ (make_timestamp_utc_spec mc)).
  assert (base_path_ (this mc) = base_path_ (this m)) as BP
    by (simpl; by rewrite T1).
  assert (base_path_ (this mc) +:+ "." +:+ stamp_of (os mc) = rotated_base_of m)
    as RB.
  { unfold rotated_base_of, stamp_of. simpl. by rewrite T1, U1. }
  rewrite RB, BP.
  destruct (RotatingFileSink.unique_rotated_name (rotated_base_of m) mc)
    as [r2 m2] eqn:E2.
  pose proof (unique_rotated_name_spec _ _ _ _ E2) as (-> & Cases).
  assert (forall p, present (os mc) p <-> present (os m) p) as Pr.
  { intros p. unfold present. simpl. by rewrite F1. }
  destruct Cases as [(name & pre & post & -> & Split & Taken & Fr)|(_ & All)].
  2:{ exfalso. apply Free. apply (Forall_impl _ _ _ All).
      intros p. apply Pr. }
  rewrite (bind_ok _ _ _ _ _ E2).
  assert (files (os mc) !! Fs.resolve name = None) as Ln.
  { unfold present in Fr.
    destruct (files (os mc) !! Fs.resolve name); [|done].
    exfalso. by apply Fr. }
  destruct (rename_or_throw_calm (base_path_ (this m)) name mc content)
    as (m3 & E3 & C3 & T3 & U3 & F3); [exact C1'| |exact Ln|].
  { simpl. rewrite F1. exact Lb. }
  rewrite (bind_ok _ _ _ _ _ E3).
  destruct (reopen_locked_calm_ok (base_path_ (this m)) m3) as (m4 & E4 & C4).
  { left. by rewrite T3. }
  { exact C3. }
  { rewrite F3. rewrite lookup_insert_ne.
    - by rewrite lookup_delete_eq.
    - intros E. unfold base_key in Lb. simpl in Ln. rewrite F1 in Ln.
      rewrite <- E in Lb. congruence. }
  rewrite (bind_ok _ _ _ _ _ E4).
  rewrite (bind_ok _ _ _ _ _ (incr_rotations_performed_spec m4)).
  match goal with |- exists _, RotatingFileSink.prune_old_rotations_locked ?mm = _ /\ _ =>
    destruct (prune_old_rotations_locked_spec mm) as (m5 & E5 & _);
    pose proof (prune_keeps_calm _ _ _ E5 C4) as C5 end.
  exists m5. split; [exact E5|exact C5].
Qed.

(** X16: while the library calls succeed, [write] on a sink that is open on its
    base file returns normally, whether it rotates or not, unless it has to
    rotate and all 10000 names of the second are taken; the sink is then
    again open on its base file with the counter at the size of the file. *)
Theorem write_succeeds_while_the_library_does
    {LogRecord : Type} (formatter_ : LogRecord -> string) record m :
  tracked m ->
  calm (os m) ->
  ((max_bytes_ (this m)
    <= RotatingFileSink.projected (bytes_written_ (this m)) (formatter_ record))%Z ->
   ~ Forall (present (os m)) (rotation_candidates (rotated_base_of m))) ->
  exists m',
    RotatingFileSink.write formatter_ record m = (Ok tt, m')
    /\ calm (os m') /\ tracked m'.
Proof.
  intros Tr C Free.
  assert (exists m', RotatingFileSink.write formatter_ record m = (Ok tt, m')
                     /\ calm (os m')) as (m' & E & C').
  { destruct Tr as (P & Fh & content & Lc & Bc).
    destruct (Z.le_gt_cases (max_bytes_ (this m))
                (RotatingFileSink.projected (bytes_written_ (this m))
                   (formatter_ record))) as [Ge|Lt].
    - rewrite (write_rotating formatter_ record m Ge).
      destruct (rotate_locked_succeeds m content) as (m1 & E1 & C1);
        [exact C|by rewrite Fh|exact Lc|by apply Free|].
      rewrite (bind_ok _ _ _ _ _ E1).
      pose proof (rotate_locked_cases _ _ _ E1) as [_ Cases]. cbv zeta in Cases.
      assert (file_ (this m1) = Some (base_key (this m))) as F1.
      { destruct Cases as [((e & [=]) & _)|(_ & Cases)].
        destruct Cases as [([=] & _)|(name & pre & post & _ & _ & _ & Cases)].
        destruct Cases as [([=] & _)|(n & _ & _ & Cases)].
        destruct Cases as [((e & [=]) & _)|(m2 & _ & T2 & _ & _ & P2)].
        destruct (prune_old_rotations_locked_spec m2) as (m3 & P3 & T3 & _).
        rewrite P2 in P3. injection P3 as <-. rewrite T3, T2. done. }
      by apply (write_line_locked_calm _ _ _ F1).
    - rewrite (write_steady formatter_ record m Lt).
      by apply (write_line_locked_calm _ _ _ Fh). }
  exists m'. split; [exact E|]. split; [exact C'|].
  by apply (write_keeps_tracked formatter_ m record m').
Qed.

Lemma write_succeeds_while_the_library_does_witness :
  tracked demo
  /\ fst (RotatingFileSink.write (fun msg : string => msg)
            "0123456789012345678901234567890123456789" demo) = Ok tt.
Proof.
  assert (tracked demo) as T.
  { split; [reflexivity|]. split; [reflexivity|]. exists "ab
". split; vm_compute; reflexivity. }
  split; [exact T|].
  destruct (write_succeeds_while_the_library_does (fun msg : string => msg)
              "0123456789012345678901234567890123456789" demo T)
    as (m' & E & _).
  - unfold calm. simpl faults. constructor.
  - intros _ All. apply Forall_cons in All as [P _].
    apply P. vm_compute. reflexivity.
  - by rewrite E.
Defined.

(** ** What no call changes *)

Lemma exec_keeps_max_bytes {LogRecord} (formatter_ : LogRecord -> string) c m :
  max_bytes_ (this (exec formatter_ m c)) = max_bytes_ (this m).
Proof.
  destruct c as [record| |coming clock]; simpl; [| |done].
  - destruct (RotatingFileSink.write formatter_ record m) as [r m'] eqn:E. simpl.
    destruct (Z.le_gt_cases (max_bytes_ (this m))
                (RotatingFileSink.projected (bytes_written_ (this m))
                   (formatter_ record))) as [Ge|Lt].
    + rewrite (write_rotating formatter_ record m Ge) in E.
      by apply rotate_write_summary in E as (_ & MB & _).
    + rewrite (write_steady formatter_ record m Lt) in E.
      by apply write_line_locked_spec in E as ((_ & _ & _ & _ & MB & _) & _).
  - destruct (FileSink.flush m) as [r m'] eqn:E. simpl.
    apply flush_locked_spec in E as (T & _). by rewrite T.
Qed.

(** X17: the configuration is fixed at construction: whatever calls follow and
    however they end, the base path, the threshold and the retention limit
    stay the constructor's arguments, the path of the active file stays the
    base path, and the handle is null or open on the base file. *)
Theorem configuration_is_fixed_at_construction
    {LogRecord : Type} (formatter_ : LogRecord -> string)
    path max_bytes durable_flush max_rotated_files w s w' calls :
  construct path max_bytes durable_flush max_rotated_files w = (Ok s, w') ->
  let m' := run formatter_ calls (mkMachine s w') in
  base_path_ (this m') = path
  /\ max_bytes_ (this m') = max_bytes
  /\ max_rotated_files_ (this m') = max_rotated_files
  /\ path_ (this m') = path
  /\ (file_ (this m') = None \/ file_ (this m') = Some (Fs.resolve path)).
Proof.
  intros H. apply construct_sane in H as (Sa & BP & MB & MR & _).
  assert (forall m,
             sane (this m) -> base_path_ (this m) = path ->
             max_bytes_ (this m) = max_bytes ->
             max_rotated_files_ (this m) = max_rotated_files ->
             sane (this (run formatter_ calls m))
             /\ base_path_ (this (run formatter_ calls m)) = path
             /\ max_bytes_ (this (run formatter_ calls m)) = max_bytes
             /\ max_rotated_files_ (this (run formatter_ calls m))
                = max_rotated_files) as Inv.
  { induction calls as [|c calls IH]; intros m Sm Bm Mm Rm; [done|].
    change (run formatter_ (c :: calls) m)
      with (run formatter_ calls (exec formatter_ m c)).
    destruct (exec_summary formatter_ c m Sm) as (B1 & R1 & S1 & _).
    apply IH; [exact S1|congruence| |congruence].
    by rewrite exec_keeps_max_bytes. }
  intros m'. subst m'.
  destruct (Inv (mkMachine s w') Sa BP MB MR) as ([P F] & B & M & R).
  split; [exact B|]. split; [exact M|]. split; [exact R|].
  split; [congruence|].
  destruct (file_ (this (run formatter_ calls (mkMachine s w')))) as [h|];
    [right|by left].
  rewrite F. unfold base_key. by rewrite B.
Qed.

Lemma configuration_is_fixed_at_construction_witness :
  base_path_
    (this (run (fun msg : string => msg)
             [call_write "AAAAAAAAAA"; call_flush; call_write "BBBBBBBBBB"]
             (mkMachine (this demo_limit_one) (os demo_limit_one))))
  = "app.log".
Proof.
  refine (proj1 (configuration_is_fixed_at_construction (fun msg : string => msg)
                   "app.log" 8 false 1 (mkWorld ∅ 0 [] (Some "20240101_120000"))
                   (this demo_limit_one) (os demo_limit_one)
                   [call_write "AAAAAAAAAA"; call_flush; call_write "BBBBBBBBBB"]
                   _)).
  vm_compute. reflexivity.
Defined.

(** ** The files a write can touch *)

Lemma rotation_candidate_is_rotation_file m name :
  is_timestamp (stamp_of (os m)) = true ->
  name ∈ rotation_candidates (rotated_base_of m) ->
  rotation_file (this m) (Fs.resolve name).
Proof.
  intros T In. apply list_elem_of_lookup_1 in In as (i & L).
  destruct (rotation_candidate_suffix _ _ _ _ T L) as (suffix & -> & Pl & Parse).
  destruct (plain_suffix_path (base_path_ (this m)) suffix Pl) as [Dir Fn].
  split; simpl; [exact Dir|].
  apply rotation_name_accepted. unfold Fs.filename in Fn. simpl.
  unfold Fs.filename. rewrite Fn. fold (Fs.filename (base_path_ (this m))).
  by rewrite Parse.
Qed.

Lemma doomed_is_rotation_file m k :
  k ∈ List.map RotatingFileSink.path (doomed_of m) ->
  rotation_file (this m) k.
Proof.
  intros In. apply list_elem_of_fmap in In as (c & -> & In).
  apply doomed_of_candidates, elem_of_candidates_of in In
    as (Dir & content & _ & Parse).
  split; [exact Dir|]. apply rotation_name_accepted. by rewrite Parse.
Qed.

Lemma rotate_locked_touches m r m' k :
  sane (this m) ->
  RotatingFileSink.rotate_locked m = (r, m') ->
  is_timestamp (stamp_of (os m)) = true ->
  files (os m') !! k <> files (os m) !! k ->
  k = base_key (this m) \/ rotation_file (this m) k.
Proof.
  intros Sa H T Ch. apply rotate_locked_cases in H as [_ H]. cbv zeta in H.
  destruct H as [(_ & _ & _ & F)|(_ & H)].
  { destruct (decide (k = base_key (this m))) as [->|Nb]; [by left|].
    exfalso. apply Ch, F. destruct Sa as [_ Sf].
    destruct (file_ (this m)) as [h|]; [|done]. congruence. }
  destruct H as [(_ & _ & F & _)|(name & pre & post & Split & _ & _ & H)];
    [by rewrite F in Ch|].
  assert (rotation_file (this m) (Fs.resolve name)) as Rn.
  { apply rotation_candidate_is_rotation_file; [exact T|].
    rewrite Split. apply elem_of_app. right. apply elem_of_cons. by left. }
  destruct H as [(_ & _ & F)|(n & _ & _ & H)]; [by rewrite F in Ch|].
  destruct (decide (k = base_key (this m))) as [->|Nb]; [by left|]. right.
  destruct (decide (k = Fs.resolve name)) as [->|Nn]; [exact Rn|].
  destruct H as [(_ & _ & _ & _ & F)|(m2 & _ & T2 & _ & F2 & P)].
  - exfalso. apply Ch. rewrite F.
    rewrite lookup_insert_ne by done. by rewrite lookup_delete_ne.
  - destruct (prune_old_rotations_locked_spec m2) as (m3 & P3 & _ & _ & Each & _).
    rewrite P in P3. injection P3 as <-.
    assert (files (os m2) !! k = files (os m) !! k) as Same.
    { rewrite F2. rewrite !lookup_insert_ne by done. by rewrite lookup_delete_ne. }
    destruct (Each k) as [E|(_ & _ & In)]; [congruence|].
    apply doomed_is_rotation_file in In. rewrite T2 in In. exact In.
Qed.

(** X18: a [write] touches the base file and files of the rotation convention in
    the directory of the base file, and nothing else: every other entry of
    the file system, in that directory or elsewhere, is afterwards what it
    was, and no other entry has been created, however the call ends. *)
Theorem write_touches_only_the_log_files
    {LogRecord : Type} (formatter_ : LogRecord -> string) record m r m' k :
  sane (this m) ->
  is_timestamp (stamp_of (os m)) = true ->
  RotatingFileSink.write formatter_ record m = (r, m') ->
  files (os m') !! k <> files (os m) !! k ->
  k = base_key (this m)
  \/ (fst k = Fs.dir_of (base_path_ (this m))
      /\ rotation_name (Fs.filename (base_path_ (this m))) (snd k)).
Proof.
  intros Sa T H Ch.
  destruct (decide (k = base_key (this m))) as [->|Nb]; [by left|]. right.
  destruct (Z.le_gt_cases (max_bytes_ (this m))
              (RotatingFileSink.projected (bytes_written_ (this m))
                 (formatter_ record))) as [Ge|Lt].
  - rewrite (write_rotating formatter_ record m Ge) in H.
    apply bind_inv in H as [([] & m1 & E1 & H)|(e & E1 & _)].
    + pose proof (rotate_locked_cases _ _ _ E1) as [_ Cases]. cbv zeta in Cases.
      assert (file_ (this m1) = Some (base_key (this m))) as F1.
      { destruct Cases as [((e & [=]) & _)|(_ & Cases)].
        destruct Cases as [([=] & _)|(name & pre & post & _ & _ & _ & Cases)].
        destruct Cases as [([=] & _)|(n & _ & _ & Cases)].
        destruct Cases as [((e & [=]) & _)|(m2 & _ & T2 & _ & _ & P2)].
        destruct (prune_old_rotations_locked_spec m2) as (m3 & P3 & T3 & _).
        rewrite P2 in P3. injection P3 as <-. rewrite T3, T2. done. }
      apply write_line_locked_spec in H as (_ & _ & Oth & _).
      rewrite Oth in Ch by (rewrite F1; congruence).
      destruct (rotate_locked_touches _ _ _ _ Sa E1 T Ch) as [->|R]; done.
    + destruct (rotate_locked_touches _ _ _ _ Sa E1 T Ch) as [->|R]; done.
  - rewrite (write_steady formatter_ record m Lt) in H.
    apply write_line_locked_spec in H as (_ & _ & Oth & _).
    exfalso. apply Ch. apply Oth. destruct Sa as [_ Fs].
    destruct (file_ (this m)) as [h|]; [|done]. congruence.
Qed.

Lemma write_touches_only_the_log_files_witness :
  sane (this demo_pruning)
  /\ ((".", "app.log.20240101_120002") = base_key (this demo_pruning)
      \/ (fst (".", "app.log.20240101_120002")
           = Fs.dir_of (base_path_ (this demo_pruning))
          /\ rotation_name (Fs.filename (base_path_ (this demo_pruning)))
               (snd (".", "app.log.20240101_120002")))).
Proof.
  assert (sane (this demo_pruning)) as Sa by (split; reflexivity).
  split; [exact Sa|].
  refine (write_touches_only_the_log_files (fun msg : string => msg)
            "0123456789012345678901234567890123456789" demo_pruning _ _
            (".", "app.log.20240101_120002") Sa eq_refl (surjective_pairing _) _).
  vm_compute. discriminate.
Defined.

(** ** The write that rotates *)

(** what a rotation that returns normally has done *)
Lemma rotate_locked_succeeded m m1 :
  RotatingFileSink.rotate_locked m = (Ok tt, m1) ->
  let kb := base_key (this m) in
  exists old name pre post,
    files (os m) !! kb = Some old
    /\ rotation_candidates (rotated_base_of m) = (pre ++ name :: post)%list
    /\ Forall (present (os m)) pre /\ ~ present (os m) name
    /\ this m1 = rotated (this m)
    /\ files (os m1) !! kb = Some (RegularFile EmptyString)
    /\ (forall k, k <> kb ->
          files (os m1) !! k = (<[Fs.resolve name := old]> (files (os m))) !! k
          \/ (files (os m1) !! k = None /\ max_rotated_files_ (this m) <> 0%Z
              /\ rotation_file (this m) k))
    /\ (max_rotated_files_ (this m) = 0%Z ->
        files (os m1)
        = <[kb := RegularFile EmptyString]>
            (<[Fs.resolve name := old]> (delete kb (files (os m))))).
Proof.
  intros E1 kb. subst kb. set (kb := base_key (this m)) in *.
  apply rotate_locked_cases in E1 as (_ & [((e & [=]) & _)|(O & [([=] & _)|C])]).
  destruct C as (name & pre & post & N & A & B & [([=] & _)|C]).
  destruct C as (n & Ln & Ne & [((e & [=]) & _)|(m2 & _ & T2 & _ & F2 & P)]).
  destruct (prune_old_rotations_locked_spec m2) as (m1' & E & T1 & _ & Fp & Z0 & _).
  rewrite E in P. injection P as ->.
  pose proof (base_key_not_doomed m2) as Nd. rewrite T2 in Nd. simpl in Nd.
  change (base_key (rotated (this m))) with kb in Nd.
  assert (max_rotated_files_ (this m2) = max_rotated_files_ (this m)) as Mr
    by (by rewrite T2).
  exists n, name, pre, post.
  split; [exact Ln|]. split; [exact N|]. split; [exact A|]. split; [exact B|].
  split; [congruence|]. split; [|split].
  - destruct (Fp kb) as [->|(_ & _ & I)]; [|done]. by rewrite F2, lookup_insert_eq.
  - intros k Nk. destruct (Fp k) as [->|(G & Mx & In)].
    + left. rewrite F2, lookup_insert_ne by done.
      destruct (decide (k = Fs.resolve name)) as [->|Nn].
      * by rewrite !lookup_insert_eq.
      * rewrite !lookup_insert_ne by done. by apply lookup_delete_ne.
    + right. split; [done|]. split; [by rewrite <- Mr|].
      apply doomed_is_rotation_file in In. rewrite T2 in In. exact In.
  - intros Z. rewrite <- Mr in Z. rewrite (Z0 Z). exact F2.
Qed.

(** what a rotating [write] that returns normally has done *)
Lemma rotating_write_succeeded line m m' :
  (RotatingFileSink.rotate_locked ;; FileSink.write_line_locked line) m = (Ok tt, m') ->
  let kb := base_key (this m) in
  exists old name pre post,
    files (os m) !! kb = Some old
    /\ rotation_candidates (rotated_base_of m) = (pre ++ name :: post)%list
    /\ Forall (present (os m)) pre /\ ~ present (os m) name
    /\ same_but_bytes (rotated (this m)) (this m')
    /\ bytes_written_ (this m') = wrap64 (Str.size (terminated line))
    /\ files (os m') !! kb = Some (RegularFile (terminated line))
    /\ (forall k, k <> kb ->
          files (os m') !! k = (<[Fs.resolve name := old]> (files (os m))) !! k
          \/ (files (os m') !! k = None /\ max_rotated_files_ (this m) <> 0%Z
              /\ rotation_file (this m) k))
    /\ (max_rotated_files_ (this m) = 0%Z ->
        files (os m')
        = <[kb := RegularFile (terminated line)]>
            (<[Fs.resolve name := old]> (delete kb (files (os m))))).
Proof.
  intros H kb. subst kb. set (kb := base_key (this m)) in *.
  apply bind_inv in H as [([] & m1 & E1 & H)|(e & _ & [=])].
  apply rotate_locked_succeeded in E1
    as (old & name & pre & post & Lo & N & A & B & T1 & Lb & Oth & Z0).
  fold kb in Lo, Lb, Oth, Z0.
  apply write_line_locked_spec in H as (Sb & _ & _ & _ & Okc).
  rewrite T1 in Sb, Okc. simpl in Okc.
  destruct (Okc eq_refl) as (h & [= <-] & Fl & Bw). fold kb in Fl.
  exists old, name, pre, post.
  split; [exact Lo|]. split; [exact N|]. split; [exact A|]. split; [exact B|].
  split; [exact Sb|]. split.
  { rewrite Bw, wrap64_add_l, size_terminated. f_equal. }
  split.
  { rewrite Fl, lookup_alter_eq, Lb. reflexivity. }
  split.
  { intros k Nk. rewrite Fl, lookup_alter_ne by done. by apply Oth. }
  intros Z. rewrite Fl, (Z0 Z). apply map_eq. intros k.
  destruct (decide (k = kb)) as [->|Nk].
  - by rewrite lookup_alter_eq, !lookup_insert_eq.
  - by rewrite lookup_alter_ne, !(lookup_insert_ne _ kb) by done.
Qed.

(** a rotating [write] returns normally while the library calls succeed
    and one of the rotated names is free *)
Lemma rotating_write_calm line m old :
  calm (os m) ->
  file_ (this m) = Some (base_key (this m)) ->
  files (os m) !! base_key (this m) = Some (RegularFile old) ->
  ~ Forall (present (os m)) (rotation_candidates (rotated_base_of m)) ->
  exists m',
    (RotatingFileSink.rotate_locked ;; FileSink.write_line_locked line) m = (Ok tt, m')
    /\ calm (os m').
Proof.
  intros C Fh Lo Free.
  destruct (rotate_locked_succeeds m old) as (m1 & E1 & C1);
    [exact C|by rewrite Fh|exact Lo|exact Free|].
  rewrite (bind_ok _ _ _ _ _ E1).
  apply rotate_locked_succeeded in E1 as (_ & _ & _ & _ & _ & _ & _ & _ & T1 & _).
  apply (write_line_locked_calm _ _ (base_key (this m))); [by rewrite T1|exact C1].
Qed.

(** the files other than the base file after a rotating [write], however
    it ends: what they were, or the old content of the base file under a
    rotated name that was free *)
Lemma rotating_write_frame line m r m' k node :
  (RotatingFileSink.rotate_locked ;; FileSink.write_line_locked line) m = (r, m') ->
  sane (this m) ->
  k <> base_key (this m) ->
  files (os m') !! k = Some node ->
  files (os m) !! k = Some node
  \/ (files (os m) !! base_key (this m) = Some node
      /\ exists name, name ∈ rotation_candidates (rotated_base_of m)
           /\ ~ present (os m) name /\ k = Fs.resolve name).
Proof.
  intros H Sa Nk Lk. set (kb := base_key (this m)) in *.
  assert (file_ (this m) <> Some k) as Nh.
  { destruct Sa as [_ Sf]. destruct (file_ (this m)) as [h|]; [|done].
    intros [= ->]. done. }
  assert (forall m1 old name,
            (files (os m1) !! k = (<[Fs.resolve name := old]> (files (os m))) !! k) ->
            files (os m1) !! k = Some node ->
            files (os m) !! kb = Some old ->
            name ∈ rotation_candidates (rotated_base_of m) ->
            ~ present (os m) name ->
            files (os m) !! k = Some node
            \/ (files (os m) !! kb = Some node
                /\ exists name, name ∈ rotation_candidates (rotated_base_of m)
                     /\ ~ present (os m) name /\ k = Fs.resolve name)) as Renamed.
  { intros m1 old name E L Lo In Np. rewrite E in L.
    destruct (decide (k = Fs.resolve name)) as [->|Nn].
    - rewrite lookup_insert_eq in L. injection L as ->. right. eauto.
    - rewrite lookup_insert_ne in L by done. by left. }
  apply bind_inv in H as [([] & m1 & E1 & H)|(e & E1 & ->)].
  - apply rotate_locked_succeeded in E1
      as (old & name & pre & post & Lo & N & A & B & T1 & Lb & Oth & _).
    apply write_line_locked_spec in H as (_ & _ & Fo & _).
    rewrite Fo in Lk by (rewrite T1; simpl; intros [= E]; apply Nk; symmetry; exact E).
    destruct (Oth k Nk) as [E|[E _]]; [|congruence].
    apply (Renamed m1 old name E Lk Lo); [|exact B].
    rewrite N. apply elem_of_app. right. apply elem_of_cons. by left.
  - apply rotate_locked_cases in E1
      as (_ & [(_ & _ & _ & F)|(O & [(_ & _ & F & _)|C])]).
    + left. by rewrite <- F.
    + left. by rewrite <- F.
    + destruct C as (name & pre & post & N & A & B & [(_ & _ & F)|C]).
      * left. by rewrite <- F.
      * destruct C as (n & Ln & Ne & [(_ & _ & _ & _ & F)|(m2 & [=] & _)]).
        apply (Renamed m' n name); [|exact Lk|exact Ln| |exact B].
        -- rewrite F. destruct (decide (k = Fs.resolve name)) as [->|Nn].
           ++ by rewrite !lookup_insert_eq.
           ++ rewrite !lookup_insert_ne by done. by apply lookup_delete_ne.
        -- rewrite N. apply elem_of_app. right. apply elem_of_cons. by left.
Qed.

(** C1: [write] rotates before writing exactly when the projected size
    [bytes_written + len(line) + (1 if the line lacks its newline)] reaches
    [max_bytes]. Below the threshold the line is appended and no rotation
    is counted. At the threshold the rotation runs first: when it throws,
    the line is not written; when it returns, the sink is open on a new,
    empty base file and the line is written there. A call that returns
    normally has counted one rotation and leaves the line alone in the base
    file and the old content, not extended by the line, under the first
    rotated name that was free, unless the pruning pass removed that file
    at once; any other file is as it was, or is a file of the rotation
    convention that pruning removed. While the library calls succeed and a
    rotated name is free, the call does return normally. However it ends,
    a file other than the base file is what it was or is the old content of
    the base file. *)
Theorem C1_rotation_before_the_triggering_line
    {LogRecord : Type} (formatter_ : LogRecord -> string) record m :
  let line := formatter_ record in
  let projected :=
    (bytes_written_ (this m) + Str.size line
     + (if lacks_newline line then 1 else 0))%Z in
  let kb := base_key (this m) in
  (0 <= bytes_written_ (this m))%Z -> (projected < 2 ^ 64)%Z ->
  ((projected < max_bytes_ (this m))%Z ->
     RotatingFileSink.write formatter_ record m = FileSink.write_line_locked line m
     /\ forall r m', RotatingFileSink.write formatter_ record m = (r, m') ->
          rotations_performed_ (this m') = rotations_performed_ (this m))
  /\ ((max_bytes_ (this m) <= projected)%Z ->
      RotatingFileSink.write formatter_ record m
      = (RotatingFileSink.rotate_locked ;; FileSink.write_line_locked line) m
      /\ (forall e m1,
            RotatingFileSink.rotate_locked m = (Throw e, m1) ->
            RotatingFileSink.write formatter_ record m = (Throw e, m1))
      /\ (forall m1,
            RotatingFileSink.rotate_locked m = (Ok tt, m1) ->
            file_ (this m1) = Some kb
            /\ files (os m1) !! kb = Some (RegularFile EmptyString)
            /\ bytes_written_ (this m1) = 0%Z
            /\ RotatingFileSink.write formatter_ record m
               = FileSink.write_line_locked line m1)
      /\ (forall m',
            RotatingFileSink.write formatter_ record m = (Ok tt, m') ->
            exists old name pre post,
              files (os m) !! kb = Some old
              /\ rotation_candidates (rotated_base_of m) = (pre ++ name :: post)%list
              /\ Forall (present (os m)) pre /\ ~ present (os m) name
              /\ rotations_performed_ (this m')
                 = wrap64 (rotations_performed_ (this m) + 1)
              /\ file_ (this m') = Some kb
              /\ files (os m') !! kb = Some (RegularFile (terminated line))
              /\ (files (os m') !! Fs.resolve name = Some old
                  \/ (files (os m') !! Fs.resolve name = None
                      /\ max_rotated_files_ (this m) <> 0%Z))
              /\ (forall k, k <> kb -> k <> Fs.resolve name ->
                    files (os m') !! k = files (os m) !! k
                    \/ (files (os m') !! k = None
                        /\ max_rotated_files_ (this m) <> 0%Z
                        /\ rotation_file (this m) k))
              /\ (max_rotated_files_ (this m) = 0%Z ->
                  files (os m')
                  = <[kb := RegularFile (terminated line)]>
                      (<[Fs.resolve name := old]> (delete kb (files (os m))))))
      /\ (forall old,
            file_ (this m) = Some kb ->
            files (os m) !! kb = Some (RegularFile old) ->
            calm (os m) ->
            ~ Forall (present (os m)) (rotation_candidates (rotated_base_of m)) ->
            exists m',
              RotatingFileSink.write formatter_ record m = (Ok tt, m')
              /\ calm (os m'))
      /\ (forall r m' k node,
            RotatingFileSink.write formatter_ record m = (r, m') ->
            sane (this m) -> k <> kb ->
            files (os m') !! k = Some node ->
            files (os m) !! k = Some node
            \/ (files (os m) !! kb = Some node
                /\ exists name, name ∈ rotation_candidates (rotated_base_of m)
                     /\ ~ present (os m) name /\ k = Fs.resolve name))).
Proof.
  intros line projected kb B0 B1. subst kb.
  pose proof (projected_exact _ line B0 B1) as Pe. fold projected in Pe.
  split.
  - intros Lt. assert (RotatingFileSink.write formatter_ record m
      = FileSink.write_line_locked line m) as W.
    { apply write_steady. fold line. by rewrite Pe. }
    split; [exact W|]. intros r m' H. rewrite W in H.
    by apply write_line_locked_spec in H as ((_ & _ & _ & _ & _ & R & _) & _).
  - intros Ge. assert (RotatingFileSink.write formatter_ record m
      = (RotatingFileSink.rotate_locked ;; FileSink.write_line_locked line) m) as W.
    { apply write_rotating. fold line. by rewrite Pe. }
    split; [exact W|]. split; [|split; [|split; [|split]]].
    + intros e m1 E. rewrite W. by apply bind_throw.
    + intros m1 E. rewrite W, (bind_ok _ _ _ _ _ E).
      apply rotate_locked_succeeded in E
        as (_ & _ & _ & _ & _ & _ & _ & _ & T1 & Lb & _).
      rewrite T1. done.
    + intros m' H. rewrite W in H.
      apply rotating_write_succeeded in H
        as (old & name & pre & post & Lo & N & A & B & Sb & _ & Lb & Oth & Z0).
      destruct Sb as (_ & _ & Fh & _ & _ & R & _). simpl in Fh, R.
      exists old, name, pre, post.
      split; [exact Lo|]. split; [exact N|]. split; [exact A|]. split; [exact B|].
      split; [exact R|]. split; [exact Fh|]. split; [exact Lb|].
      assert (Fs.resolve name <> base_key (this m)) as Nk.
      { intros E. apply B. unfold present. by rewrite E, Lo. }
      split; [|split; [|exact Z0]].
      * destruct (Oth _ Nk) as [->|(-> & Mx & _)]; [left|by right].
        by rewrite lookup_insert_eq.
      * intros k Kb Kn. destruct (Oth k Kb) as [->|G]; [left|by right].
        by rewrite lookup_insert_ne.
    + intros old Fh Lo C Free. rewrite W.
      by apply (rotating_write_calm line m old).
    + intros r m' k node H Sa Nk Lk. rewrite W in H.
      by apply (rotating_write_frame line m r m').
Qed.

Lemma demo_first_name_free :
  ~ Forall (present (os demo)) (rotation_candidates (rotated_base_of demo)).
Proof.
  intros All. apply Forall_cons in All as [P _]. apply P. vm_compute. reflexivity.
Qed.

Lemma first_free_is_head (w : World) rb name pre post :
  rotation_candidates rb = (pre ++ name :: post)%list ->
  Forall (present w) pre -> ~ present w rb -> name = rb.
Proof.
  intros Split Taken Free. unfold rotation_candidates in Split.
  destruct pre as [|p pre].
  - assert (Some rb = Some name) as H
      by exact (f_equal (fun l : list string => l !! 0) Split).
    clear Split. by injection H.
  - assert (Some rb = Some p) as H
      by exact (f_equal (fun l : list string => l !! 0) Split).
    clear Split. injection H as <-.
    apply Forall_cons in Taken as [P _]. done.
Qed.

Lemma C1_witness :
  (0 <= bytes_written_ (this demo))%Z
  /\ (max_bytes_ (this demo)
      <= bytes_written_ (this demo)
         + Str.size "0123456789012345678901234567890123456789" + 1)%Z
  /\ exists m',
       RotatingFileSink.write (fun msg : string => msg)
         "0123456789012345678901234567890123456789" demo = (Ok tt, m')
       /\ rotations_performed_ (this m') = 1%Z
       /\ files (os m') !! (".", "app.log")
          = Some (RegularFile "0123456789012345678901234567890123456789
")
       /\ files (os m') !! (".", "app.log.20240101_120000")
          = Some (RegularFile "ab
").
Proof.
  assert (0 <= bytes_written_ (this demo))%Z as B0 by (vm_compute; discriminate).
  assert (max_bytes_ (this demo)
      <= bytes_written_ (this demo)
         + Str.size "0123456789012345678901234567890123456789" + 1)%Z as Ge
    by (vm_compute; discriminate).
  split; [exact B0|]. split; [exact Ge|].
  destruct (C1_rotation_before_the_triggering_line (fun msg : string => msg)
              "0123456789012345678901234567890123456789" demo B0 eq_refl)
    as (_ & Rot).
  destruct (Rot Ge) as (_ & _ & _ & Succ & Live & _).
  assert (calm (os demo)) as Ca by constructor.
  destruct (Live "ab
" eq_refl eq_refl Ca demo_first_name_free) as (m' & E & _).
  destruct (Succ m' E)
    as (old & name & pre & post & Lo & Split & Taken & Free & R & _ & Lb & Ln & _).
  exists m'. split; [exact E|]. split; [exact R|]. split; [exact Lb|].
  assert (name = "app.log.20240101_120000") as ->.
  { apply (first_free_is_head (os demo) _ _ _ _ Split Taken).
    intros P. apply P. reflexivity. }
  clear Split.
  assert (Some (RegularFile "ab
") = Some old) as Eo by exact Lo.
  injection Eo as <-.
  destruct Ln as [Ln|(_ & Mx)]; [exact Ln|]. exfalso. apply Mx. reflexivity.
Defined.

(** C9: a line whose own cost [len(line) + (1 if it lacks its newline)]
    reaches [max_bytes] makes [write] rotate whatever the byte counter is,
    zero included. A call that returns normally has counted one rotation:
    the base file, even an empty one, is under the first rotated name that
    was free (unless the pruning pass removed it at once), the line is
    alone in the new base file, and the counter holds the cost of the line
    again, so that the next write of such a line rotates as well. While the
    library calls succeed and a rotated name is free, the call does return
    normally. *)
Theorem C9_oversized_line_rotates_every_time
    {LogRecord : Type} (formatter_ : LogRecord -> string) record m :
  let line := formatter_ record in
  let cost := (Str.size line + (if lacks_newline line then 1 else 0))%Z in
  let kb := base_key (this m) in
  (max_bytes_ (this m) <= cost)%Z ->
  (0 <= bytes_written_ (this m))%Z -> (bytes_written_ (this m) + cost < 2 ^ 64)%Z ->
  RotatingFileSink.write formatter_ record m
  = (RotatingFileSink.rotate_locked ;; FileSink.write_line_locked line) m
  /\ (forall m', RotatingFileSink.write formatter_ record m = (Ok tt, m') ->
        exists old name pre post,
          files (os m) !! kb = Some old
          /\ rotation_candidates (rotated_base_of m) = (pre ++ name :: post)%list
          /\ Forall (present (os m)) pre /\ ~ present (os m) name
          /\ rotations_performed_ (this m')
             = wrap64 (rotations_performed_ (this m) + 1)
          /\ (files (os m') !! Fs.resolve name = Some old
              \/ (files (os m') !! Fs.resolve name = None
                  /\ max_rotated_files_ (this m) <> 0%Z))
          /\ files (os m') !! kb = Some (RegularFile (terminated line))
          /\ file_ (this m') = Some kb
          /\ base_path_ (this m') = base_path_ (this m)
          /\ max_bytes_ (this m') = max_bytes_ (this m)
          /\ bytes_written_ (this m') = cost
          /\ ((cost + cost < 2 ^ 64)%Z ->
              RotatingFileSink.write formatter_ record m'
              = (RotatingFileSink.rotate_locked ;; FileSink.write_line_locked line) m'))
  /\ (forall old,
        file_ (this m) = Some kb ->
        files (os m) !! kb = Some (RegularFile old) ->
        calm (os m) ->
        ~ Forall (present (os m)) (rotation_candidates (rotated_base_of m)) ->
        exists m',
          RotatingFileSink.write formatter_ record m = (Ok tt, m')
          /\ calm (os m')).
Proof.
  intros line cost kb Ge B0 B1. subst kb.
  assert (0 <= cost)%Z as C0 by (unfold cost, Str.size; destruct (lacks_newline line); lia).
  assert (RotatingFileSink.write formatter_ record m
      = (RotatingFileSink.rotate_locked ;; FileSink.write_line_locked line) m) as W.
  { apply write_rotating. fold line. rewrite projected_exact; [|done|fold cost; lia].
    fold cost. lia. }
  split; [exact W|]. split.
  - intros m' H. rewrite W in H.
    apply rotating_write_succeeded in H
      as (old & name & pre & post & Lo & N & A & B & Sb & Bw & Lb & Oth & _).
    destruct Sb as (_ & _ & Fh & Bp & Mb & R & _). simpl in Fh, Bp, Mb, R.
    assert (bytes_written_ (this m') = cost) as Bc.
    { rewrite Bw, size_terminated. fold cost. apply wrap64_small. lia. }
    exists old, name, pre, post.
    split; [exact Lo|]. split; [exact N|]. split; [exact A|]. split; [exact B|].
    split; [exact R|]. split.
    { assert (Fs.resolve name <> base_key (this m)) as Nk.
      { intros E. apply B. unfold present. by rewrite E, Lo. }
      destruct (Oth _ Nk) as [->|(-> & Mx & _)]; [left|by right].
      by rewrite lookup_insert_eq. }
    split; [exact Lb|]. split; [exact Fh|]. split; [exact Bp|].
    split; [exact Mb|]. split; [exact Bc|].
    intros C2. apply write_rotating. fold line. rewrite Bc, Mb.
    rewrite projected_exact; [|done|fold cost; lia]. fold cost. lia.
  - intros old Fh Lo C Free. rewrite W.
    by apply (rotating_write_calm line m old).
Qed.

Lemma demo_fresh_first_name_free :
  ~ Forall (present (os demo_fresh))
      (rotation_candidates (rotated_base_of demo_fresh)).
Proof.
  intros All. apply Forall_cons in All as [P _]. apply P. vm_compute. reflexivity.
Qed.

Lemma C9_witness :
  (max_bytes_ (this demo_fresh) <= Str.size "0123456789" + 1)%Z
  /\ bytes_written_ (this demo_fresh) = 0%Z
  /\ files (os demo_fresh) !! (".", "app.log") = Some (RegularFile "")
  /\ exists m',
       RotatingFileSink.write (fun msg : string => msg) "0123456789" demo_fresh
       = (Ok tt, m')
       /\ rotations_performed_ (this m') = 1%Z
       /\ files (os m') !! (".", "app.log.20240101_120000") = Some (RegularFile "")
       /\ files (os m') !! (".", "app.log") = Some (RegularFile "0123456789
")
       /\ bytes_written_ (this m') = 11%Z.
Proof.
  assert (max_bytes_ (this demo_fresh) <= Str.size "0123456789" + 1)%Z as Ge
    by (vm_compute; discriminate).
  assert (0 <= bytes_written_ (this demo_fresh))%Z as B0 by (vm_compute; discriminate).
  assert (bytes_written_ (this demo_fresh) + (Str.size "0123456789" + 1) < 2 ^ 64)%Z
    as B1 by (vm_compute; reflexivity).
  split; [exact Ge|]. split; [reflexivity|]. split; [reflexivity|].
  destruct (C9_oversized_line_rotates_every_time (fun msg : string => msg)
              "0123456789" demo_fresh Ge B0 B1) as (_ & Succ & Live).
  assert (calm (os demo_fresh)) as Ca by constructor.
  destruct (Live "" eq_refl eq_refl Ca demo_fresh_first_name_free)
    as (m' & E & _).
  destruct (Succ m' E)
    as (old & name & pre & post & Lo & Split & Taken & Free & R
        & Ln & Lb & _ & _ & _ & Bc & _).
  exists m'. split; [exact E|]. split; [exact R|].
  assert (name = "app.log.20240101_120000") as ->.
  { apply (first_free_is_head (os demo_fresh) _ _ _ _ Split Taken).
    intros P. apply P. reflexivity. }
  clear Split.
  assert (Some (RegularFile "") = Some old) as Eo by exact Lo.
  injection Eo as <-.
  split; [|split; [exact Lb|exact Bc]].
  destruct Ln as [Ln|(_ & Mx)]; [exact Ln|]. exfalso. apply Mx. reflexivity.
Defined.
